(** * Block distribution, reconstruction and node removal

  A shallow embedding of [block_manager.py] (class [BlockManager]) and of
  the routes of [app.py] that call it ([upload_file], [download_file],
  [delete_file], [extend_node], [delete_node]), together with the properties
  of the storage core that the design document states about them and
  further properties of the storage core and of the routes.

  Conventions of the embedding.
  - Python [int] is [Z]; [len(x)] is [Z.of_nat (length x)].
  - [bytes] is a list of [Byte.byte]; a [bytes] value is truthy iff it is
    not empty.
  - The dictionary [network.nodes] keeps insertion order (the round-robin
    placement reads [list(nodes.keys())]), so it is an association list;
    a Python dictionary has no duplicate keys, which is [dict.wf].
  - The table of [FileBlock] rows is the list of rows in insertion order.
  - [hashlib.md5] and the [VirtualDiskManager] of [virtual_disk.py] are
    interfaces ([Hashlib], [VirtualDiskManager]); the functions of the
    block manager are written against them.
  - The tree under [blocks_dir] is a map from a node's directory to its
    files, and node identifiers are single path components. Writing a
    block file into a directory that does not exist raises
    [FileNotFoundError]; the other file-system calls are modelled as
    succeeding. *)

From Stdlib Require Import ZArith Lia.
From stdpp Require Import gmap strings list pretty.

Open Scope Z_scope.

Abbreviation bytes := (list Byte.byte).

(** [len(x)] *)
Definition len {A} (l : list A) : Z := Z.of_nat (length l).

(** [sum(...)] over integers *)
Definition sum (l : list Z) : Z := foldr Z.add 0 l.

(** Truthiness of an [Optional[bytes]]: neither [None] nor [b''] *)
Definition truthy (data : option bytes) : bool :=
  match data with
  | Some (_ :: _) => true
  | _ => false
  end.

(** ** External interfaces *)

(** [hashlib.md5(data).hexdigest()] *)
Class Hashlib := md5 : bytes → string.

(** The [VirtualDiskManager] of [virtual_disk.py], as the block manager
  uses it: [store_block_in_disk(node_id, block_data, block_identifier)]
  answers whether the block was stored, and
  [retrieve_block_from_disk(node_id, block_identifier)] answers the stored
  bytes or [None]. *)
Class VirtualDiskManager := {
  vdisks : Type;
  store_block_in_disk : vdisks → string → bytes → string → bool * vdisks;
  retrieve_block_from_disk : vdisks → string → string → option bytes
}.

(** What the design document promises of a virtual disk: a block that was
  stored is retrieved under its key, and storing touches no other key of
  no other disk. *)
Class VirtualDiskManagerLaws `{VirtualDiskManager} := {
  retrieve_stored : ∀ d node_id data key d',
  store_block_in_disk d node_id data key = (true, d') →
  retrieve_block_from_disk d' node_id key = Some data;
  retrieve_rejected : ∀ d node_id data key d',
  store_block_in_disk d node_id data key = (false, d') →
  retrieve_block_from_disk d' node_id key =
  retrieve_block_from_disk d node_id key;
  retrieve_other : ∀ d node_id data key ok d' node_id' key',
  store_block_in_disk d node_id data key = (ok, d') →
  (node_id', key') ≠ (node_id, key) →
  retrieve_block_from_disk d' node_id' key' =
  retrieve_block_from_disk d node_id' key'
}.

(** ** Python dictionaries with insertion order *)

Module dict.
Definition t (V : Type) : Type := list (string * V).

Definition keys {V} (d : t V) : list string := d.*1.
Definition values {V} (d : t V) : list V := d.*2.

(** [d[k]], [None] standing for [KeyError] *)
Fixpoint get {V} (d : t V) (k : string) : option V :=
  match d with
  | [] => None
  | (k', v) :: d => if decide (k' = k) then Some v else get d k
  end.

(** [k in d] *)
Definition mem {V} (k : string) (d : t V) : bool := bool_decide (k ∈ keys d).

(** in-place mutation of the object stored under [k] *)
Definition update {V} (f : V → V) (k : string) (d : t V) : t V :=
  (λ kv, if decide (kv.1 = k) then (kv.1, f kv.2) else kv) <$> d.

(** [del d[k]] *)
Definition del {V} (k : string) (d : t V) : t V :=
  filter (λ kv, kv.1 ≠ k) d.

(** no key occurs twice *)
Definition wf {V} (d : t V) : Prop := NoDup (keys d).
End dict.

(** ** Data model *)

Module StorageVirtualNode.
(** Modelled from the spec: [storage_virtual_node.py] is not part of the
    sources at hand. The fields are those that [block_manager.py] and
    [app.py] read and write on a node, with the meaning the design document
    gives them: capacities, the storage counters in bytes, and the links to
    other nodes with their bandwidth. *)
Record t := mk {
  node_id : string;
  cpu_capacity : Z;
  memory_capacity : Z;
  bandwidth : Z;
  total_storage : Z;
  used_storage : Z;
  connections : gmap string Z
}.

Definition set_used_storage (f : Z → Z) (n : t) : t :=
  mk (node_id n) (cpu_capacity n) (memory_capacity n) (bandwidth n)
     (total_storage n) (f (used_storage n)) (connections n).

Definition set_connections (f : gmap string Z → gmap string Z) (n : t) : t :=
  mk (node_id n) (cpu_capacity n) (memory_capacity n) (bandwidth n)
     (total_storage n) (used_storage n) (f (connections n)).

Definition set_total_storage (f : Z → Z) (n : t) : t :=
  mk (node_id n) (cpu_capacity n) (memory_capacity n) (bandwidth n)
     (f (total_storage n)) (used_storage n) (connections n).
End StorageVirtualNode.

Module File.
(** Modelled from the spec: [models.py] is not part of the sources at hand.
    Of a file row the block manager reads [id], the row key that block rows
    refer to, and [file_id], the UUID string that names the physical
    blocks. *)
Record t := mk { id : Z; file_id : string }.
End File.

(** Where a block's bytes were put: [vdisk://{node_id}/{key}] or the file
  [{blocks_dir}/{node_id}/{filename}] *)
Inductive location :=
  | VDisk (node_id key : string)
  | BlockFile (node_id filename : string).

Module FileBlock.
(** Modelled from the spec: [models.py] is not part of the sources at hand.
    The fields are the keyword arguments with which [distribute_file_blocks]
    builds a block row. *)
Record t := mk {
  block_id : Z;
  file_id : Z;
  node_id : string;
  block_size : Z;
  checksum : string;
  is_replica : bool;
  replica_of_block_id : option Z;
  data_path : option location
}.
End FileBlock.

Global Instance location_eq_dec : EqDecision location.
Proof. solve_decision. Defined.

Global Instance FileBlock_eq_dec : EqDecision FileBlock.t.
Proof. solve_decision. Defined.

(** ** The block manager *)

Definition BLOCK_SIZE : Z := 1024 * 1024.
Definition REPLICATION_FACTOR : Z := 2.

Section BlockManager.
Context `{Hashlib} `{VirtualDiskManager}.

(** Everything the block manager and the node routes read and write:
    [network.nodes], the [use_virtual_disk] flag, the virtual disks, the
    directory tree under [blocks_dir], and the [FileBlock] table. *)
Record state := State {
  nodes : dict.t StorageVirtualNode.t;
  use_virtual_disk : bool;
  vdisk_manager : vdisks;
  blocks_dir : gmap string (gmap string bytes);
  db : list FileBlock.t
}.

Definition set_nodes (f : dict.t StorageVirtualNode.t → dict.t StorageVirtualNode.t)
    (st : state) : state :=
  State (f (nodes st)) (use_virtual_disk st) (vdisk_manager st) (blocks_dir st) (db st).
Definition set_vdisk_manager (d : vdisks) (st : state) : state :=
  State (nodes st) (use_virtual_disk st) d (blocks_dir st) (db st).
Definition set_blocks_dir
    (f : gmap string (gmap string bytes) → gmap string (gmap string bytes))
    (st : state) : state :=
  State (nodes st) (use_virtual_disk st) (vdisk_manager st) (f (blocks_dir st)) (db st).
Definition set_db (f : list FileBlock.t → list FileBlock.t) (st : state) : state :=
  State (nodes st) (use_virtual_disk st) (vdisk_manager st) (blocks_dir st) (f (db st)).

(** *** [split_file_into_blocks] *)

(** [f.read(n)] on the rest of the file: the chunk read and what is left *)
Definition read (n : nat) (f : bytes) : bytes * bytes := (take n f, drop n f).

(** The [while True] loop; it runs at most once per byte and once more
    for the empty read that ends it. *)
Fixpoint split_loop (n : nat) (fuel : nat) (f : bytes) : list (bytes * string) :=
  match fuel with
  | O => []
  | S fuel =>
      let '(block_data, f) := read n f in
      match block_data with
      | [] => []
      | _ => (block_data, md5 block_data) :: split_loop n fuel f
      end
  end.

(** [file_contents] is what [open(file_path, 'rb')] reads; the argument
    [file_id] and the counter [block_index] of the source play no part. *)
Definition split_file_into_blocks (file_contents : bytes) : list (bytes * string) :=
  split_loop (Z.to_nat BLOCK_SIZE) (S (length file_contents)) file_contents.

(** *** [select_nodes_for_block] *)

(** [num_replicas] is [None] when the argument is left out. The index
    [node_index] is always within the list ([select_nodes_lookup] below), so
    the default of the lookup is never taken. *)
Definition select_nodes_for_block (ns : dict.t StorageVirtualNode.t)
    (block_id : Z) (num_replicas : option Z) : list string :=
  let num_replicas := default REPLICATION_FACTOR num_replicas in
  let available_nodes := dict.keys ns in
  if decide (len available_nodes = 0) then []
  else
    (λ i, let node_index := (block_id + i) `mod` len available_nodes in
          default EmptyString (available_nodes !! Z.to_nat node_index))
    <$> seqZ 0 (num_replicas `min` len available_nodes).

(** *** [store_block] and [retrieve_block] *)

Definition block_identifier (file_id : string) (block_id : Z) : string :=
  file_id +:+ "_block_" +:+ pretty block_id.

Definition block_filename (file_id : string) (block_id : Z) : string :=
  file_id +:+ "_block_" +:+ pretty block_id +:+ ".dat".

(** [open(path, 'wb')] and [f.write(data)] for the file [filename] in the
    directory of [node_id]; [None] stands for the [FileNotFoundError] that
    [open] raises when that directory does not exist. *)
Definition write_file (node_id filename : string) (data : bytes)
    (fs : gmap string (gmap string bytes)) : option (gmap string (gmap string bytes)) :=
  dir ← fs !! node_id; Some (<[node_id := <[filename := data]> dir]> fs).

Definition read_file (fs : gmap string (gmap string bytes))
    (node_id filename : string) : option bytes :=
  fs !! node_id ≫= λ dir, dir !! filename.

(** How a call ends that no handler guards: with the value it returns, or
    with the [FileNotFoundError] of [open], and the state it leaves either
    way. *)
Inductive outcome (A : Type) :=
  | Returns (a : A)
  | FileNotFoundError.
Global Arguments Returns {A} a.
Global Arguments FileNotFoundError {A}.

(** The virtual disk is tried when [use_virtual_disk] is set (the
    attribute [vdisk_manager] exists exactly then); otherwise, or when the
    disk refuses, the block goes to the file
    [{blocks_dir}/{node_id}/{file_id}_block_{block_id}.dat], and the
    function raises when the directory of the node is missing. *)
Definition store_block (st : state) (block_data : bytes)
    (node_id file_id : string) (block_id : Z) : outcome location * state :=
  let try_disk :=
    if use_virtual_disk st then
      let '(success, d) :=
        store_block_in_disk (vdisk_manager st) node_id block_data
          (block_identifier file_id block_id) in
      (success, set_vdisk_manager d st)
    else (false, st) in
  if try_disk.1 then
    (Returns (VDisk node_id (block_identifier file_id block_id)), try_disk.2)
  else
    match write_file node_id (block_filename file_id block_id) block_data
            (blocks_dir try_disk.2) with
    | Some fs =>
        (Returns (BlockFile node_id (block_filename file_id block_id)),
         set_blocks_dir (λ _, fs) try_disk.2)
    | None => (FileNotFoundError, try_disk.2)
    end.

(** The virtual disk's answer when it is truthy, else the content of the
    block file, [None] when there is no such file *)
Definition retrieve_block (st : state) (node_id file_id : string)
    (block_id : Z) : option bytes :=
  let data :=
    if use_virtual_disk st then
      retrieve_block_from_disk (vdisk_manager st) node_id
        (block_identifier file_id block_id)
    else None in
  if truthy data then data
  else read_file (blocks_dir st) node_id (block_filename file_id block_id).

(** *** [distribute_file_blocks] *)

(** One copy of a block on one node: [store_block], the [FileBlock] row
    added to the session, and the node's [used_storage] counter. The source
    writes this sequence twice, for the primary ([is_replica=False], no
    [replica_of_block_id]) and for each replica ([is_replica=True],
    [replica_of_block_id=block_id]). When [store_block] raises, neither the
    row nor the counter is reached. *)
Definition place_copy (file : File.t) (block_id : Z) (block_data : bytes)
    (checksum : string) (replica : bool) (st : state) (node_id : string)
    : outcome () * state :=
  match store_block st block_data node_id (File.file_id file) block_id with
  | (Returns path, st) =>
      let row :=
        FileBlock.mk block_id (File.id file) node_id (len block_data) checksum
          replica (if replica then Some block_id else None) (Some path) in
      let st := set_db (λ rows, rows ++ [row]) st in
      (Returns (),
       set_nodes
         (dict.update
            (StorageVirtualNode.set_used_storage (λ used, used + len block_data))
            node_id)
         st)
  | (FileNotFoundError, st) => (FileNotFoundError, st)
  end.

(** [for replica_idx, replica_node_id in enumerate(node_ids[1:], 1)] *)
Fixpoint place_replicas (file : File.t) (block_id : Z) (block_data : bytes)
    (checksum : string) (st : state) (replica_nodes : list string)
    : outcome () * state :=
  match replica_nodes with
  | [] => (Returns (), st)
  | replica_node_id :: replica_nodes =>
      match place_copy file block_id block_data checksum true st replica_node_id with
      | (Returns _, st) => place_replicas file block_id block_data checksum st replica_nodes
      | (FileNotFoundError, st) => (FileNotFoundError, st)
      end
  end.

(** How [distribute_file_blocks] leaves: through the final [return True],
    through one of its three [return False], or with the exception of a
    [store_block] call, which it does not handle. *)
Inductive distribute_exit :=
  | Committed
  | NoBlocks
  | InsufficientStorage
  | NoNodesAvailable
  | StoreBlockRaised.

Global Instance distribute_exit_eq_dec : EqDecision distribute_exit.
Proof. solve_decision. Defined.

(** [for block_id, (block_data, checksum) in enumerate(blocks_data)] *)
Fixpoint distribute_loop (file : File.t) (block_id : Z)
    (blocks_data : list (bytes * string)) (st : state) : distribute_exit * state :=
  match blocks_data with
  | [] => (Committed, st)
  | (block_data, checksum) :: blocks_data =>
      match select_nodes_for_block (nodes st) block_id None with
      | [] => (NoNodesAvailable, st)
      | primary_node :: replica_nodes =>
          match place_copy file block_id block_data checksum false st primary_node with
          | (Returns _, st) =>
              match place_replicas file block_id block_data checksum st replica_nodes with
              | (Returns _, st) => distribute_loop file (block_id + 1) blocks_data st
              | (FileNotFoundError, st) => (StoreBlockRaised, st)
              end
          | (FileNotFoundError, st) => (StoreBlockRaised, st)
          end
      end
  end.

(** [sum(len(block[0]) for block in blocks_data) * self.REPLICATION_FACTOR] *)
Definition total_size_needed (blocks_data : list (bytes * string)) : Z :=
  sum ((λ block, len block.1) <$> blocks_data) * REPLICATION_FACTOR.

(** [sum(node.total_storage - node.used_storage
         for node in self.network.nodes.values())] *)
Definition available_storage (ns : dict.t StorageVirtualNode.t) : Z :=
  sum ((λ node, StorageVirtualNode.total_storage node
                - StorageVirtualNode.used_storage node)
       <$> dict.values ns).

(** The function, with the way it leaves. [file_contents] is the content
    of [file_path]; [user_id] is not used by the source. The rows added to
    the session are rows of the table at once (a query sees them), so the
    final [commit] changes nothing here; when the function raises, the rows
    added so far stay in the session until its owner rolls back. *)
Definition distribute_file_blocks_exit (st : state) (file_contents : bytes)
    (file : File.t) : distribute_exit * state :=
  let blocks_data := split_file_into_blocks file_contents in
  if decide (len blocks_data = 0) then (NoBlocks, st)
  else if decide (total_size_needed blocks_data > available_storage (nodes st))
  then (InsufficientStorage, st)
  else distribute_loop file 0 blocks_data st.

(** The answer of [distribute_file_blocks], or the exception that leaves
    it, and the state it leaves *)
Definition distribute_file_blocks (st : state) (file_contents : bytes)
    (file : File.t) : outcome bool * state :=
  let '(exit, st) := distribute_file_blocks_exit st file_contents file in
  (match exit with
   | StoreBlockRaised => FileNotFoundError
   | _ => Returns (bool_decide (exit = Committed))
   end, st).

(** *** [reconstruct_file] *)

(** [.order_by(FileBlock.block_id)]: a stable sort of the rows *)
Fixpoint insert_by_block_id (b : FileBlock.t) (rows : list FileBlock.t) : list FileBlock.t :=
  match rows with
  | [] => [b]
  | r :: rows' =>
      if decide (FileBlock.block_id b ≤ FileBlock.block_id r) then b :: rows
      else r :: insert_by_block_id b rows'
  end.

Definition order_by_block_id (rows : list FileBlock.t) : list FileBlock.t :=
  foldr insert_by_block_id [] rows.

(** [FileBlock.query.filter_by(file_id=file.id, is_replica=False)
      .order_by(FileBlock.block_id).all()] *)
Definition query_primaries (rows : list FileBlock.t) (file : File.t) : list FileBlock.t :=
  order_by_block_id
    (filter (λ r, FileBlock.file_id r = File.id file ∧ FileBlock.is_replica r = false) rows).

(** [FileBlock.query.filter_by(file_id=file.id, block_id=block.block_id,
      is_replica=True).all()] *)
Definition query_replicas (rows : list FileBlock.t) (file : File.t) (block_id : Z)
    : list FileBlock.t :=
  filter (λ r, FileBlock.file_id r = File.id file ∧ FileBlock.block_id r = block_id
               ∧ FileBlock.is_replica r = true) rows.

(** The loop entered when the primary's retrieval answered [None]: every
    replica's answer overwrites [block_data], and the first truthy answer
    ends the loop. *)
Fixpoint try_replicas (st : state) (file : File.t) (block_id : Z)
    (replicas : list FileBlock.t) (block_data : option bytes) : option bytes :=
  match replicas with
  | [] => block_data
  | replica :: replicas =>
      let block_data :=
        retrieve_block st (FileBlock.node_id replica) (File.file_id file) block_id in
      if truthy block_data then block_data
      else try_replicas st file block_id replicas block_data
  end.

(** The loop entered on a checksum mismatch: the first replica whose bytes
    are truthy and hash to the replica row's own checksum; [None] stands
    for [found_valid] staying [False]. *)
Fixpoint find_valid_replica (st : state) (file : File.t) (block_id : Z)
    (replicas : list FileBlock.t) : option bytes :=
  match replicas with
  | [] => None
  | replica :: replicas =>
      let replica_data :=
        retrieve_block st (FileBlock.node_id replica) (File.file_id file) block_id in
      if truthy replica_data then
        match replica_data with
        | Some data =>
            if decide (md5 data = FileBlock.checksum replica) then Some data
            else find_valid_replica st file block_id replicas
        | None => find_valid_replica st file block_id replicas
        end
      else find_valid_replica st file block_id replicas
  end.

(** The body of [for block in blocks]: the bytes written for this block, or
    [None] where the body returns [False]. *)
Definition reconstruct_block (st : state) (file : File.t) (block : FileBlock.t)
    : option bytes :=
  let block_data :=
    retrieve_block st (FileBlock.node_id block) (File.file_id file)
      (FileBlock.block_id block) in
  let block_data :=
    match block_data with
    | None =>
        try_replicas st file (FileBlock.block_id block)
          (query_replicas (db st) file (FileBlock.block_id block)) None
    | Some _ => block_data
    end in
  match block_data with
  | None => None
  | Some data =>
      if decide (md5 data ≠ FileBlock.checksum block) then
        find_valid_replica st file (FileBlock.block_id block)
          (query_replicas (db st) file (FileBlock.block_id block))
      else Some data
  end.

Fixpoint reconstruct_loop (st : state) (file : File.t) (blocks : list FileBlock.t)
    (output_file : bytes) : bool * bytes :=
  match blocks with
  | [] => (true, output_file)
  | block :: blocks =>
      match reconstruct_block st file block with
      | None => (false, output_file)
      | Some block_data => reconstruct_loop st file blocks (output_file ++ block_data)
      end
  end.

(** The answer and what [output_path] holds afterwards; [None] when the
    function returned before opening it. *)
Definition reconstruct_file (st : state) (file : File.t) : bool * option bytes :=
  let blocks := query_primaries (db st) file in
  match blocks with
  | [] => (false, None)
  | _ => let '(ok, output_file) := reconstruct_loop st file blocks [] in
         (ok, Some output_file)
  end.

(** *** [delete_file_blocks] *)

(** [os.path.exists(path)] and [os.remove(path)] for a block's location; a
    [vdisk://] location names no file. *)
Definition remove_data_path (path : option location)
    (fs : gmap string (gmap string bytes)) : gmap string (gmap string bytes) :=
  match path with
  | Some (BlockFile node_id filename) => alter (delete filename) node_id fs
  | _ => fs
  end.

(** The body of [for block in blocks], the row's deletion apart *)
Definition delete_block (st : state) (block : FileBlock.t) : state :=
  let st := set_blocks_dir (remove_data_path (FileBlock.data_path block)) st in
  if dict.mem (FileBlock.node_id block) (nodes st) then
    set_nodes
      (dict.update
         (StorageVirtualNode.set_used_storage
            (λ used, 0 `max` (used - FileBlock.block_size block)))
         (FileBlock.node_id block))
      st
  else st.

(** The rows marked by [db.session.delete] leave the table at the
    [commit] that ends the function. *)
Definition delete_file_blocks (st : state) (file : File.t) : bool * state :=
  let blocks := filter (λ r, FileBlock.file_id r = File.id file) (db st) in
  let st := foldl delete_block st blocks in
  (true, set_db (filter (λ r, FileBlock.file_id r ≠ File.id file)) st).

(** *** [delete_node] of [app.py] *)

Inductive delete_node_exit :=
  | NodeNotFound
  | NodeNotEmpty
  | NodeDeleted.

(** The route's three outcomes, by the message it flashes, and the state
    it leaves: [shutil.rmtree] of the node's directory, [del] of the registry
    entry, [del] of the node in every other node's [connections]. *)
Definition delete_node (st : state) (node_id : string) : delete_node_exit * state :=
  match dict.get (nodes st) node_id with
  | None => (NodeNotFound, st)
  | Some node =>
      if decide (StorageVirtualNode.used_storage node > 0) then (NodeNotEmpty, st)
      else
        let st := set_blocks_dir (delete node_id) st in
        let st := set_nodes (dict.del node_id) st in
        let st :=
          set_nodes
            (fmap (λ kv, (kv.1, StorageVirtualNode.set_connections (delete node_id) kv.2)))
            st in
        (NodeDeleted, st)
  end.

(** *** [_ensure_blocks_directory] *)

(** [os.makedirs(node_dir)] for every registered node whose directory
    [{blocks_dir}/{node_id}] is missing. The tree stands for the directory
    [blocks_dir] itself, whose own creation changes nothing here. *)
Definition _ensure_blocks_directory (st : state) : state :=
  set_blocks_dir
    (λ fs, foldl (λ fs node_id, if decide (is_Some (fs !! node_id)) then fs
                                else <[node_id := ∅]> fs)
             fs (dict.keys (nodes st)))
    st.

(** *** [extend_node] of [app.py] *)

Inductive extend_node_exit :=
  | ExtendNodeNotFound
  | NodeExtended.

(** [additional_storage_gb] is the integer that [int(request.form.get(...))]
    parsed. The virtual disk of the node, if any, keeps its size. *)
Definition extend_node (st : state) (node_id : string) (additional_storage_gb : Z)
    : extend_node_exit * state :=
  if dict.mem node_id (nodes st) then
    let additional_bytes := additional_storage_gb * 1024 * 1024 * 1024 in
    (NodeExtended,
     set_nodes
       (dict.update
          (StorageVirtualNode.set_total_storage (λ total, total + additional_bytes))
          node_id)
       st)
  else (ExtendNodeNotFound, st).

(** *** The refresh of the counters in [app.py] *)

(** The loop that [upload_file], [delete_file], [admin_dashboard] and the
    start-up code run over [storage_network.nodes.values()]: every node's
    [used_storage] becomes the sum of the [block_size] of the block rows
    whose [node_id] is the node's own [node_id] attribute. *)
Definition refresh_node_storage (st : state) : state :=
  set_nodes
    (fmap (λ kv, (kv.1,
                  StorageVirtualNode.set_used_storage
                    (λ _, sum (FileBlock.block_size
                               <$> filter (λ block, FileBlock.node_id block
                                                    = StorageVirtualNode.node_id kv.2)
                                     (db st)))
                    kv.2)))
    st.

End BlockManager.

(** ** The file routes of [app.py] *)

Module User.
(** Modelled from the spec: [models.py] is not part of the sources at hand.
    Of the user that [User.query.get(session['user_id'])] answers, the
    routes read the row key [id] and call [can_store_file(file_size)], the
    quota check, given here by its answer for every size. *)
Record t := mk { id : Z; can_store_file : Z → bool }.
End User.

Module FileRow.
(** Modelled from the spec: [models.py] is not part of the sources at hand.
    A row of the [File] table with the columns that [upload_file] fills;
    [file] is what the block manager reads of the row, the key [id] that the
    database assigned and the UUID [file_id]. *)
Record t := mk {
  file : File.t;
  filename : string;
  file_size : Z;
  mime_type : string;
  user_id : Z
}.
End FileRow.

Module FileStorage.
(** The uploaded file of a request, [request.files['file']]: the name the
    client gave, the content type, and the bytes of the stream. *)
Record t := mk { filename : string; content_type : string; stream : bytes }.
End FileStorage.

(** [werkzeug.utils.secure_filename] *)
Class Werkzeug := secure_filename : string → string.

Section Routes.
Context `{Hashlib} `{VirtualDiskManager} `{Werkzeug}.

(** What the file routes read and write: the block manager with its
    network and the block rows, the [File] table in insertion order, and the
    files of [UPLOAD_FOLDER] by name. *)
Record app := App {
  block_manager : state;
  files : list FileRow.t;
  upload_folder : gmap string bytes
}.

Definition set_block_manager (f : state → state) (a : app) : app :=
  App (f (block_manager a)) (files a) (upload_folder a).
Definition set_files (f : list FileRow.t → list FileRow.t) (a : app) : app :=
  App (block_manager a) (f (files a)) (upload_folder a).
Definition set_upload_folder (f : gmap string bytes → gmap string bytes) (a : app) : app :=
  App (block_manager a) (files a) (f (upload_folder a)).

(** [File.query.filter_by(file_id=file_id).first()] *)
Definition query_file (rows : list FileRow.t) (file_id : string) : option FileRow.t :=
  head (filter (λ row, File.file_id (FileRow.file row) = file_id) rows).

(** The routes below are the bodies that [login_required] guards: [user]
    is the row of the user the session names. Each answers the message it
    flashes, or the file it sends, and the state it leaves. *)

Inductive upload_exit :=
  | NoFileSelected
  | QuotaExceeded
  | FileUploaded
  | StoreFailed
  | UploadError.

(** [file] is [None] when the request has no part named [file];
    [uuid4] is the string that [uuid.uuid4()] draws and [id] the key that
    the database assigns to the new row at [commit]. The temporary copy
    under [UPLOAD_FOLDER] is named by the UUID and removed at the end. When
    [distribute_file_blocks] raises, the handler's [db.session.rollback()]
    drops the block rows added since the commit of the [File] row; that row,
    the counters and the blocks stored so far stay. *)
Definition upload_file (a : app) (user : User.t) (file : option FileStorage.t)
    (uuid4 : string) (id : Z) : upload_exit * app :=
  match file with
  | None => (NoFileSelected, a)
  | Some file =>
      if decide (FileStorage.filename file = EmptyString) then (NoFileSelected, a)
      else
        let file_size := len (FileStorage.stream file) in
        if User.can_store_file user file_size then
          let file_id := uuid4 in
          let filename := secure_filename (FileStorage.filename file) in
          let temp_path := file_id in
          let a := set_upload_folder (<[temp_path := FileStorage.stream file]>) a in
          let db_file :=
            FileRow.mk (File.mk id file_id) filename file_size
              (FileStorage.content_type file) (User.id user) in
          let a := set_files (λ rows, rows ++ [db_file]) a in
          let '(distributed, st) :=
            distribute_file_blocks (block_manager a) (FileStorage.stream file)
              (FileRow.file db_file) in
          let '(exit, a) :=
            match distributed with
            | Returns true =>
                (FileUploaded, set_block_manager (λ _, refresh_node_storage st) a)
            | Returns false =>
                (StoreFailed,
                 set_files (filter (λ row, File.id (FileRow.file row) ≠ id))
                   (set_block_manager (λ _, st) a))
            | FileNotFoundError =>
                (UploadError,
                 set_block_manager (λ _, set_db (λ _, db (block_manager a)) st) a)
            end in
          (exit, set_upload_folder (delete temp_path) a)
        else (QuotaExceeded, a)
  end.

Inductive download_exit :=
  | DownloadNotFound
  | DownloadDenied
  | RetrieveFailed
  | SendFile (content : bytes) (download_name : string).

(** The file is rebuilt at [download_{file_id}] under [UPLOAD_FOLDER] and
    sent from there; what [reconstruct_file] wrote before failing stays
    there too. The timer that removes it later is [cleanup_file]. *)
Definition download_file (a : app) (user : User.t) (file_id : string)
    : download_exit * app :=
  match query_file (files a) file_id with
  | None => (DownloadNotFound, a)
  | Some file =>
      if decide (FileRow.user_id file ≠ User.id user) then (DownloadDenied, a)
      else
        let temp_download_path := "download_" +:+ file_id in
        match reconstruct_file (block_manager a) (FileRow.file file) with
        | (ok, None) => (RetrieveFailed, a)
        | (ok, Some output) =>
            let a := set_upload_folder (<[temp_download_path := output]>) a in
            if ok then (SendFile output (FileRow.filename file), a)
            else (RetrieveFailed, a)
        end
  end.

(** [cleanup_file], run by the timer five minutes after a download *)
Definition cleanup_file (a : app) (file_id : string) : app :=
  set_upload_folder (delete ("download_" +:+ file_id)) a.

Inductive delete_file_exit :=
  | DeleteNotFound
  | DeleteDenied
  | FileDeleted.

Definition delete_file (a : app) (user : User.t) (file_id : string)
    : delete_file_exit * app :=
  match query_file (files a) file_id with
  | None => (DeleteNotFound, a)
  | Some file =>
      if decide (FileRow.user_id file ≠ User.id user) then (DeleteDenied, a)
      else
        let a :=
          set_block_manager (λ st, (delete_file_blocks st (FileRow.file file)).2) a in
        let a :=
          set_files
            (filter (λ row, File.id (FileRow.file row) ≠ File.id (FileRow.file file)))
            a in
        (FileDeleted, set_block_manager refresh_node_storage a)
  end.

End Routes.

(** ** A virtual disk manager and a digest to run the model with *)

Module VirtualDisk.
(** Modelled from the spec: [virtual_disk.py] is not part of the sources
    at hand. The design document gives a virtual disk a capacity, a count of
    used bytes and a mapping from block key to stored bytes; [store] rejects
    a write beyond the capacity and [retrieve] answers the stored bytes or
    not-found. *)
Record t := mk {
  capacity_bytes : Z;
  used_bytes : Z;
  blocks : gmap string bytes
}.

(** Modelled from the spec: [store(key, bytes)] answers success or
    capacity-exceeded, and a rejected write leaves the disk as it was. *)
Definition store (key : string) (data : bytes) (disk : t) : bool * t :=
  if decide (used_bytes disk + len data > capacity_bytes disk) then (false, disk)
  else (true, mk (capacity_bytes disk) (used_bytes disk + len data)
                 (<[key := data]> (blocks disk))).

(** Modelled from the spec: [retrieve(key)] answers the bytes or not-found. *)
Definition retrieve (key : string) (disk : t) : option bytes := blocks disk !! key.

(** Modelled from the spec: the manager is a registry from node id to that
    node's disk; a node without a disk is a miss. *)
Definition manager_store (d : gmap string t) (node_id : string) (data : bytes)
    (key : string) : bool * gmap string t :=
  match d !! node_id with
  | None => (false, d)
  | Some disk => let '(ok, disk) := store key data disk in (ok, <[node_id := disk]> d)
  end.

(** Modelled from the spec: retrieval from the disk of the node, a miss
    when the node has no disk. *)
Definition manager_retrieve (d : gmap string t) (node_id key : string) : option bytes :=
  d !! node_id ≫= retrieve key.
End VirtualDisk.

Global Instance spec_virtual_disks : VirtualDiskManager := {
  vdisks := gmap string VirtualDisk.t;
  store_block_in_disk := VirtualDisk.manager_store;
  retrieve_block_from_disk := VirtualDisk.manager_retrieve
}.

(** A stand-in for MD5 that can be evaluated: the decimal rendering of a
    positional checksum of the bytes. *)
Definition byte_sum (data : bytes) : Z :=
  foldl (λ acc b, (acc * 257 + Z.of_N (Byte.to_N b) + 1) `mod` 4294967291) 0 data.

Definition sample_digest : Hashlib := λ data, pretty (byte_sum data).

(** ** Vocabulary of the stated properties *)

Section Vocabulary.
Context `{Hashlib} `{VirtualDiskManager}.

(** The bytes of the block rows, primary and replica, assigned to a node *)
Definition assigned_bytes (rows : list FileBlock.t) (node_id : string) : Z :=
  sum (FileBlock.block_size <$> filter (λ r, FileBlock.node_id r = node_id) rows).

(** A consistent state: block sizes are byte counts, and every node's
    counter is the sum of the sizes of the rows assigned to it. *)
Definition accounting_consistent (st : state) : Prop :=
  (∀ r, r ∈ db st → 0 ≤ FileBlock.block_size r)
  ∧ ∀ node_id node, (node_id, node) ∈ nodes st →
      StorageVirtualNode.used_storage node = assigned_bytes (db st) node_id.

(** Every registered node has its directory under [blocks_dir], as
    [_ensure_blocks_directory] and the routes that add a node see to. *)
Definition directories_exist (st : state) : Prop :=
  ∀ node_id, node_id ∈ dict.keys (nodes st) → is_Some (blocks_dir st !! node_id).

Inductive operation :=
  | Distribute (file_contents : bytes) (file : File.t)
  | Delete (file : File.t).

(** The state a call leaves, whether it returns or raises *)
Definition run_operation (st : state) (op : operation) : state :=
  match op with
  | Distribute file_contents file => (distribute_file_blocks st file_contents file).2
  | Delete file => (delete_file_blocks st file).2
  end.

Definition run_operations (st : state) (ops : list operation) : state :=
  foldl run_operation st ops.

Definition total_used (ns : dict.t StorageVirtualNode.t) : Z :=
  sum (StorageVirtualNode.used_storage <$> dict.values ns).

Definition total_capacity (ns : dict.t StorageVirtualNode.t) : Z :=
  sum (StorageVirtualNode.total_storage <$> dict.values ns).

(** Every node's counter is within its capacity. *)
Definition within_capacity (ns : dict.t StorageVirtualNode.t) : Prop :=
  ∀ node_id node, (node_id, node) ∈ ns →
    StorageVirtualNode.used_storage node ≤ StorageVirtualNode.total_storage node.

(** A block row without its [data_path] *)
Definition forget_path (r : FileBlock.t) : FileBlock.t :=
  FileBlock.mk (FileBlock.block_id r) (FileBlock.file_id r) (FileBlock.node_id r)
    (FileBlock.block_size r) (FileBlock.checksum r) (FileBlock.is_replica r)
    (FileBlock.replica_of_block_id r) None.

(** The rows of one block placed on [node_ids], the first being the
    primary, paths left out *)
Definition block_rows (file : File.t) (block_id : Z) (data : bytes) (checksum : string)
    (node_ids : list string) : list FileBlock.t :=
  match node_ids with
  | [] => []
  | primary :: replicas =>
      FileBlock.mk block_id (File.id file) primary (len data) checksum false None None
      :: ((λ node_id, FileBlock.mk block_id (File.id file) node_id (len data) checksum
                        true (Some block_id) None) <$> replicas)
  end.

(** The rows of the blocks numbered from [block_id] on, in the order in
    which the loop of [distribute_file_blocks] adds them *)
Fixpoint planned_rows (file : File.t) (ns : dict.t StorageVirtualNode.t) (block_id : Z)
    (blocks_data : list (bytes * string)) : list FileBlock.t :=
  match blocks_data with
  | [] => []
  | (data, checksum) :: blocks_data =>
      block_rows file block_id data checksum (select_nodes_for_block ns block_id None)
      ++ planned_rows file ns (block_id + 1) blocks_data
  end.

(** The rows of a file *)
Definition rows_of (rows : list FileBlock.t) (file : File.t) : list FileBlock.t :=
  filter (λ r, FileBlock.file_id r = File.id file) rows.

(** No byte is retrievable yet under the block names of the file. *)
Definition no_stored_copy (st : state) (file : File.t) : Prop :=
  ∀ node_id block_id, retrieve_block st node_id (File.file_id file) block_id = None.

(** The physical copies of the first [n] blocks of a file on the nodes of
    the registry: the pairs of a node and a block index under which bytes
    are retrievable *)
Definition stored_copies (st : state) (file : File.t) (n : Z) : list (string * Z) :=
  block_id ← seqZ 0 n;
  (λ node_id, (node_id, block_id))
  <$> filter (λ node_id, is_Some (retrieve_block st node_id (File.file_id file) block_id))
        (dict.keys (nodes st)).

(** The bytes that the loop of [distribute_file_blocks] over the blocks
    numbered from [first_id] on puts under a node and a block index, if
    any *)
Definition planned_copy (ns : dict.t StorageVirtualNode.t) (first_id : Z)
    (blocks_data : list (bytes * string)) (node_id : string) (block_id : Z)
    : option bytes :=
  if decide (first_id ≤ block_id) then
    block ← blocks_data !! Z.to_nat (block_id - first_id);
    if decide (node_id ∈ select_nodes_for_block ns block_id None) then Some block.1
    else None
  else None.

(** The bytes retrieved for a row hash to the row's checksum. *)
Definition valid_copy (st : state) (file : File.t) (r : FileBlock.t) : Prop :=
  ∃ data, retrieve_block st (FileBlock.node_id r) (File.file_id file)
            (FileBlock.block_id r) = Some data
          ∧ md5 data = FileBlock.checksum r.

(** A replica that the checksum loop of [reconstruct_file] accepts for a
    block: its bytes are retrieved, truthy, and hash to the replica row's
    own checksum. *)
Definition accepted (st : state) (file : File.t) (block_id : Z) (r : FileBlock.t)
    (data : bytes) : Prop :=
  retrieve_block st (FileBlock.node_id r) (File.file_id file) block_id = Some data
  ∧ data ≠ [] ∧ md5 data = FileBlock.checksum r.

(** Corruption is detectable: bytes retrieved for a row of the file that
    hash to the row's checksum are the bytes of the block that was split
    off the file (no other retrievable bytes collide with them under
    [md5]). *)
Definition corruption_detectable (st : state) (file : File.t)
    (blocks_data : list (bytes * string)) : Prop :=
  ∀ r data block,
    r ∈ rows_of (db st) file →
    retrieve_block st (FileBlock.node_id r) (File.file_id file)
      (FileBlock.block_id r) = Some data →
    md5 data = FileBlock.checksum r →
    blocks_data !! Z.to_nat (FileBlock.block_id r) = Some block →
    data = block.1.

End Vocabulary.

(** ** Vocabulary of the further properties *)

(** No character of the string is an underscore. *)
Fixpoint underscore_free (s : string) : Prop :=
  match s with
  | EmptyString => True
  | String a s => String a EmptyString ≠ "_" ∧ underscore_free s
  end.

Section StorageVocabulary.
Context `{Hashlib} `{VirtualDiskManager}.

(** The registry after each node's counter grew by the bytes of the rows
    of [rows] assigned to it *)
Definition credit (rows : list FileBlock.t) (ns : dict.t StorageVirtualNode.t)
    : dict.t StorageVirtualNode.t :=
  (λ kv, (kv.1, StorageVirtualNode.set_used_storage
                  (λ used, used + assigned_bytes rows kv.1) kv.2)) <$> ns.

(** The registry after each node's counter shrank by those bytes *)
Definition debit (rows : list FileBlock.t) (ns : dict.t StorageVirtualNode.t)
    : dict.t StorageVirtualNode.t :=
  (λ kv, (kv.1, StorageVirtualNode.set_used_storage
                  (λ used, used - assigned_bytes rows kv.1) kv.2)) <$> ns.

(** The [data_path] of a row names the block of the file that the row
    describes: the key of the node's virtual disk or the block file in the
    node's directory. *)
Definition well_named (file : File.t) (r : FileBlock.t) : Prop :=
  FileBlock.data_path r =
    Some (VDisk (FileBlock.node_id r)
            (block_identifier (File.file_id file) (FileBlock.block_id r)))
  ∨ FileBlock.data_path r =
    Some (BlockFile (FileBlock.node_id r)
            (block_filename (File.file_id file) (FileBlock.block_id r))).

(** The rows of a file carry the paths that [store_block] answers for the
    blocks of that file. *)
Definition paths_named (st : state) (file : File.t) : Prop :=
  ∀ r, r ∈ rows_of (db st) file → well_named file r.

(** The bytes passed a checksum comparison of [reconstruct_file] for the
    primary row [block]: they were retrieved from the node of the primary row
    or of one of its replica rows, and hash to the checksum of the primary row
    or to the checksum of the row whose node gave them. *)
Definition verified (st : state) (file : File.t) (block : FileBlock.t) (data : bytes)
    : Prop :=
  ∃ r, r ∈ block :: query_replicas (db st) file (FileBlock.block_id block)
       ∧ retrieve_block st (FileBlock.node_id r) (File.file_id file)
           (FileBlock.block_id block) = Some data
       ∧ (md5 data = FileBlock.checksum block ∨ md5 data = FileBlock.checksum r).

(** Every node is registered under its own [node_id]. *)
Definition registry_keyed (ns : dict.t StorageVirtualNode.t) : Prop :=
  ∀ k node, (k, node) ∈ ns → StorageVirtualNode.node_id node = k.

(** A row as [distribute_file_blocks] adds them for a file: it refers to
    the file, its size is a byte count, and its path names the block. *)
Definition added_for (file : File.t) (r : FileBlock.t) : Prop :=
  FileBlock.file_id r = File.id file ∧ 0 ≤ FileBlock.block_size r ∧ well_named file r.

(** With the virtual disks off, what a run of [place_copy] steps for a
    file does to the storage between [st] and [st']: the rows [new] are
    added, each with the path of a block file, the files at these paths are
    the only ones written, and no directory is created or removed. *)
Definition written_as_files (file : File.t) (st st' : state) (new : list FileBlock.t)
    : Prop :=
  use_virtual_disk st' = false
  ∧ vdisk_manager st' = vdisk_manager st
  ∧ dict.keys (nodes st') = dict.keys (nodes st)
  ∧ db st' = db st ++ new
  ∧ Forall (λ r, FileBlock.data_path r =
                   Some (BlockFile (FileBlock.node_id r)
                           (block_filename (File.file_id file) (FileBlock.block_id r))))
      new
  ∧ (∀ node_id filename,
       Some (BlockFile node_id filename) ∉ FileBlock.data_path <$> new →
       read_file (blocks_dir st') node_id filename =
       read_file (blocks_dir st) node_id filename)
  ∧ (∀ node_id,
       is_Some (blocks_dir st' !! node_id) ↔ is_Some (blocks_dir st !! node_id)).

End StorageVocabulary.

Section RouteVocabulary.
Context `{Hashlib} `{VirtualDiskManager} `{Werkzeug}.

(** No two rows of the [File] table share the key [id] or the UUID
    [file_id]. *)
Definition table_keyed (rows : list FileRow.t) : Prop :=
  ∀ row1 row2, row1 ∈ rows → row2 ∈ rows →
    File.id (FileRow.file row1) = File.id (FileRow.file row2)
    ∨ File.file_id (FileRow.file row1) = File.file_id (FileRow.file row2) →
    row1 = row2.

(** Neither the key nor the UUID is in use in the [File] table. *)
Definition fresh_key (a : app) (uuid4 : string) (id : Z) : Prop :=
  ∀ row, row ∈ files a →
    File.id (FileRow.file row) ≠ id ∧ File.file_id (FileRow.file row) ≠ uuid4.

(** A request to one of the routes, with what it carries *)
Inductive request :=
  | UploadFile (user : User.t) (file : option FileStorage.t) (uuid4 : string) (id : Z)
  | DownloadFile (user : User.t) (file_id : string)
  | DeleteFile (user : User.t) (file_id : string)
  | CleanupFile (file_id : string)
  | ExtendNode (node_id : string) (additional_storage_gb : Z)
  | DeleteNode (node_id : string).

(** The state a request leaves *)
Definition serve (a : app) (req : request) : app :=
  match req with
  | UploadFile user file uuid4 id => (upload_file a user file uuid4 id).2
  | DownloadFile user file_id => (download_file a user file_id).2
  | DeleteFile user file_id => (delete_file a user file_id).2
  | CleanupFile file_id => cleanup_file a file_id
  | ExtendNode node_id additional_storage_gb =>
      set_block_manager (λ st, (extend_node st node_id additional_storage_gb).2) a
  | DeleteNode node_id => set_block_manager (λ st, (delete_node st node_id).2) a
  end.

(** The tables agree: the [File] table is keyed, every node is registered
    under its own id, every block row has a positive size, belongs to a row of
    the [File] table and carries the name of a block of that file, every
    counter is the sum of the sizes of the rows assigned to its node, and
    every registered node has its directory. *)
Definition app_wf (a : app) : Prop :=
  table_keyed (files a)
  ∧ registry_keyed (nodes (block_manager a))
  ∧ (∀ r, r ∈ db (block_manager a) →
       0 < FileBlock.block_size r
       ∧ ∃ row, row ∈ files a
                ∧ File.id (FileRow.file row) = FileBlock.file_id r
                ∧ well_named (FileRow.file row) r)
  ∧ (∀ k node, (k, node) ∈ nodes (block_manager a) →
       StorageVirtualNode.used_storage node = assigned_bytes (db (block_manager a)) k)
  ∧ directories_exist (block_manager a).

(** Every upload of the sequence comes with a key and a UUID that are not
    in use when it is served. *)
Fixpoint fresh_uploads (a : app) (reqs : list request) : Prop :=
  match reqs with
  | [] => True
  | req :: reqs =>
      match req with
      | UploadFile _ _ uuid4 id => fresh_key a uuid4 id
      | _ => True
      end
      ∧ fresh_uploads (serve a req) reqs
  end.

(** No request of the sequence is a deletion of the file of the row by
    its owner. *)
Definition spares (row : FileRow.t) (reqs : list request) : Prop :=
  ∀ user file_id, DeleteFile user file_id ∈ reqs →
    file_id = File.file_id (FileRow.file row) → User.id user ≠ FileRow.user_id row.

End RouteVocabulary.

(** ** Sample states *)

Definition sample_node (node_id : string) (total used : Z) : StorageVirtualNode.t :=
  StorageVirtualNode.mk node_id 4 16 1000 total used ∅.

(** Two empty nodes; the first has a virtual disk, the second has none, so
    that its blocks go to block files. *)
Definition two_nodes (total1 total2 : Z) : @state spec_virtual_disks :=
  State [("node1", sample_node "node1" total1 0);
         ("node2", sample_node "node2" total2 0)]
        true
        {["node1" := VirtualDisk.mk total1 0 ∅]}
        {["node1" := ∅; "node2" := ∅]}
        [].

Definition sample_file : File.t := File.mk 1 "f1".

Definition sample_bytes : bytes := [Byte.x68; Byte.x69].

(** The sample file distributed over two nodes of 100 bytes each: the
    primary of its one block is on the virtual disk of [node1], the replica
    in a block file of [node2]. *)
Definition sample_stored : @state spec_virtual_disks :=
  (distribute_file_blocks (H := sample_digest) (two_nodes 100 100)
     sample_bytes sample_file).2.

(** The same, after the bytes of the primary were altered on the disk *)
Definition sample_corrupted : @state spec_virtual_disks :=
  set_vdisk_manager
    {["node1" := VirtualDisk.mk 100 2 {["f1_block_0" := [Byte.x00; Byte.x00]]}]}
    sample_stored.

(** The same, after the block file of the replica was lost as well *)
Definition sample_lost : @state spec_virtual_disks :=
  set_blocks_dir (λ _, ∅) sample_corrupted.

(** A small node next to a large one: 1 byte and 100 bytes *)
Definition uneven_nodes : @state spec_virtual_disks := two_nodes 1 100.

(** The two sample nodes with the virtual disks switched off *)
Definition file_nodes : @state spec_virtual_disks :=
  State (nodes (two_nodes 100 100)) false ∅ {["node1" := ∅; "node2" := ∅]} [].

(** The same nodes with the directory of [node2] missing *)
Definition missing_directory : @state spec_virtual_disks :=
  State (nodes (two_nodes 100 100)) false ∅ {["node1" := ∅]} [].

(** A second file, stored after the sample file *)
Definition other_file : File.t := File.mk 2 "f2".

Definition other_bytes : bytes := [Byte.x79; Byte.x6f].

Definition both_stored : @state spec_virtual_disks :=
  (distribute_file_blocks (H := sample_digest) sample_stored other_bytes other_file).2.

(** A [secure_filename] that keeps the name as it is *)
Definition sample_secure_filename : Werkzeug := λ filename, filename.

Definition sample_user : User.t := User.mk 7 (λ _, true).

Definition other_user : User.t := User.mk 8 (λ _, true).

Definition sample_upload : FileStorage.t := FileStorage.mk "hi.txt" "text/plain" sample_bytes.

Definition other_upload : FileStorage.t := FileStorage.mk "yo.txt" "text/plain" other_bytes.

(** No file yet, on the two sample nodes *)
Definition empty_app (total : Z) : @app spec_virtual_disks := App (two_nodes total total) [] ∅.

(** After the sample user uploaded the sample file *)
Definition sample_app : @app spec_virtual_disks :=
  (upload_file (H := sample_digest) (H1 := sample_secure_filename)
     (empty_app 100) sample_user (Some sample_upload) "f1" 1).2.

Definition sample_row : FileRow.t := FileRow.mk sample_file "hi.txt" 2 "text/plain" 7.

(** What another user does afterwards, and an administrator *)
Definition sample_requests : list request :=
  [UploadFile other_user (Some other_upload) "f2" 2;
   DownloadFile other_user "f2";
   DeleteFile other_user "f2";
   DeleteFile other_user "f1";
   ExtendNode "node1" 1;
   DeleteNode "node2";
   CleanupFile "f2"].

(** * Properties *)

Section Properties.
Context `{Hashlib} `{VirtualDiskManager}.

(** ** The chunker *)

Lemma split_loop_nil n fuel : split_loop n fuel [] = [].
Proof. destruct fuel as [|fuel]; [done|]. simpl. by rewrite take_nil. Qed.

Lemma split_loop_step n fuel (f : bytes) :
  (0 < n)%nat → f ≠ [] →
  split_loop n (S fuel) f = (take n f, md5 (take n f)) :: split_loop n fuel (drop n f).
Proof.
  intros Hn Hf. simpl.
  destruct f as [|x f]; [done|]. destruct n as [|n]; [lia|]. done.
Qed.

(** The fuel handed to the loop by [split_file_into_blocks] is never used
    up: more fuel gives the same blocks. *)
Lemma split_loop_fuel n fuel fuel' (f : bytes) :
  (0 < n)%nat → (length f < fuel)%nat → (length f < fuel')%nat →
  split_loop n fuel f = split_loop n fuel' f.
Proof.
  intros Hn. revert fuel' f.
  induction fuel as [|fuel IH]; intros fuel' f Hlen Hlen'; [lia|].
  destruct fuel' as [|fuel']; [lia|].
  destruct (decide (f = [])) as [->|Hf]; [by rewrite !split_loop_nil|].
  rewrite !split_loop_step by done. f_equal.
  assert (length (drop n f) < length f)%nat.
  { rewrite length_drop. destruct f; [done|]. simpl. lia. }
  apply IH; lia.
Qed.

Lemma split_loop_concat n fuel (f : bytes) :
  (0 < n)%nat → (length f < fuel)%nat →
  concat (split_loop n fuel f).*1 = f.
Proof.
  intros Hn. revert f. induction fuel as [|fuel IH]; intros f Hlen; [lia|].
  destruct (decide (f = [])) as [->|Hf]; [by rewrite split_loop_nil|].
  rewrite split_loop_step by done. cbn [fmap list_fmap fst concat].
  change (list_fmap _ _ fst ?l) with (l.*1).
  rewrite IH; [apply take_drop|].
  rewrite length_drop. destruct f; [done|]. simpl in *. lia.
Qed.

Lemma split_loop_blocks n fuel (f : bytes) i b c :
  (0 < n)%nat →
  split_loop n fuel f !! i = Some (b, c) →
  c = md5 b ∧ b ≠ [] ∧ (length b ≤ n)%nat
  ∧ (is_Some (split_loop n fuel f !! S i) → length b = n).
Proof.
  intros Hn. revert f i. induction fuel as [|fuel IH]; intros f i Hi; [done|].
  destruct (decide (f = [])) as [->|Hf]; [by rewrite split_loop_nil in Hi|].
  rewrite split_loop_step in Hi |- * by done.
  destruct i as [|i]; [|by apply (IH (drop n f) i)].
  simpl in Hi. injection Hi as <- <-.
  split_and!; [done| |rewrite length_take; lia|].
  - destruct f; [done|]. destruct n; [lia|done].
  - simpl. intros [x Hx]. rewrite length_take.
    destruct (decide (n ≤ length f)%nat) as [|Hshort]; [lia|].
    rewrite drop_ge in Hx by lia. by rewrite split_loop_nil in Hx.
Qed.

Lemma block_size_nat : Z.of_nat (Z.to_nat BLOCK_SIZE) = 1048576.
Proof. rewrite Z2Nat.id; done. Qed.

Lemma block_size_pos : (0 < Z.to_nat BLOCK_SIZE)%nat.
Proof. apply Nat2Z.inj_lt. rewrite block_size_nat. done. Qed.

(** The block size enters the proofs as an arbitrary positive number. *)
Ltac abstract_block_size n Hn :=
  unfold split_file_into_blocks in *;
  pose proof block_size_pos as Hn;
  generalize dependent (Z.to_nat BLOCK_SIZE); intros n Hn.

Lemma split_file_concat (f : bytes) : concat (split_file_into_blocks f).*1 = f.
Proof. abstract_block_size n Hn. apply split_loop_concat; [done | lia]. Qed.

Lemma split_file_nonempty (f : bytes) :
  Forall (λ block, block.1 ≠ []) (split_file_into_blocks f).
Proof.
  abstract_block_size n Hn.
  apply Forall_lookup. intros i [b c] Hi.
  destruct (split_loop_blocks _ _ _ _ _ _ Hn Hi) as (_ & Hb & _). exact Hb.
Qed.

Lemma split_file_checksums (f : bytes) :
  Forall (λ block, block.2 = md5 block.1) (split_file_into_blocks f).
Proof.
  abstract_block_size n Hn.
  apply Forall_lookup. intros i [b c] Hi.
  destruct (split_loop_blocks _ _ _ _ _ _ Hn Hi) as (Hc & _). exact Hc.
Qed.

Lemma split_file_nil_iff (f : bytes) : split_file_into_blocks f = [] ↔ f = [].
Proof.
  split; [|intros ->; apply split_loop_nil].
  intros Hs. pose proof (split_file_concat f) as Hc. rewrite Hs in Hc.
  symmetry. exact Hc.
Qed.

Lemma sum_app l1 l2 : sum (l1 ++ l2) = sum l1 + sum l2.
Proof. induction l1 as [|x l1 IH]; simpl; [done|]. unfold sum in *. simpl. lia. Qed.

Lemma len_zero_iff {A} (l : list A) : len l = 0 ↔ l = [].
Proof. unfold len. destruct l; simpl; split; intros; (done || lia). Qed.

Lemma len_cons {A} (x : A) (l : list A) : len (x :: l) = 1 + len l.
Proof. unfold len. simpl length. lia. Qed.

Lemma len_app {A} (l1 l2 : list A) : len (l1 ++ l2) = len l1 + len l2.
Proof. unfold len. rewrite length_app. lia. Qed.

Lemma sum_block_sizes (blocks : list (bytes * string)) :
  sum ((λ block, len block.1) <$> blocks) = len (concat blocks.*1).
Proof.
  induction blocks as [|[b c] blocks IH]; [done|].
  cbn [fmap list_fmap fst concat]. change (list_fmap _ _ fst ?l) with (l.*1).
  rewrite len_app, <- IH. done.
Qed.

Lemma distribute_empty_input (st : state) (file : File.t) :
  distribute_file_blocks st [] file = (Returns false, st).
Proof. done. Qed.

(** C8. Chunker contract: [split_file_into_blocks] answers the blocks in
    file order, each paired with the digest of its own bytes; no block is
    empty, none is longer than 1 MiB (1048576 bytes), every block that is
    followed by another one has exactly that size, and the blocks
    concatenated are the input. A zero-length input gives no block, and
    [distribute_file_blocks] answers [False] for it, leaving the state as it
    was. *)
Theorem chunker_contract (file_contents : bytes) :
  (∀ i block_data checksum,
     split_file_into_blocks file_contents !! i = Some (block_data, checksum) →
     checksum = md5 block_data
     ∧ block_data ≠ []
     ∧ len block_data ≤ 1048576
     ∧ (is_Some (split_file_into_blocks file_contents !! S i) →
        len block_data = 1048576))
  ∧ concat (split_file_into_blocks file_contents).*1 = file_contents
  ∧ split_file_into_blocks [] = []
  ∧ BLOCK_SIZE = 1048576
  ∧ ∀ st file, distribute_file_blocks st [] file = (Returns false, st).
Proof.
  split_and!; [|apply split_file_concat|apply split_loop_nil|done|done].
  intros i block_data checksum Hi. unfold len. rewrite <- block_size_nat.
  revert Hi. abstract_block_size n Hn. intros Hi.
  destruct (split_loop_blocks _ _ _ _ _ _ Hn Hi) as (Hc & Hb & Hle & Hfull).
  split_and!; [done|done|lia|]. intros Hnext. f_equal. by apply Hfull.
Qed.

(** ** Node selection *)

Lemma select_nodes_unfold ns block_id num_replicas :
  dict.keys ns ≠ [] →
  select_nodes_for_block ns block_id num_replicas =
  (λ i, default EmptyString
          (dict.keys ns !! Z.to_nat ((block_id + i) `mod` len (dict.keys ns))))
  <$> seqZ 0 (default REPLICATION_FACTOR num_replicas `min` len (dict.keys ns)).
Proof.
  intros Hne. unfold select_nodes_for_block.
  destruct (decide _) as [Hz|]; [|done].
  destruct (dict.keys ns); [done|]. unfold len in Hz. simpl in Hz. lia.
Qed.

Lemma select_nodes_length ns block_id num_replicas :
  dict.keys ns ≠ [] →
  len (select_nodes_for_block ns block_id num_replicas) =
  0 `max` (default REPLICATION_FACTOR num_replicas `min` len (dict.keys ns)).
Proof.
  intros Hne. rewrite select_nodes_unfold by done.
  unfold len. rewrite length_fmap, length_seqZ. lia.
Qed.

Lemma select_nodes_lookup ns block_id num_replicas j :
  0 ≤ j < default REPLICATION_FACTOR num_replicas `min` len (dict.keys ns) →
  select_nodes_for_block ns block_id num_replicas !! Z.to_nat j =
  dict.keys ns !! Z.to_nat ((block_id + j) `mod` len (dict.keys ns)).
Proof.
  intros Hj.
  assert (dict.keys ns ≠ []) as Hne.
  { intros Hnil. rewrite Hnil in Hj. unfold len in Hj. simpl in Hj. lia. }
  rewrite select_nodes_unfold by done.
  destruct Hj as [Hj0 Hj].
  rewrite list_lookup_fmap, lookup_seqZ_lt by (by rewrite Z2Nat.id). simpl.
  rewrite Z2Nat.id, Z.add_0_l by done.
  assert (0 ≤ (block_id + j) `mod` len (dict.keys ns) < len (dict.keys ns)) as Hidx.
  { apply Z.mod_pos_bound. clear Hne. lia. }
  destruct (lookup_lt_is_Some_2 (dict.keys ns)
              (Z.to_nat ((block_id + j) `mod` len (dict.keys ns)))) as [k Hk].
  { unfold len in *. clear Hne. lia. }
  by rewrite Hk.
Qed.

Lemma select_nodes_nil_iff ns block_id num_replicas :
  1 ≤ default REPLICATION_FACTOR num_replicas →
  select_nodes_for_block ns block_id num_replicas = [] ↔ dict.keys ns = [].
Proof.
  intros HR. split.
  - intros Hsel. destruct (decide (dict.keys ns = [])) as [|Hne]; [done|].
    pose proof (select_nodes_length ns block_id num_replicas Hne) as Hlen.
    rewrite Hsel in Hlen. destruct (dict.keys ns); [done|].
    unfold len in Hlen. simpl in Hlen. lia.
  - intros Hnil. unfold select_nodes_for_block. rewrite Hnil. done.
Qed.

(** C5. Round-robin placement: with [n ≥ 1] nodes in the registry, listed
    in its insertion order, the selection for block index [i] and
    replication factor [R] has [min(R, n)] entries (none when [R ≤ 0]), the
    entry at position [j] being the node at position [(i + j) mod n] of the
    list, so that for [R ≥ 1] the first entry (the primary) is the node at
    position [i mod n]. With no node the selection is empty; and for
    [R ≥ 1], the replication factors that [distribute_file_blocks] works
    with, the selection is empty only if there is no node. [R] is the
    argument [num_replicas], or [REPLICATION_FACTOR] when it is left out. *)
Theorem round_robin_placement ns block_id num_replicas :
  let R := default REPLICATION_FACTOR num_replicas in
  let n := len (dict.keys ns) in
  let selected := select_nodes_for_block ns block_id num_replicas in
  (1 ≤ n →
     len selected = 0 `max` (R `min` n)
     ∧ (∀ j, 0 ≤ j < R `min` n →
          selected !! Z.to_nat j = dict.keys ns !! Z.to_nat ((block_id + j) `mod` n)
          ∧ is_Some (selected !! Z.to_nat j))
     ∧ (1 ≤ R → head selected = dict.keys ns !! Z.to_nat (block_id `mod` n)))
  ∧ (n = 0 → selected = [])
  ∧ (1 ≤ R → selected = [] → n = 0).
Proof.
  intros R n selected. split_and!.
  - intros Hn.
    assert (dict.keys ns ≠ []) as Hne.
    { intros Hnil. unfold n in Hn. rewrite Hnil in Hn. done. }
    split_and!.
    + unfold selected. by rewrite select_nodes_length.
    + intros j Hj.
      pose proof (select_nodes_length ns block_id num_replicas Hne) as Hlen.
      split; [by apply select_nodes_lookup|].
      apply lookup_lt_is_Some_2. fold R n in Hlen. unfold len in Hlen at 1.
      fold selected in Hlen. clear Hne. lia.
    + intros HR. rewrite head_lookup. change 0%nat with (Z.to_nat 0).
      unfold selected. rewrite select_nodes_lookup by (fold R n; lia).
      by rewrite Z.add_0_r.
  - intros Hn. unfold selected, select_nodes_for_block. fold n.
    by rewrite decide_True.
  - intros HR Hsel. apply select_nodes_nil_iff in Hsel; [|done].
    unfold n. by rewrite Hsel.
Qed.

(** ** What storing a copy touches *)

Lemma keys_update {V} (f : V → V) k (d : dict.t V) :
  dict.keys (dict.update f k d) = dict.keys d.
Proof.
  unfold dict.keys, dict.update. rewrite <- list_fmap_compose.
  apply list_fmap_ext. intros i [k' v] _. simpl. case_decide; reflexivity.
Qed.

Lemma store_block_nodes st data node_id file_id block_id :
  nodes (store_block st data node_id file_id block_id).2 = nodes st.
Proof.
  unfold store_block. destruct (use_virtual_disk st); simpl.
  - destruct (store_block_in_disk _ _ _ _) as [[] d]; simpl; [done|].
    by destruct (write_file _ _ _ _).
  - by destruct (write_file _ _ _ _).
Qed.

Lemma store_block_db st data node_id file_id block_id :
  db (store_block st data node_id file_id block_id).2 = db st.
Proof.
  unfold store_block. destruct (use_virtual_disk st); simpl.
  - destruct (store_block_in_disk _ _ _ _) as [[] d]; simpl; [done|].
    by destruct (write_file _ _ _ _).
  - by destruct (write_file _ _ _ _).
Qed.

Lemma store_block_flag st data node_id file_id block_id :
  use_virtual_disk (store_block st data node_id file_id block_id).2 = use_virtual_disk st.
Proof.
  unfold store_block. destruct (use_virtual_disk st) eqn:Hflag; simpl.
  - destruct (store_block_in_disk _ _ _ _) as [[] d]; simpl; [done|].
    by destruct (write_file _ _ _ _).
  - by destruct (write_file _ _ _ _).
Qed.

(** The two ways in which placing a copy ends: [store_block] answered a
    path, and the row and the counter followed; or [store_block] raised, and
    the state is the one it left. *)
Lemma place_copy_returns file block_id data checksum replica st node_id st' :
  place_copy file block_id data checksum replica st node_id = (Returns (), st') →
  ∃ path st1,
    store_block st data node_id (File.file_id file) block_id = (Returns path, st1)
    ∧ st' =
      set_nodes
        (dict.update (StorageVirtualNode.set_used_storage (λ used, used + len data))
           node_id)
        (set_db
           (λ rows, rows ++
              [FileBlock.mk block_id (File.id file) node_id (len data) checksum replica
                 (if replica then Some block_id else None) (Some path)])
           st1).
Proof.
  unfold place_copy. destruct (store_block _ _ _ _ _) as [[path|] st1]; [|done].
  intros [= <-]. by exists path, st1.
Qed.

Lemma place_copy_raises file block_id data checksum replica st node_id st' :
  place_copy file block_id data checksum replica st node_id = (FileNotFoundError, st') →
  store_block st data node_id (File.file_id file) block_id = (FileNotFoundError, st').
Proof.
  unfold place_copy. destruct (store_block _ _ _ _ _) as [[path|] st1]; [done|].
  by intros [= <-].
Qed.

Lemma place_copy_nodes file block_id data checksum replica st node_id st' :
  place_copy file block_id data checksum replica st node_id = (Returns (), st') →
  nodes st' =
  dict.update (StorageVirtualNode.set_used_storage (λ used, used + len data))
    node_id (nodes st).
Proof.
  intros (path & st1 & Hstore & ->)%place_copy_returns.
  pose proof (store_block_nodes st data node_id (File.file_id file) block_id) as Hn.
  rewrite Hstore in Hn. simpl in *. by rewrite Hn.
Qed.

Lemma place_copy_db file block_id data checksum replica st node_id st' :
  place_copy file block_id data checksum replica st node_id = (Returns (), st') →
  ∃ path,
    (store_block st data node_id (File.file_id file) block_id).1 = Returns path
    ∧ db st' =
      db st ++
      [FileBlock.mk block_id (File.id file) node_id (len data) checksum replica
         (if replica then Some block_id else None) (Some path)].
Proof.
  intros (path & st1 & Hstore & ->)%place_copy_returns.
  pose proof (store_block_db st data node_id (File.file_id file) block_id) as Hd.
  rewrite Hstore in *. simpl in *. exists path. by rewrite Hd.
Qed.

Lemma place_copy_raised file block_id data checksum replica st node_id st' :
  place_copy file block_id data checksum replica st node_id = (FileNotFoundError, st') →
  nodes st' = nodes st ∧ db st' = db st.
Proof.
  intros Hstore%place_copy_raises.
  pose proof (store_block_nodes st data node_id (File.file_id file) block_id) as Hn.
  pose proof (store_block_db st data node_id (File.file_id file) block_id) as Hd.
  rewrite Hstore in *. done.
Qed.

Lemma place_copy_keys file block_id data checksum replica st node_id :
  dict.keys (nodes (place_copy file block_id data checksum replica st node_id).2) =
  dict.keys (nodes st).
Proof.
  destruct (place_copy _ _ _ _ _ _ _) as [[[]|] st'] eqn:Hcopy; simpl.
  - by rewrite (place_copy_nodes _ _ _ _ _ _ _ _ Hcopy), keys_update.
  - by destruct (place_copy_raised _ _ _ _ _ _ _ _ Hcopy) as [-> _].
Qed.

Lemma place_replicas_keys file block_id data checksum node_ids st :
  dict.keys (nodes (place_replicas file block_id data checksum st node_ids).2) =
  dict.keys (nodes st).
Proof.
  revert st. induction node_ids as [|n node_ids IH]; intros st; [done|].
  simpl. pose proof (place_copy_keys file block_id data checksum true st n) as Hkeys.
  destruct (place_copy _ _ _ _ _ _ _) as [[[]|] st1]; simpl in *; [|done].
  by rewrite IH.
Qed.

(** The loop over the blocks keeps the keys of the registry, however it
    ends. *)
Lemma distribute_loop_keys file block_id blocks_data st :
  dict.keys (nodes (distribute_loop file block_id blocks_data st).2) =
  dict.keys (nodes st).
Proof.
  revert block_id st.
  induction blocks_data as [|[data checksum] blocks_data IH]; intros block_id st; [done|].
  simpl. destruct (select_nodes_for_block _ _ _) as [|primary replicas]; [done|].
  pose proof (place_copy_keys file block_id data checksum false st primary) as Hkeys.
  destruct (place_copy _ _ _ _ _ _ _) as [[[]|] st1]; simpl in *; [|done].
  pose proof (place_replicas_keys file block_id data checksum replicas st1) as Hkeys'.
  destruct (place_replicas _ _ _ _ _ _) as [[[]|] st2]; simpl in *; [|congruence].
  rewrite IH. congruence.
Qed.

(** ** Where a block file can be written *)

Lemma select_nodes_elem ns block_id num_replicas node_id :
  node_id ∈ select_nodes_for_block ns block_id num_replicas → node_id ∈ dict.keys ns.
Proof.
  intros Hin. apply list_elem_of_lookup in Hin as [j Hj].
  assert (dict.keys ns ≠ []) as Hne.
  { intros Hnil. unfold select_nodes_for_block in Hj. rewrite Hnil in Hj. done. }
  pose proof (lookup_lt_Some _ _ _ Hj) as Hlt.
  pose proof (select_nodes_length ns block_id num_replicas Hne) as Hlen.
  rewrite <- (Nat2Z.id j) in Hj. rewrite select_nodes_lookup in Hj.
  - by apply list_elem_of_lookup_2 in Hj.
  - unfold len in *. clear Hne Hj. lia.
Qed.

Lemma write_file_dirs node_id filename data (fs fs' : gmap string (gmap string bytes)) k :
  write_file node_id filename data fs = Some fs' →
  is_Some (fs' !! k) ↔ is_Some (fs !! k).
Proof.
  unfold write_file. destruct (fs !! node_id) as [dir|] eqn:Hdir; [|done].
  simpl. intros [= <-]. destruct (decide (k = node_id)) as [->|Hk].
  - rewrite lookup_insert_eq, Hdir. split; eauto.
  - by rewrite lookup_insert_ne.
Qed.

Lemma write_file_is_Some node_id filename data (fs : gmap string (gmap string bytes)) :
  is_Some (write_file node_id filename data fs) ↔ is_Some (fs !! node_id).
Proof.
  unfold write_file. destruct (fs !! node_id) as [dir|]; simpl; [|done].
  split; eauto.
Qed.

(** Storing a block creates no directory and removes none. *)
Lemma store_block_dirs st data node_id file_id block_id k :
  is_Some (blocks_dir (store_block st data node_id file_id block_id).2 !! k)
  ↔ is_Some (blocks_dir st !! k).
Proof.
  unfold store_block.
  set (try_disk := if use_virtual_disk st then _ else _).
  assert (blocks_dir try_disk.2 = blocks_dir st) as Hfs.
  { unfold try_disk. destruct (use_virtual_disk st); [|done].
    by destruct (store_block_in_disk _ _ _ _) as [ok d]. }
  destruct (try_disk.1); simpl; [by rewrite Hfs|].
  destruct (write_file _ _ _ _) as [fs|] eqn:Hwrite; simpl; [|by rewrite Hfs].
  rewrite <- Hfs. by eapply write_file_dirs.
Qed.

(** [store_block] returns when the node has its directory. *)
Lemma store_block_returns st data node_id file_id block_id :
  is_Some (blocks_dir st !! node_id) →
  ∃ path, (store_block st data node_id file_id block_id).1 = Returns path.
Proof.
  intros Hdir. unfold store_block.
  set (try_disk := if use_virtual_disk st then _ else _).
  assert (blocks_dir try_disk.2 = blocks_dir st) as Hfs.
  { unfold try_disk. destruct (use_virtual_disk st); [|done].
    by destruct (store_block_in_disk _ _ _ _) as [ok d]. }
  destruct (try_disk.1); simpl; [by eexists|].
  rewrite Hfs. apply (write_file_is_Some node_id (block_filename file_id block_id) data)
    in Hdir as [fs ->].
  by eexists.
Qed.

Lemma place_copy_dirs file block_id data checksum replica st node_id k :
  is_Some (blocks_dir (place_copy file block_id data checksum replica st node_id).2 !! k)
  ↔ is_Some (blocks_dir st !! k).
Proof.
  rewrite <- (store_block_dirs st data node_id (File.file_id file) block_id k).
  unfold place_copy. by destruct (store_block _ _ _ _ _) as [[path|] st1].
Qed.

Lemma place_copy_completes file block_id data checksum replica st node_id :
  is_Some (blocks_dir st !! node_id) →
  (place_copy file block_id data checksum replica st node_id).1 = Returns ().
Proof.
  intros [path Hstore]%(store_block_returns st data node_id (File.file_id file) block_id).
  unfold place_copy. destruct (store_block _ _ _ _ _) as [[path'|] st1]; done.
Qed.

Lemma place_replicas_dirs file block_id data checksum node_ids st k :
  is_Some (blocks_dir (place_replicas file block_id data checksum st node_ids).2 !! k)
  ↔ is_Some (blocks_dir st !! k).
Proof.
  revert st. induction node_ids as [|n node_ids IH]; intros st; [done|].
  simpl. pose proof (place_copy_dirs file block_id data checksum true st n k) as Hdirs.
  destruct (place_copy _ _ _ _ _ _ _) as [[[]|] st1]; simpl in *; [|done].
  by rewrite IH.
Qed.

Lemma place_replicas_completes file block_id data checksum node_ids st :
  (∀ node_id, node_id ∈ node_ids → is_Some (blocks_dir st !! node_id)) →
  (place_replicas file block_id data checksum st node_ids).1 = Returns ().
Proof.
  revert st. induction node_ids as [|n node_ids IH]; intros st Hdirs; [done|].
  simpl.
  pose proof (place_copy_completes file block_id data checksum true st n) as Hcopy.
  pose proof (λ k, place_copy_dirs file block_id data checksum true st n k) as Hkeep.
  destruct (place_copy _ _ _ _ _ _ _) as [[[]|] st1]; simpl in *.
  - apply IH. intros k Hk. apply Hkeep, Hdirs. by right.
  - discriminate Hcopy. apply Hdirs. by left.
Qed.

Lemma distribute_loop_dirs file block_id blocks_data st k :
  is_Some (blocks_dir (distribute_loop file block_id blocks_data st).2 !! k)
  ↔ is_Some (blocks_dir st !! k).
Proof.
  revert block_id st.
  induction blocks_data as [|[data checksum] blocks_data IH]; intros block_id st; [done|].
  simpl. destruct (select_nodes_for_block _ _ _) as [|primary replicas]; [done|].
  pose proof (place_copy_dirs file block_id data checksum false st primary k) as Hdirs.
  destruct (place_copy _ _ _ _ _ _ _) as [[[]|] st1]; simpl in *; [|done].
  pose proof (place_replicas_dirs file block_id data checksum replicas st1 k) as Hdirs'.
  destruct (place_replicas _ _ _ _ _ _) as [[[]|] st2]; simpl in *; [|by rewrite Hdirs'].
  by rewrite IH, Hdirs'.
Qed.

(** ** The loop over the blocks never aborts on a non-empty registry *)

Lemma select_default_nonempty ns block_id :
  dict.keys ns ≠ [] → select_nodes_for_block ns block_id None ≠ [].
Proof. intros Hne Hsel. by apply select_nodes_nil_iff in Hsel. Qed.

(** On a non-empty registry the loop ends with the last block or with the
    exception of a [store_block] call. *)
Lemma distribute_loop_exit file block_id blocks_data st :
  dict.keys (nodes st) ≠ [] →
  (distribute_loop file block_id blocks_data st).1 = Committed
  ∨ (distribute_loop file block_id blocks_data st).1 = StoreBlockRaised.
Proof.
  revert block_id st.
  induction blocks_data as [|[data checksum] blocks_data IH]; intros block_id st Hne.
  { by left. }
  simpl. pose proof (select_default_nonempty _ block_id Hne) as Hsel.
  destruct (select_nodes_for_block _ _ _) as [|primary replicas]; [done|].
  pose proof (place_copy_keys file block_id data checksum false st primary) as Hkeys.
  destruct (place_copy _ _ _ _ _ _ _) as [[[]|] st1]; simpl in *; [|by right].
  pose proof (place_replicas_keys file block_id data checksum replicas st1) as Hkeys'.
  destruct (place_replicas _ _ _ _ _ _) as [[[]|] st2]; simpl in *; [|by right].
  apply IH. congruence.
Qed.

(** On a non-empty registry whose nodes have their directories the loop
    ends with the last block. *)
Lemma distribute_loop_committed file block_id blocks_data st :
  dict.keys (nodes st) ≠ [] → directories_exist st →
  ∃ st', distribute_loop file block_id blocks_data st = (Committed, st')
         ∧ dict.keys (nodes st') = dict.keys (nodes st).
Proof.
  revert block_id st.
  induction blocks_data as [|[data checksum] blocks_data IH]; intros block_id st Hne Hdirs.
  { by exists st. }
  simpl. pose proof (select_default_nonempty _ block_id Hne) as Hsel.
  pose proof (select_nodes_elem (nodes st) block_id None) as Hreg.
  destruct (select_nodes_for_block _ _ _) as [|primary replicas]; [done|].
  pose proof (place_copy_keys file block_id data checksum false st primary) as Hkeys.
  pose proof (place_copy_completes file block_id data checksum false st primary) as Hcopy.
  pose proof (λ k, place_copy_dirs file block_id data checksum false st primary k) as Hkeep.
  destruct (place_copy _ _ _ _ _ _ _) as [[[]|] st1]; simpl in *.
  2:{ discriminate Hcopy. apply Hdirs, Hreg. by left. }
  pose proof (place_replicas_keys file block_id data checksum replicas st1) as Hkeys'.
  pose proof (place_replicas_completes file block_id data checksum replicas st1) as Hcopies.
  pose proof (λ k, place_replicas_dirs file block_id data checksum replicas st1 k) as Hkeep'.
  destruct (place_replicas _ _ _ _ _ _) as [[[]|] st2]; simpl in *.
  2:{ discriminate Hcopies. intros k Hk. apply Hkeep, Hdirs, Hreg. by right. }
  destruct (IH (block_id + 1) st2) as (st' & Hloop & Hkeys'').
  - congruence.
  - intros k Hk. apply Hkeep', Hkeep, Hdirs. congruence.
  - exists st'. split; [done|]. congruence.
Qed.

Lemma available_storage_nil : available_storage [] = 0.
Proof. done. Qed.

(** ** Usage accounting *)

Lemma elem_of_update {V} (f : V → V) key (d : dict.t V) k v' :
  (k, v') ∈ dict.update f key d ↔
  ∃ v, (k, v) ∈ d ∧ v' = if decide (k = key) then f v else v.
Proof.
  unfold dict.update. rewrite list_elem_of_fmap. split.
  - intros ([k0 v] & Heq & Hin). simpl in Heq. exists v.
    destruct (decide (k0 = key)) as [Hk|Hk]; injection Heq as -> ->.
    + by rewrite decide_True.
    + by rewrite decide_False.
  - intros (v & Hin & ->). exists (k, v). split; [|done]. simpl. by case_decide.
Qed.

Lemma assigned_bytes_app rows rows' node_id :
  assigned_bytes (rows ++ rows') node_id =
  assigned_bytes rows node_id + assigned_bytes rows' node_id.
Proof. unfold assigned_bytes. by rewrite filter_app, fmap_app, sum_app. Qed.

Lemma assigned_bytes_cons r rows node_id :
  assigned_bytes (r :: rows) node_id =
  (if decide (FileBlock.node_id r = node_id) then FileBlock.block_size r else 0)
  + assigned_bytes rows node_id.
Proof.
  unfold assigned_bytes. rewrite filter_cons. by case_decide.
Qed.

Lemma assigned_bytes_nonneg rows node_id :
  (∀ r, r ∈ rows → 0 ≤ FileBlock.block_size r) → 0 ≤ assigned_bytes rows node_id.
Proof.
  induction rows as [|r rows IH]; intros Hsz; [done|].
  rewrite assigned_bytes_cons.
  assert (0 ≤ FileBlock.block_size r) by (apply Hsz; left).
  assert (0 ≤ assigned_bytes rows node_id) by (apply IH; intros; apply Hsz; by right).
  case_decide; lia.
Qed.

Lemma assigned_bytes_split (P : FileBlock.t → Prop) `{∀ r, Decision (P r)} rows node_id :
  assigned_bytes rows node_id =
  assigned_bytes (filter (λ r, ¬ P r) rows) node_id
  + assigned_bytes (filter P rows) node_id.
Proof.
  induction rows as [|r rows IH]; [done|].
  rewrite !filter_cons. destruct (decide (P r)) as [HP|HP].
  - rewrite decide_False by tauto. rewrite !assigned_bytes_cons, IH. lia.
  - rewrite decide_True by done. rewrite !assigned_bytes_cons, IH. lia.
Qed.

Lemma len_nonneg {A} (l : list A) : 0 ≤ len l.
Proof. unfold len. lia. Qed.

Lemma place_copy_consistent file block_id data checksum replica st node_id :
  accounting_consistent st →
  accounting_consistent (place_copy file block_id data checksum replica st node_id).2.
Proof.
  intros [Hsz Hacc].
  destruct (place_copy _ _ _ _ _ _ _) as [[[]|] st'] eqn:Hcopy; simpl.
  2:{ destruct (place_copy_raised _ _ _ _ _ _ _ _ Hcopy) as [Hn Hd].
      split; [intros r|intros k node]; rewrite ?Hn, Hd; auto. }
  destruct (place_copy_db _ _ _ _ _ _ _ _ Hcopy) as (path & _ & Hdb).
  pose proof (place_copy_nodes _ _ _ _ _ _ _ _ Hcopy) as Hnodes.
  split.
  - intros r. rewrite Hdb, elem_of_app, list_elem_of_singleton.
    intros [Hr| ->]; [by apply Hsz | apply len_nonneg].
  - intros k node'. rewrite Hnodes, Hdb, elem_of_update.
    intros (node & Hin & ->). rewrite assigned_bytes_app, <- (Hacc _ _ Hin).
    rewrite assigned_bytes_cons. unfold assigned_bytes at 1. simpl.
    case_decide as Hk; subst.
    + rewrite decide_True by done. simpl. unfold sum. simpl. lia.
    + rewrite decide_False by done. unfold sum. simpl. lia.
Qed.

Lemma place_replicas_consistent file block_id data checksum node_ids st :
  accounting_consistent st →
  accounting_consistent (place_replicas file block_id data checksum st node_ids).2.
Proof.
  revert st. induction node_ids as [|n node_ids IH]; intros st Hst; [done|].
  simpl. pose proof (place_copy_consistent file block_id data checksum true st n Hst) as Hst'.
  destruct (place_copy _ _ _ _ _ _ _) as [[[]|] st1]; simpl in *; [|done].
  by apply IH.
Qed.

Lemma distribute_loop_consistent file block_id blocks_data st :
  accounting_consistent st →
  accounting_consistent (distribute_loop file block_id blocks_data st).2.
Proof.
  revert block_id st.
  induction blocks_data as [|[data checksum] blocks_data IH]; intros block_id st Hst; [done|].
  simpl. destruct (select_nodes_for_block _ _ _) as [|primary replicas]; [done|].
  pose proof (place_copy_consistent file block_id data checksum false st primary Hst) as Hst1.
  destruct (place_copy _ _ _ _ _ _ _) as [[[]|] st1]; simpl in *; [|done].
  pose proof (place_replicas_consistent file block_id data checksum replicas st1 Hst1) as Hst2.
  destruct (place_replicas _ _ _ _ _ _) as [[[]|] st2]; simpl in *; [|done].
  by apply IH.
Qed.

Lemma distribute_consistent st file_contents file :
  accounting_consistent st →
  accounting_consistent (distribute_file_blocks st file_contents file).2.
Proof.
  intros Hst. unfold distribute_file_blocks, distribute_file_blocks_exit.
  repeat case_decide; [done..|].
  pose proof (distribute_loop_consistent file 0 (split_file_into_blocks file_contents) st Hst).
  by destruct (distribute_loop _ _ _ _).
Qed.

Lemma delete_block_db st block : db (delete_block st block) = db st.
Proof. unfold delete_block. by case_match. Qed.

Lemma delete_block_nodes st block :
  nodes (delete_block st block) =
  if dict.mem (FileBlock.node_id block) (nodes st) then
    dict.update
      (StorageVirtualNode.set_used_storage
         (λ used, 0 `max` (used - FileBlock.block_size block)))
      (FileBlock.node_id block) (nodes st)
  else nodes st.
Proof. unfold delete_block. simpl. by case_match. Qed.

Lemma delete_blocks_db st blocks : db (foldl delete_block st blocks) = db st.
Proof.
  revert st. induction blocks as [|b blocks IH]; intros st; [done|].
  simpl. by rewrite IH, delete_block_db.
Qed.

(** While the rows of the file are walked, each counter is the bytes of the
    rows of other files plus the bytes of the rows still to be walked. *)
Lemma delete_blocks_accounting other blocks st :
  (∀ r, r ∈ other → 0 ≤ FileBlock.block_size r) →
  (∀ r, r ∈ blocks → 0 ≤ FileBlock.block_size r) →
  (∀ k node, (k, node) ∈ nodes st →
     StorageVirtualNode.used_storage node =
     assigned_bytes other k + assigned_bytes blocks k) →
  ∀ k node, (k, node) ∈ nodes (foldl delete_block st blocks) →
    StorageVirtualNode.used_storage node = assigned_bytes other k.
Proof.
  intros Hother. revert st.
  induction blocks as [|b blocks IH]; intros st Hblocks Hacc k node Hin.
  { rewrite (Hacc _ _ Hin). unfold assigned_bytes at 2. simpl. unfold sum. simpl. lia. }
  simpl in Hin. revert k node Hin. apply IH.
  { intros r Hr. apply Hblocks. by right. }
  intros k node. rewrite delete_block_nodes.
  assert (0 ≤ FileBlock.block_size b) as Hb by (apply Hblocks; left).
  assert (0 ≤ assigned_bytes other k) as Ho by by apply assigned_bytes_nonneg.
  assert (0 ≤ assigned_bytes blocks k) as Hr.
  { apply assigned_bytes_nonneg. intros r Hr. apply Hblocks. by right. }
  destruct (dict.mem _ _) eqn:Hmem.
  - rewrite elem_of_update. intros (node0 & Hin & ->).
    pose proof (Hacc _ _ Hin) as Hused. rewrite assigned_bytes_cons in Hused.
    destruct (decide (k = FileBlock.node_id b)) as [->|Hk].
    + rewrite decide_True in Hused by done. simpl. lia.
    + rewrite decide_False in Hused by done. lia.
  - intros Hin. pose proof (Hacc _ _ Hin) as Hused.
    rewrite assigned_bytes_cons in Hused.
    rewrite decide_False in Hused; [lia|].
    intros Hk. unfold dict.mem in Hmem. apply bool_decide_eq_false in Hmem.
    apply Hmem. unfold dict.keys. rewrite Hk.
    apply list_elem_of_fmap. by exists (k, node).
Qed.

Lemma delete_consistent st file :
  accounting_consistent st →
  accounting_consistent (delete_file_blocks st file).2.
Proof.
  intros [Hsz Hacc]. unfold delete_file_blocks, accounting_consistent. simpl.
  rewrite delete_blocks_db. split.
  - intros r Hr. apply list_elem_of_filter in Hr as [_ Hr]. by apply Hsz.
  - intros k node.
    apply delete_blocks_accounting.
    + intros r Hr. apply list_elem_of_filter in Hr as [_ Hr]. by apply Hsz.
    + intros r Hr. apply list_elem_of_filter in Hr as [_ Hr]. by apply Hsz.
    + intros k' node' Hin. rewrite (Hacc _ _ Hin).
      apply (assigned_bytes_split (λ r, FileBlock.file_id r = File.id file)).
Qed.

(** C6. Usage accounting invariant: started in a consistent state, any
    sequence of [distribute_file_blocks] and [delete_file_blocks] calls,
    whichever way each of them ends, ends in a consistent state, one in
    which every node's [used_storage] equals the sum of the sizes of the
    block rows (primary and replica) assigned to that node. *)
Theorem usage_accounting_invariant st ops :
  accounting_consistent st → accounting_consistent (run_operations st ops).
Proof.
  revert st. induction ops as [|op ops IH]; intros st Hst; [done|].
  simpl. apply IH. destruct op as [file_contents file|file]; simpl.
  - by apply distribute_consistent.
  - by apply delete_consistent.
Qed.

(** ** The capacity precheck *)

Lemma total_size_needed_split (file_contents : bytes) :
  total_size_needed (split_file_into_blocks file_contents) =
  len file_contents * REPLICATION_FACTOR.
Proof.
  unfold total_size_needed. by rewrite sum_block_sizes, split_file_concat.
Qed.

(** C2. Atomic precheck: when the bytes of the blocks times the replication
    factor exceed the free capacity summed over all nodes (the sum of
    [total_storage - used_storage]), [distribute_file_blocks] answers
    [False] and the state it leaves is the state it found: no block row, no
    stored byte on a virtual disk or in a block file, no [used_storage]
    counter has changed. *)
Theorem atomic_precheck st file_contents file :
  total_size_needed (split_file_into_blocks file_contents)
    > available_storage (nodes st) →
  distribute_file_blocks st file_contents file = (Returns false, st).
Proof.
  intros Hneed. unfold distribute_file_blocks, distribute_file_blocks_exit.
  case_decide; [done|]. by rewrite decide_True.
Qed.

(** With the directory of every registered node in place no [store_block]
    call raises, so the function returns. *)
Lemma distribute_returns st file_contents file :
  directories_exist st →
  ∃ ok, (distribute_file_blocks st file_contents file).1 = Returns ok.
Proof.
  intros Hdirs. unfold distribute_file_blocks, distribute_file_blocks_exit.
  generalize (split_file_into_blocks file_contents). intros blocks_data.
  case_decide; [by eexists|]. case_decide; [by eexists|].
  destruct (decide (dict.keys (nodes st) = [])) as [Hnil|Hne].
  - destruct blocks_data as [|[data checksum] blocks_data]; [by eexists|].
    simpl. unfold select_nodes_for_block. rewrite Hnil. by eexists.
  - destruct (distribute_loop_committed file 0 blocks_data st Hne Hdirs) as (st' & -> & _).
    by eexists.
Qed.

(** C10. Unreachable abort branch: for a non-empty input that passes the
    aggregate capacity precheck, the registry is not empty, node selection
    answers a non-empty list for every block index, and the loop over the
    blocks never leaves through the [return False] of the empty selection;
    the set of nodes is the same at the end as at the start. With the
    directory of every registered node in place, so that no [store_block]
    call raises, the function leaves through the final [return True]. *)
Theorem no_nodes_abort_unreachable st file_contents file :
  file_contents ≠ [] →
  total_size_needed (split_file_into_blocks file_contents)
    ≤ available_storage (nodes st) →
  dict.keys (nodes st) ≠ []
  ∧ (∀ block_id, select_nodes_for_block (nodes st) block_id None ≠ [])
  ∧ (distribute_file_blocks_exit st file_contents file).1 ≠ NoNodesAvailable
  ∧ dict.keys (nodes (distribute_file_blocks_exit st file_contents file).2)
    = dict.keys (nodes st)
  ∧ (directories_exist st →
     ∃ st', distribute_file_blocks_exit st file_contents file = (Committed, st')
            ∧ distribute_file_blocks st file_contents file = (Returns true, st')
            ∧ dict.keys (nodes st') = dict.keys (nodes st)).
Proof.
  intros Hdata Hfits. rewrite total_size_needed_split in Hfits.
  assert (dict.keys (nodes st) ≠ []) as Hnodes.
  { intros Hnil. destruct (nodes st) as [|kv ns] eqn:Hns; [|done].
    rewrite available_storage_nil in Hfits.
    destruct file_contents; [done|]. unfold len, REPLICATION_FACTOR in Hfits.
    simpl in Hfits. lia. }
  split; [done|]. split; [intros block_id; by apply select_default_nonempty|].
  unfold distribute_file_blocks, distribute_file_blocks_exit.
  rewrite decide_False.
  2:{ rewrite len_zero_iff, split_file_nil_iff. exact Hdata. }
  rewrite total_size_needed_split, decide_False by lia.
  split_and!.
  - by destruct (distribute_loop_exit file 0 (split_file_into_blocks file_contents)
                   st Hnodes) as [-> | ->].
  - apply distribute_loop_keys.
  - intros Hdirs.
    destruct (distribute_loop_committed file 0 (split_file_into_blocks file_contents)
                st Hnodes Hdirs) as (st' & Hloop & Hkeys).
    exists st'. by rewrite Hloop.
Qed.

(** ** Capacity after a distribution *)

Lemma available_storage_cons k node ns :
  available_storage ((k, node) :: ns) =
  StorageVirtualNode.total_storage node - StorageVirtualNode.used_storage node
  + available_storage ns.
Proof. done. Qed.

Lemma available_storage_balance ns :
  available_storage ns = total_capacity ns - total_used ns.
Proof.
  induction ns as [|[k node] ns IH]; [done|].
  rewrite available_storage_cons, IH.
  change (total_capacity ((k, node) :: ns))
    with (StorageVirtualNode.total_storage node + total_capacity ns).
  change (total_used ((k, node) :: ns))
    with (StorageVirtualNode.used_storage node + total_used ns).
  lia.
Qed.

Lemma update_absent {V} (f : V → V) k (d : dict.t V) :
  k ∉ dict.keys d → dict.update f k d = d.
Proof.
  induction d as [|[k0 v] d IH]; intros Hk; [done|].
  unfold dict.keys in Hk. simpl in Hk. apply not_elem_of_cons in Hk as [Hne Hk].
  unfold dict.update in *. simpl. rewrite decide_False by done. f_equal. by apply IH.
Qed.

Lemma available_storage_update x k ns :
  dict.wf ns → k ∈ dict.keys ns →
  available_storage
    (dict.update (StorageVirtualNode.set_used_storage (λ used, used + x)) k ns) =
  available_storage ns - x.
Proof.
  induction ns as [|[k0 node] ns IH]; intros Hwf Hin.
  { by apply elem_of_nil in Hin. }
  unfold dict.wf, dict.keys in Hwf, Hin. simpl in Hwf, Hin.
  apply NoDup_cons in Hwf as [Hk0 Hwf].
  change (dict.update ?f k ((k0, node) :: ns))
    with ((if decide (k0 = k) then (k0, f node) else (k0, node)) :: dict.update f k ns).
  destruct (decide (k0 = k)) as [->|Hne].
  - rewrite update_absent by done. rewrite !available_storage_cons. simpl. lia.
  - apply elem_of_cons in Hin as [?|Hin]; [congruence|].
    rewrite !available_storage_cons, IH by done. lia.
Qed.

Lemma place_copy_wf file block_id data checksum replica st node_id :
  dict.wf (nodes st) →
  dict.wf (nodes (place_copy file block_id data checksum replica st node_id).2).
Proof. unfold dict.wf. by rewrite place_copy_keys. Qed.

Lemma place_copy_available file block_id data checksum replica st node_id :
  dict.wf (nodes st) → node_id ∈ dict.keys (nodes st) →
  available_storage (nodes st) - len data
  ≤ available_storage (nodes (place_copy file block_id data checksum replica st node_id).2).
Proof.
  intros Hwf Hin. pose proof (len_nonneg data).
  destruct (place_copy _ _ _ _ _ _ _) as [[[]|] st'] eqn:Hcopy; simpl.
  - rewrite (place_copy_nodes _ _ _ _ _ _ _ _ Hcopy), available_storage_update by done.
    lia.
  - destruct (place_copy_raised _ _ _ _ _ _ _ _ Hcopy) as [-> _]. lia.
Qed.

Lemma place_replicas_available file block_id data checksum node_ids st :
  dict.wf (nodes st) →
  (∀ k, k ∈ node_ids → k ∈ dict.keys (nodes st)) →
  available_storage (nodes st) - len data * len node_ids
  ≤ available_storage (nodes (place_replicas file block_id data checksum st node_ids).2).
Proof.
  revert st. induction node_ids as [|k node_ids IH]; intros st Hwf Hin.
  { unfold len. simpl. lia. }
  simpl.
  pose proof (place_copy_available file block_id data checksum true st k Hwf) as Hav.
  pose proof (place_copy_wf file block_id data checksum true st k Hwf) as Hwf'.
  pose proof (place_copy_keys file block_id data checksum true st k) as Hkeys.
  pose proof (len_nonneg data). pose proof (len_nonneg node_ids).
  rewrite len_cons.
  destruct (place_copy _ _ _ _ _ _ _) as [[[]|] st1]; simpl in *.
  - specialize (IH st1 Hwf'). etrans; [|apply IH].
    + specialize (Hav ltac:(apply Hin; left)). nia.
    + intros k' Hk'. rewrite Hkeys. apply Hin. by right.
  - specialize (Hav ltac:(apply Hin; left)). nia.
Qed.

Lemma total_size_needed_cons data checksum blocks_data :
  total_size_needed ((data, checksum) :: blocks_data) =
  len data * REPLICATION_FACTOR + total_size_needed blocks_data.
Proof.
  unfold total_size_needed.
  change (sum (?f <$> (data, checksum) :: blocks_data))
    with (len data + sum (f <$> blocks_data)).
  lia.
Qed.

Lemma distribute_loop_available file block_id blocks_data st :
  dict.wf (nodes st) →
  available_storage (nodes st) - total_size_needed blocks_data
  ≤ available_storage (nodes (distribute_loop file block_id blocks_data st).2).
Proof.
  revert block_id st.
  induction blocks_data as [|[data checksum] blocks_data IH]; intros block_id st Hwf.
  { unfold total_size_needed, sum. simpl. lia. }
  rewrite total_size_needed_cons.
  pose proof (len_nonneg data) as Hdata.
  assert (0 ≤ total_size_needed blocks_data) as Hrest.
  { unfold total_size_needed, REPLICATION_FACTOR. rewrite sum_block_sizes.
    pose proof (len_nonneg (concat blocks_data.*1)). lia. }
  simpl.
  destruct (select_nodes_for_block _ _ _) as [|primary replicas] eqn:Hsel.
  { unfold REPLICATION_FACTOR. simpl. lia. }
  assert (dict.keys (nodes st) ≠ []) as Hne.
  { intros Hnil. unfold select_nodes_for_block in Hsel. by rewrite Hnil in Hsel. }
  pose proof (select_nodes_length (nodes st) block_id None Hne) as Hlen.
  rewrite Hsel in Hlen.
  assert (len (primary :: replicas) ≤ 2) as Hcopies.
  { clear -Hlen. simpl in Hlen. unfold REPLICATION_FACTOR in Hlen. lia. }
  assert (∀ k, k ∈ primary :: replicas → k ∈ dict.keys (nodes st)) as Hin.
  { intros k Hk. rewrite <- Hsel in Hk. by apply select_nodes_elem in Hk. }
  pose proof (place_copy_available file block_id data checksum false st primary Hwf
                ltac:(apply Hin; left)) as Hav1.
  pose proof (place_copy_wf file block_id data checksum false st primary Hwf) as Hwf1.
  pose proof (place_copy_keys file block_id data checksum false st primary) as Hkeys1.
  pose proof (len_nonneg replicas) as Hreplicas0.
  rewrite len_cons in Hcopies.
  destruct (place_copy _ _ _ _ _ _ _) as [[[]|] st1]; simpl in *.
  2:{ unfold REPLICATION_FACTOR. clear -Hav1 Hrest Hdata. nia. }
  assert (∀ k, k ∈ replicas → k ∈ dict.keys (nodes st1)) as Hin1.
  { intros k Hk. rewrite Hkeys1. apply Hin. by right. }
  pose proof (place_replicas_available file block_id data checksum replicas st1 Hwf1 Hin1)
    as Hav2.
  assert (dict.wf (nodes (place_replicas file block_id data checksum st1 replicas).2))
    as Hwf2.
  { unfold dict.wf. rewrite place_replicas_keys. exact Hwf1. }
  destruct (place_replicas _ _ _ _ _ _) as [[[]|] st2]; simpl in *.
  2:{ unfold REPLICATION_FACTOR. clear -Hav1 Hav2 Hrest Hdata Hcopies Hreplicas0. nia. }
  pose proof (IH (block_id + 1) st2 Hwf2) as Hloop.
  unfold REPLICATION_FACTOR. clear -Hav1 Hav2 Hloop Hcopies Hreplicas0 Hdata. nia.
Qed.

(** C3 (amended). After a successful [distribute_file_blocks], the
    [used_storage] summed over all nodes is at most the [total_storage]
    summed over all nodes: this is what the aggregate precheck guarantees.
    Nothing bounds a single node's [used_storage] by its own
    [total_storage]. *)
Theorem aggregate_capacity_after_distribute st file_contents file st' :
  dict.wf (nodes st) →
  distribute_file_blocks st file_contents file = (Returns true, st') →
  total_used (nodes st') ≤ total_capacity (nodes st').
Proof.
  intros Hwf. unfold distribute_file_blocks, distribute_file_blocks_exit.
  case_decide; [done|]. case_decide as Hfits; [done|].
  pose proof (distribute_loop_available file 0 (split_file_into_blocks file_contents)
                st Hwf) as Hav.
  destruct (distribute_loop _ _ _ _) as [exit st1]. intros Hexit.
  assert (st1 = st') as <- by (by destruct exit; simplify_eq).
  cbn [snd] in Hav. rewrite (available_storage_balance (nodes st1)) in Hav. lia.
Qed.

(** ** Node removal *)

Lemma keys_del {V} k (d : dict.t V) :
  dict.keys (dict.del k d) = filter (λ k', k' ≠ k) (dict.keys d).
Proof.
  induction d as [|[k0 v] d IH]; [done|].
  unfold dict.del, dict.keys in *. rewrite fmap_cons. simpl.
  destruct (decide (k0 = k)) as [->|Hne].
  - rewrite (filter_cons_False _ k) by naive_solver.
    rewrite (filter_cons_False _ (k, v)) by naive_solver. exact IH.
  - rewrite (filter_cons_True _ k0) by done.
    rewrite (filter_cons_True _ (k0, v)) by done.
    rewrite fmap_cons. simpl. f_equal. exact IH.
Qed.

Lemma get_Some_elem {V} (d : dict.t V) k v : dict.get d k = Some v → (k, v) ∈ d.
Proof.
  induction d as [|[k0 v0] d IH]; [done|]. simpl.
  case_decide; [intros [= ->]; subst; left | intros Hg; right; by apply IH].
Qed.

(** C9. Node removal guard: for a registered node, [delete_node] refuses
    and leaves the whole state (the node, the stored data, every connection)
    as it was when the node's [used_storage] is greater than zero; when it is
    zero, the node is deleted: it is gone from the registry, whose other
    nodes stay in their order, no remaining node lists it among its
    connections, its directory under [blocks_dir] is gone while the other
    directories, the virtual disks and the block rows are untouched. *)
Theorem node_removal_guard st node_id node :
  dict.get (nodes st) node_id = Some node →
  (StorageVirtualNode.used_storage node > 0 →
     delete_node st node_id = (NodeNotEmpty, st))
  ∧ (StorageVirtualNode.used_storage node = 0 →
     ∃ st', delete_node st node_id = (NodeDeleted, st')
       ∧ (node_id ∉ dict.keys (nodes st'))
       ∧ dict.keys (nodes st') = filter (λ k, k ≠ node_id) (dict.keys (nodes st))
       ∧ (∀ k node', (k, node') ∈ nodes st' →
            StorageVirtualNode.connections node' !! node_id = None)
       ∧ blocks_dir st' !! node_id = None
       ∧ (∀ k, k ≠ node_id → blocks_dir st' !! k = blocks_dir st !! k)
       ∧ vdisk_manager st' = vdisk_manager st
       ∧ db st' = db st).
Proof.
  intros Hget. unfold delete_node. rewrite Hget. split.
  - intros Hused. by rewrite decide_True.
  - intros Hused. rewrite decide_False by lia. eexists. split; [done|]. simpl.
    assert (dict.keys
              ((λ kv : string * StorageVirtualNode.t,
                  (kv.1, StorageVirtualNode.set_connections (delete node_id) kv.2))
               <$> dict.del node_id (nodes st)) =
            filter (λ k, k ≠ node_id) (dict.keys (nodes st))) as Hkeys.
    { rewrite <- keys_del. unfold dict.keys. rewrite <- list_fmap_compose.
      by apply list_fmap_ext. }
    split_and!.
    + rewrite Hkeys, list_elem_of_filter. tauto.
    + done.
    + intros k node'. rewrite list_elem_of_fmap. intros ([k0 n0] & [= -> ->] & _).
      simpl. apply lookup_delete_eq.
    + apply lookup_delete_eq.
    + intros k Hk. by apply lookup_delete_ne.
    + done.
    + done.
Qed.

(** ** The rows a distribution adds *)

Lemma select_nodes_keys ns ns' block_id num_replicas :
  dict.keys ns = dict.keys ns' →
  select_nodes_for_block ns block_id num_replicas =
  select_nodes_for_block ns' block_id num_replicas.
Proof. intros Hk. unfold select_nodes_for_block. by rewrite Hk. Qed.

Lemma planned_rows_keys file ns ns' block_id blocks_data :
  dict.keys ns = dict.keys ns' →
  planned_rows file ns block_id blocks_data = planned_rows file ns' block_id blocks_data.
Proof.
  intros Hk. revert block_id.
  induction blocks_data as [|[data checksum] blocks_data IH]; intros block_id; [done|].
  simpl. by rewrite IH, (select_nodes_keys ns ns').
Qed.

Lemma mod_shift_inj i j1 j2 n :
  0 ≤ j1 < n → 0 ≤ j2 < n → (i + j1) `mod` n = (i + j2) `mod` n → j1 = j2.
Proof.
  intros H1 H2 Hmod.
  pose proof (Z.div_mod (i + j1) n ltac:(lia)) as E1.
  pose proof (Z.div_mod (i + j2) n ltac:(lia)) as E2.
  rewrite Hmod in E1.
  generalize dependent ((i + j1) `div` n). generalize dependent ((i + j2) `div` n).
  generalize ((i + j2) `mod` n). intros r q2 E2 q1 E1.
  destruct (Z.lt_trichotomy q1 q2) as [Hq|[Hq|Hq]]; nia.
Qed.

Lemma select_nodes_NoDup ns block_id num_replicas :
  dict.wf ns → NoDup (select_nodes_for_block ns block_id num_replicas).
Proof.
  intros Hwf. destruct (decide (dict.keys ns = [])) as [Hnil|Hne].
  { unfold select_nodes_for_block. rewrite Hnil. simpl. constructor. }
  rewrite select_nodes_unfold by done.
  apply NoDup_fmap_2_strong; [|apply NoDup_seqZ].
  intros j1 j2 Hj1 Hj2 Heq.
  apply elem_of_seqZ in Hj1, Hj2.
  set (n := len (dict.keys ns)) in *.
  assert (0 < n) as Hn by (clear -Hj1; lia).
  pose proof (Z.mod_pos_bound (block_id + j1) n Hn) as Hb1.
  pose proof (Z.mod_pos_bound (block_id + j2) n Hn) as Hb2.
  destruct (lookup_lt_is_Some_2 (dict.keys ns) (Z.to_nat ((block_id + j1) `mod` n)))
    as [k1 Hk1]; [unfold n, len in *; clear -Hb1; lia|].
  destruct (lookup_lt_is_Some_2 (dict.keys ns) (Z.to_nat ((block_id + j2) `mod` n)))
    as [k2 Hk2]; [unfold n, len in *; clear -Hb2; lia|].
  rewrite Hk1, Hk2 in Heq. simpl in Heq. subst k2.
  pose proof (NoDup_lookup _ _ _ _ Hwf Hk1 Hk2) as Hidx.
  apply (mod_shift_inj block_id j1 j2 n); [clear -Hj1; lia|clear -Hj2; lia|].
  clear -Hidx Hb1 Hb2. lia.
Qed.

Lemma place_replicas_rows file block_id data checksum node_ids st st' :
  place_replicas file block_id data checksum st node_ids = (Returns (), st') →
  ∃ new,
    db st' = db st ++ new
    ∧ forget_path <$> new =
      (λ node_id, FileBlock.mk block_id (File.id file) node_id (len data) checksum
                    true (Some block_id) None) <$> node_ids.
Proof.
  revert st. induction node_ids as [|k node_ids IH]; intros st.
  { intros [= <-]. exists []. by rewrite app_nil_r. }
  simpl. destruct (place_copy _ _ _ _ _ _ _) as [[[]|] st1] eqn:Hcopy; [|done].
  intros (new & Hdb & Hnew)%IH.
  destruct (place_copy_db _ _ _ _ _ _ _ _ Hcopy) as (path & _ & Hdb1).
  rewrite Hdb, Hdb1, <- app_assoc. eexists. split; [done|].
  rewrite fmap_app, Hnew. done.
Qed.

Lemma planned_rows_no_nodes file ns block_id blocks_data :
  dict.keys ns = [] → planned_rows file ns block_id blocks_data = [].
Proof.
  intros Hnil. revert block_id.
  induction blocks_data as [|[data checksum] blocks_data IH]; intros block_id; [done|].
  simpl. rewrite IH. unfold select_nodes_for_block. by rewrite Hnil.
Qed.

Lemma distribute_loop_rows file block_id blocks_data st st' :
  distribute_loop file block_id blocks_data st = (Committed, st') →
  ∃ new,
    db st' = db st ++ new
    ∧ forget_path <$> new = planned_rows file (nodes st) block_id blocks_data.
Proof.
  revert block_id st.
  induction blocks_data as [|[data checksum] blocks_data IH]; intros block_id st.
  { intros [= <-]. exists []. by rewrite app_nil_r. }
  simpl.
  destruct (select_nodes_for_block _ _ _) as [|primary replicas] eqn:Hsel; [done|].
  destruct (place_copy _ _ _ _ _ _ _) as [[[]|] st1] eqn:Hcopy; [|done].
  destruct (place_replicas _ _ _ _ _ _) as [[[]|] st2] eqn:Hcopies; [|done].
  intros (new2 & Hdb2 & Hnew2)%IH.
  destruct (place_replicas_rows _ _ _ _ _ _ _ Hcopies) as (new1 & Hdb1 & Hnew1).
  destruct (place_copy_db _ _ _ _ _ _ _ _ Hcopy) as (path & _ & Hdb0).
  rewrite Hdb2, Hdb1, Hdb0, <- !app_assoc.
  eexists. split; [done|].
  rewrite fmap_app, fmap_app, Hnew1, Hnew2. simpl.
  rewrite (planned_rows_keys file (nodes st2) (nodes st)); [done|].
  pose proof (place_replicas_keys file block_id data checksum replicas st1) as Hk2.
  pose proof (place_copy_keys file block_id data checksum false st primary) as Hk1.
  rewrite Hcopies in Hk2. rewrite Hcopy in Hk1. simpl in *. congruence.
Qed.

(** ** The bytes a distribution stores *)

Lemma string_app_length (s1 s2 : string) :
  String.length (s1 +:+ s2) = (String.length s1 + String.length s2)%nat.
Proof. induction s1 as [|a s1 IH]; simpl; [done|]. by rewrite IH. Qed.

Lemma string_app_inv_tail (s1 s2 t : string) : s1 +:+ t = s2 +:+ t → s1 = s2.
Proof.
  revert s2. induction s1 as [|a s1 IH]; intros [|b s2] Heq.
  - done.
  - apply (f_equal String.length) in Heq.
    rewrite !string_app_length in Heq. simpl in Heq. lia.
  - apply (f_equal String.length) in Heq.
    rewrite !string_app_length in Heq. simpl in Heq. lia.
  - simpl in Heq. injection Heq as -> Heq. f_equal. by apply IH.
Qed.

Lemma block_identifier_inj file_id i j :
  block_identifier file_id i = block_identifier file_id j → i = j.
Proof.
  unfold block_identifier. intros Heq.
  apply String.app_inj, String.app_inj in Heq. by apply (inj pretty) in Heq.
Qed.

Lemma block_filename_inj file_id i j :
  block_filename file_id i = block_filename file_id j → i = j.
Proof.
  unfold block_filename. intros Heq.
  apply String.app_inj, String.app_inj, string_app_inv_tail in Heq.
  by apply (inj pretty) in Heq.
Qed.

Lemma read_write_same node_id filename data fs fs' :
  write_file node_id filename data fs = Some fs' →
  read_file fs' node_id filename = Some data.
Proof.
  unfold read_file, write_file. destruct (fs !! node_id) as [dir|]; [|done].
  simpl. intros [= <-]. rewrite lookup_insert_eq. simpl.
  by rewrite lookup_insert_eq.
Qed.

Lemma read_write_other node_id filename data fs fs' node_id' filename' :
  write_file node_id filename data fs = Some fs' →
  (node_id', filename') ≠ (node_id, filename) →
  read_file fs' node_id' filename' = read_file fs node_id' filename'.
Proof.
  unfold read_file, write_file. destruct (fs !! node_id) as [dir|] eqn:Hdir; [|done].
  simpl. intros [= <-] Hne.
  destruct (decide (node_id' = node_id)) as [->|Hn].
  - rewrite lookup_insert_eq, Hdir. simpl.
    by rewrite lookup_insert_ne by congruence.
  - by rewrite lookup_insert_ne.
Qed.

Lemma truthy_Some (data : bytes) : data ≠ [] → truthy (Some data) = true.
Proof. by destruct data. Qed.

Lemma retrieve_block_None st node_id file_id block_id :
  retrieve_block st node_id file_id block_id = None →
  truthy (if use_virtual_disk st then
            retrieve_block_from_disk (vdisk_manager st) node_id
              (block_identifier file_id block_id)
          else None) = false
  ∧ read_file (blocks_dir st) node_id (block_filename file_id block_id) = None.
Proof.
  unfold retrieve_block. destruct (truthy _) eqn:Ht; [|done].
  intros Hnone. rewrite Hnone in Ht. done.
Qed.

Lemma store_block_retrieve_same `{!VirtualDiskManagerLaws}
    st data node_id file_id block_id path :
  data ≠ [] →
  retrieve_block st node_id file_id block_id = None →
  (store_block st data node_id file_id block_id).1 = Returns path →
  retrieve_block (store_block st data node_id file_id block_id).2
    node_id file_id block_id = Some data.
Proof.
  intros Hdata Hfresh. apply retrieve_block_None in Hfresh as [Hdisk Hfile].
  unfold store_block, retrieve_block.
  destruct (use_virtual_disk st) eqn:Hflag; simpl.
  - destruct (store_block_in_disk _ _ _ _) as [[] d] eqn:Hstore; simpl.
    + rewrite Hflag, (retrieve_stored _ _ _ _ _ Hstore). by rewrite truthy_Some.
    + destruct (write_file _ _ _ _) as [fs|] eqn:Hwrite; [|done]. simpl.
      rewrite Hflag, (retrieve_rejected _ _ _ _ _ Hstore), Hdisk. intros _.
      by eapply read_write_same.
  - destruct (write_file _ _ _ _) as [fs|] eqn:Hwrite; [|done]. simpl.
    rewrite Hflag. simpl. intros _. by eapply read_write_same.
Qed.

Lemma store_block_retrieve_other `{!VirtualDiskManagerLaws}
    st data node_id file_id block_id node_id' block_id' :
  (node_id', block_id') ≠ (node_id, block_id) →
  retrieve_block (store_block st data node_id file_id block_id).2
    node_id' file_id block_id' =
  retrieve_block st node_id' file_id block_id'.
Proof.
  intros Hne.
  assert ((node_id', block_identifier file_id block_id')
          ≠ (node_id, block_identifier file_id block_id)) as Hkey.
  { intros [= -> Hk]. apply block_identifier_inj in Hk. congruence. }
  assert ((node_id', block_filename file_id block_id')
          ≠ (node_id, block_filename file_id block_id)) as Hname.
  { intros [= -> Hk]. apply block_filename_inj in Hk. congruence. }
  unfold store_block, retrieve_block.
  destruct (use_virtual_disk st) eqn:Hflag; simpl.
  - destruct (store_block_in_disk _ _ _ _) as [[] d] eqn:Hstore; simpl.
    + by rewrite Hflag, (retrieve_other _ _ _ _ _ _ _ _ Hstore Hkey).
    + destruct (write_file _ _ _ _) as [fs|] eqn:Hwrite; simpl;
        rewrite Hflag, (retrieve_other _ _ _ _ _ _ _ _ Hstore Hkey); [|done].
      by rewrite (read_write_other _ _ _ _ _ _ _ Hwrite).
  - destruct (write_file _ _ _ _) as [fs|] eqn:Hwrite; simpl; rewrite Hflag; [|done].
    simpl. by rewrite (read_write_other _ _ _ _ _ _ _ Hwrite).
Qed.

Lemma place_copy_retrieve file block_id data checksum replica st node_id node_id' file_id' i :
  retrieve_block (place_copy file block_id data checksum replica st node_id).2
    node_id' file_id' i =
  retrieve_block (store_block st data node_id (File.file_id file) block_id).2
    node_id' file_id' i.
Proof. unfold place_copy. by destruct (store_block _ _ _ _ _) as [[path|] st1]. Qed.

Lemma place_copy_stored file block_id data checksum replica st node_id st' :
  place_copy file block_id data checksum replica st node_id = (Returns (), st') →
  ∃ path, (store_block st data node_id (File.file_id file) block_id).1 = Returns path.
Proof. intros (path & st1 & -> & _)%place_copy_returns. by exists path. Qed.

Lemma place_copy_placed `{!VirtualDiskManagerLaws}
    file block_id data checksum replica st node_id st' node_id' i :
  data ≠ [] →
  retrieve_block st node_id (File.file_id file) block_id = None →
  place_copy file block_id data checksum replica st node_id = (Returns (), st') →
  retrieve_block st' node_id' (File.file_id file) i =
  if decide (i = block_id ∧ node_id' = node_id) then Some data
  else retrieve_block st node_id' (File.file_id file) i.
Proof.
  intros Hdata Hfresh Hcopy.
  pose proof (place_copy_retrieve file block_id data checksum replica st node_id node_id'
                (File.file_id file) i) as Hretrieve.
  destruct (place_copy_stored _ _ _ _ _ _ _ _ Hcopy) as [path Hpath].
  rewrite Hcopy in Hretrieve. simpl in Hretrieve. rewrite Hretrieve.
  case_decide as Hkey.
  - destruct Hkey as [-> ->]. by apply (store_block_retrieve_same _ _ _ _ _ path).
  - apply store_block_retrieve_other. intros [= -> ->]. by apply Hkey.
Qed.

Lemma place_replicas_retrieve `{!VirtualDiskManagerLaws}
    file block_id data checksum node_ids st st' node_id' i :
  data ≠ [] → NoDup node_ids →
  (∀ k, k ∈ node_ids → retrieve_block st k (File.file_id file) block_id = None) →
  place_replicas file block_id data checksum st node_ids = (Returns (), st') →
  retrieve_block st' node_id' (File.file_id file) i =
  if decide (i = block_id ∧ node_id' ∈ node_ids) then Some data
  else retrieve_block st node_id' (File.file_id file) i.
Proof.
  intros Hdata. revert st.
  induction node_ids as [|k node_ids IH]; intros st Hnodup Hfresh.
  { intros [= <-]. rewrite decide_False; [done|].
    intros [_ Hin]. by apply elem_of_nil in Hin. }
  apply NoDup_cons in Hnodup as [Hk Hnodup]. simpl.
  pose proof (λ n j, place_copy_retrieve file block_id data checksum true st k n
                       (File.file_id file) j) as Hcopy_retrieve.
  destruct (place_copy _ _ _ _ _ _ _) as [[[]|] st1] eqn:Hcopy; [|done].
  destruct (place_copy_stored _ _ _ _ _ _ _ _ Hcopy) as [path Hpath].
  simpl in Hcopy_retrieve. intros Hcopies. rewrite (IH st1 Hnodup); [|  |done].
  - rewrite Hcopy_retrieve.
    destruct (decide (i = block_id ∧ node_id' ∈ node_ids)) as [[-> Hin]|Hout].
    + rewrite decide_True; [done|]. split; [done|by right].
    + destruct (decide ((node_id', i) = (k, block_id))) as [[= -> ->]|Hne].
      * rewrite (store_block_retrieve_same _ _ _ _ _ path); [|done|apply Hfresh; left|done].
        rewrite decide_True; [done|]. split; [done|left].
      * rewrite store_block_retrieve_other by done.
        rewrite decide_False; [done|]. intros [-> Hin].
        apply elem_of_cons in Hin as [->|Hin]; [done|]. apply Hout. done.
  - intros k' Hk'. rewrite Hcopy_retrieve, store_block_retrieve_other.
    + apply Hfresh. by right.
    + intros [= -> ]. done.
Qed.

Lemma planned_copy_keys ns ns' first_id blocks_data node_id block_id :
  dict.keys ns = dict.keys ns' →
  planned_copy ns first_id blocks_data node_id block_id =
  planned_copy ns' first_id blocks_data node_id block_id.
Proof. intros Hk. unfold planned_copy. by rewrite (select_nodes_keys ns ns'). Qed.

Lemma planned_copy_cons ns first_id data checksum blocks_data node_id block_id :
  planned_copy ns first_id ((data, checksum) :: blocks_data) node_id block_id =
  if decide (block_id = first_id) then
    if decide (node_id ∈ select_nodes_for_block ns first_id None) then Some data else None
  else planned_copy ns (first_id + 1) blocks_data node_id block_id.
Proof.
  unfold planned_copy.
  destruct (decide (block_id = first_id)) as [->|Hne].
  - rewrite decide_True by lia. by rewrite Z.sub_diag.
  - destruct (decide (first_id ≤ block_id)) as [Hle|Hgt].
    + rewrite decide_True by lia.
      replace (Z.to_nat (block_id - first_id))
        with (S (Z.to_nat (block_id - (first_id + 1)))) by lia.
      done.
    + by rewrite decide_False by lia.
Qed.

Lemma planned_copy_no_nodes ns first_id blocks_data node_id block_id :
  dict.keys ns = [] → planned_copy ns first_id blocks_data node_id block_id = None.
Proof.
  intros Hnil. unfold planned_copy. case_decide; [|done].
  destruct (blocks_data !! _); [|done]. simpl.
  unfold select_nodes_for_block. rewrite Hnil. done.
Qed.

Lemma distribute_loop_retrieve `{!VirtualDiskManagerLaws}
    file first_id blocks_data st st' node_id block_id :
  dict.wf (nodes st) →
  Forall (λ block, block.1 ≠ []) blocks_data →
  (∀ k i, first_id ≤ i → retrieve_block st k (File.file_id file) i = None) →
  distribute_loop file first_id blocks_data st = (Committed, st') →
  retrieve_block st' node_id (File.file_id file) block_id =
  if decide (first_id ≤ block_id)
  then planned_copy (nodes st) first_id blocks_data node_id block_id
  else retrieve_block st node_id (File.file_id file) block_id.
Proof.
  revert first_id st.
  induction blocks_data as [|[data checksum] blocks_data IH];
    intros first_id st Hwf Hdata Hfresh.
  { intros [= <-]. case_decide as Hle; [|done]. rewrite Hfresh by done.
    unfold planned_copy. rewrite decide_True by done. by rewrite lookup_nil. }
  apply Forall_cons in Hdata as [Hd Hdata]. simpl in Hd. simpl.
  destruct (select_nodes_for_block _ _ _) as [|primary replicas] eqn:Hsel; [done|].
  pose proof (select_nodes_NoDup (nodes st) first_id None Hwf) as Hnodup.
  rewrite Hsel in Hnodup. apply NoDup_cons in Hnodup as [Hprimary Hnodup].
  destruct (place_copy _ _ _ _ _ _ _) as [[[]|] st1] eqn:Hcopy; [|done].
  destruct (place_replicas _ _ _ _ _ _) as [[[]|] st2] eqn:Hcopies; [|done].
  intros Hloop.
  assert (∀ k i, retrieve_block st1 k (File.file_id file) i =
                 if decide (i = first_id ∧ k = primary) then Some data
                 else retrieve_block st k (File.file_id file) i) as Hst1.
  { intros k i.
    apply (place_copy_placed file first_id data checksum false st primary st1 k i);
      [done| |done].
    apply Hfresh. lia. }
  assert (∀ k i, retrieve_block st2 k (File.file_id file) i =
                 if decide (i = first_id ∧ k ∈ primary :: replicas) then Some data
                 else retrieve_block st k (File.file_id file) i) as Hst2.
  { intros k i.
    rewrite (place_replicas_retrieve file first_id data checksum replicas st1 st2);
      [|done|done| |done].
    - rewrite Hst1.
      destruct (decide (i = first_id ∧ k ∈ replicas)) as [[-> Hin]|Hout].
      + rewrite decide_True; [done|]. split; [done|by right].
      + destruct (decide (i = first_id ∧ k = primary)) as [[-> ->]|Hout'].
        * rewrite decide_True; [done|]. split; [done|]. left.
        * rewrite decide_False; [done|]. intros [-> Hin].
          apply elem_of_cons in Hin as [->|Hin].
          -- by apply Hout'.
          -- apply Hout. done.
    - intros k' Hk'. rewrite Hst1, decide_False.
      + apply Hfresh. lia.
      + intros [_ ->]. done. }
  assert (dict.keys (nodes st2) = dict.keys (nodes st)) as Hkeys.
  { pose proof (place_replicas_keys file first_id data checksum replicas st1) as Hk2.
    pose proof (place_copy_keys file first_id data checksum false st primary) as Hk1.
    rewrite Hcopies in Hk2. rewrite Hcopy in Hk1. simpl in *. congruence. }
  rewrite (IH (first_id + 1) st2); [|unfold dict.wf; by rewrite Hkeys|done| |done].
  2:{ intros k i Hi. rewrite Hst2, decide_False by lia. apply Hfresh. lia. }
  rewrite planned_copy_cons, Hsel, (planned_copy_keys (nodes st2) (nodes st)) by done.
  destruct (decide (block_id = first_id)) as [->|Hne].
  - rewrite decide_False, decide_True by lia. rewrite Hst2.
    destruct (decide (node_id ∈ primary :: replicas)) as [Hin|Hout].
    + by rewrite decide_True.
    + rewrite decide_False by tauto. apply Hfresh. lia.
  - destruct (decide (first_id ≤ block_id)) as [Hle|Hgt].
    + by rewrite decide_True by lia.
    + rewrite decide_False by lia. rewrite Hst2, decide_False; [done|]. tauto.
Qed.

(** ** The layout of a distributed file *)

Lemma elem_of_block_rows r file block_id data checksum node_ids :
  r ∈ block_rows file block_id data checksum node_ids →
  FileBlock.block_id r = block_id ∧ FileBlock.file_id r = File.id file
  ∧ FileBlock.node_id r ∈ node_ids ∧ FileBlock.block_size r = len data
  ∧ FileBlock.checksum r = checksum.
Proof.
  destruct node_ids as [|primary replicas]; simpl; [by intros ?%elem_of_nil|].
  intros [->|Hin]%elem_of_cons; simpl.
  - split_and!; [done..|left|done|done].
  - apply list_elem_of_fmap in Hin as (k & -> & Hk). simpl.
    split_and!; [done..|by right|done|done].
Qed.

Lemma block_rows_nodes file block_id data checksum node_ids :
  FileBlock.node_id <$> block_rows file block_id data checksum node_ids = node_ids.
Proof.
  destruct node_ids as [|primary replicas]; [done|]. simpl. f_equal.
  rewrite <- list_fmap_compose. by rewrite <- (list_fmap_id replicas) at 2.
Qed.

Lemma block_rows_length file block_id data checksum node_ids :
  length (block_rows file block_id data checksum node_ids) = length node_ids.
Proof. by rewrite <- (block_rows_nodes file block_id data checksum node_ids) at 2;
         rewrite length_fmap. Qed.

Lemma elem_of_planned_rows r file ns first_id blocks_data :
  r ∈ planned_rows file ns first_id blocks_data ↔
  ∃ j block,
    blocks_data !! j = Some block
    ∧ r ∈ block_rows file (first_id + Z.of_nat j) block.1 block.2
            (select_nodes_for_block ns (first_id + Z.of_nat j) None).
Proof.
  revert first_id.
  induction blocks_data as [|[data checksum] blocks_data IH]; intros first_id.
  { split; [by intros ?%elem_of_nil|]. by intros (j & block & Hj & _). }
  simpl. rewrite elem_of_app, IH. split.
  - intros [Hin|(j & block & Hj & Hin)].
    + exists 0%nat, (data, checksum). rewrite Z.add_0_r. done.
    + exists (S j), block. split; [done|].
      by replace (first_id + Z.of_nat (S j)) with (first_id + 1 + Z.of_nat j) by lia.
  - intros ([|j] & block & Hj & Hin).
    + left. simpl in Hj. injection Hj as <-. by rewrite Z.add_0_r in Hin.
    + right. exists j, block. split; [done|].
      by replace (first_id + 1 + Z.of_nat j) with (first_id + Z.of_nat (S j)) by lia.
Qed.

Lemma planned_rows_length file ns first_id blocks_data :
  dict.keys ns ≠ [] →
  len (planned_rows file ns first_id blocks_data) =
  len blocks_data * (REPLICATION_FACTOR `min` len (dict.keys ns)).
Proof.
  intros Hne. revert first_id.
  induction blocks_data as [|[data checksum] blocks_data IH]; intros first_id.
  { unfold len. simpl. lia. }
  simpl. rewrite len_app, IH. unfold len at 1. rewrite block_rows_length.
  fold (len (select_nodes_for_block ns first_id None)).
  rewrite select_nodes_length by done. simpl.
  assert (0 < len (dict.keys ns)).
  { destruct (dict.keys ns); [done|]. unfold len. simpl. lia. }
  rewrite (len_cons (data, checksum)). unfold REPLICATION_FACTOR. clear Hne IH. lia.
Qed.

Lemma filter_all {A} (P : A → Prop) `{∀ x, Decision (P x)} (l : list A) :
  Forall P l → filter P l = l.
Proof.
  induction 1 as [|x l Hx Hl IH]; [done|].
  rewrite filter_cons_True by done. by rewrite IH.
Qed.

Lemma filter_none {A} (P : A → Prop) `{∀ x, Decision (P x)} (l : list A) :
  Forall (λ x, ¬ P x) l → filter P l = [].
Proof.
  induction 1 as [|x l Hx Hl IH]; [done|].
  by rewrite filter_cons_False by done.
Qed.

Lemma filter_block_rows file block_id data checksum node_ids i :
  filter (λ r, FileBlock.block_id r = i)
    (block_rows file block_id data checksum node_ids) =
  if decide (block_id = i) then block_rows file block_id data checksum node_ids else [].
Proof.
  case_decide as Hi.
  - apply filter_all, Forall_forall. intros r Hr.
    apply elem_of_block_rows in Hr as (-> & _). done.
  - apply filter_none, Forall_forall. intros r Hr.
    apply elem_of_block_rows in Hr as (-> & _). done.
Qed.

Lemma filter_planned_rows_before file ns first_id blocks_data i :
  i < first_id →
  filter (λ r, FileBlock.block_id r = i) (planned_rows file ns first_id blocks_data) = [].
Proof.
  intros Hi. apply filter_none, Forall_forall. intros r Hr.
  apply elem_of_planned_rows in Hr as (j & block & _ & Hr).
  apply elem_of_block_rows in Hr as (-> & _). lia.
Qed.

Lemma planned_rows_spread file ns first_id blocks_data i :
  dict.wf ns →
  NoDup (FileBlock.node_id <$>
           filter (λ r, FileBlock.block_id r = i)
             (planned_rows file ns first_id blocks_data)).
Proof.
  intros Hwf. revert first_id.
  induction blocks_data as [|[data checksum] blocks_data IH]; intros first_id.
  { constructor. }
  simpl. rewrite filter_app, filter_block_rows.
  case_decide as Hi.
  - rewrite filter_planned_rows_before by lia. rewrite app_nil_r, block_rows_nodes.
    by apply select_nodes_NoDup.
  - apply IH.
Qed.

Lemma filter_fmap {A B} (f : A → B) (P : B → Prop) `{∀ y, Decision (P y)} (l : list A) :
  filter P (f <$> l) = f <$> filter (λ x, P (f x)) l.
Proof.
  induction l as [|x l IH]; [done|].
  rewrite fmap_cons, !filter_cons. case_decide; [rewrite fmap_cons|]; by rewrite IH.
Qed.

Lemma filter_ext_in {A} (P Q : A → Prop) `{∀ x, Decision (P x)} `{∀ x, Decision (Q x)}
    (l : list A) :
  (∀ x, x ∈ l → P x ↔ Q x) → filter P l = filter Q l.
Proof.
  induction l as [|x l IH]; intros Hext; [done|].
  rewrite !filter_cons.
  assert (P x ↔ Q x) as Hx by (apply Hext; left).
  rewrite IH by (intros y Hy; apply Hext; by right).
  repeat case_decide; tauto || done.
Qed.

(** [return True] is reached through the loop, run to its end, on at
    least one block. *)
Lemma distribute_true_loop st file_contents file st' :
  distribute_file_blocks st file_contents file = (Returns true, st') →
  distribute_loop file 0 (split_file_into_blocks file_contents) st = (Committed, st')
  ∧ split_file_into_blocks file_contents ≠ []
  ∧ total_size_needed (split_file_into_blocks file_contents)
    ≤ available_storage (nodes st).
Proof.
  unfold distribute_file_blocks, distribute_file_blocks_exit.
  case_decide as Hblocks; [done|]. case_decide as Hfits; [done|].
  rewrite len_zero_iff in Hblocks.
  destruct (distribute_loop _ _ _ _) as [[] st1]; intros [= <-]; done.
Qed.

(** The rows of a freshly distributed file are the planned rows, each with
    the path of where its bytes went. *)
Lemma distribute_rows st file_contents file st' :
  rows_of (db st) file = [] →
  distribute_file_blocks st file_contents file = (Returns true, st') →
  dict.keys (nodes st) ≠ []
  ∧ dict.keys (nodes st') = dict.keys (nodes st)
  ∧ distribute_loop file 0 (split_file_into_blocks file_contents) st = (Committed, st')
  ∧ forget_path <$> rows_of (db st') file =
    planned_rows file (nodes st) 0 (split_file_into_blocks file_contents).
Proof.
  intros Hfresh (Hloop & Hblocks & _)%distribute_true_loop.
  assert (dict.keys (nodes st) ≠ []) as Hne.
  { intros Hnil. destruct (split_file_into_blocks file_contents) as [|[d c] blocks]; [done|].
    simpl in Hloop. unfold select_nodes_for_block in Hloop. by rewrite Hnil in Hloop. }
  destruct (distribute_loop_rows file 0 (split_file_into_blocks file_contents) st st' Hloop)
    as (new & Hdb & Hnew).
  pose proof (distribute_loop_keys file 0 (split_file_into_blocks file_contents) st) as Hkeys.
  rewrite Hloop in Hkeys. simpl in Hkeys.
  split_and!; [done..|].
  unfold rows_of in *. rewrite Hdb, filter_app, Hfresh. simpl.
  rewrite filter_all; [done|].
  apply Forall_forall. intros r Hr.
  assert (forget_path r ∈ forget_path <$> new) as Hin.
  { apply list_elem_of_fmap. by exists r. }
  rewrite Hnew in Hin. apply elem_of_planned_rows in Hin as (j & block & _ & Hin).
  by apply elem_of_block_rows in Hin as (_ & Hfile & _).
Qed.

Lemma planned_row_block (rows : list FileBlock.t) file ns blocks_data r :
  forget_path <$> rows = planned_rows file ns 0 blocks_data →
  r ∈ rows →
  ∃ j block,
    blocks_data !! j = Some block
    ∧ FileBlock.block_id r = Z.of_nat j
    ∧ FileBlock.file_id r = File.id file
    ∧ FileBlock.node_id r ∈ select_nodes_for_block ns (Z.of_nat j) None
    ∧ FileBlock.block_size r = len block.1
    ∧ FileBlock.checksum r = block.2.
Proof.
  intros Hrows Hr.
  assert (forget_path r ∈ forget_path <$> rows) as Hin.
  { apply list_elem_of_fmap. by exists r. }
  rewrite Hrows in Hin. apply elem_of_planned_rows in Hin as (j & block & Hj & Hin).
  apply elem_of_block_rows in Hin. simpl in Hin. rewrite Z.add_0_l in Hin.
  exists j, block. tauto.
Qed.

Lemma block_rows_node file block_id data checksum node_ids node_id :
  node_id ∈ node_ids →
  ∃ r, r ∈ block_rows file block_id data checksum node_ids
       ∧ FileBlock.node_id r = node_id ∧ FileBlock.block_id r = block_id.
Proof.
  intros Hin. rewrite <- (block_rows_nodes file block_id data checksum node_ids) in Hin.
  apply list_elem_of_fmap in Hin as (r & -> & Hr). exists r. split_and!; [done..|].
  by apply elem_of_block_rows in Hr as (-> & _).
Qed.

Lemma planned_copy_Some ns blocks_data node_id block_id data :
  planned_copy ns 0 blocks_data node_id block_id = Some data ↔
  0 ≤ block_id
  ∧ (∃ checksum, blocks_data !! Z.to_nat block_id = Some (data, checksum))
  ∧ node_id ∈ select_nodes_for_block ns block_id None.
Proof.
  unfold planned_copy. rewrite Z.sub_0_r. split.
  - case_decide; [|done].
    destruct (blocks_data !! Z.to_nat block_id) as [[d c]|]; [|done]. simpl.
    case_decide; [|done]. intros [= ->]. eauto.
  - intros (Hle & [c Hc] & Hin). rewrite decide_True, Hc by done. simpl.
    by rewrite decide_True.
Qed.

Lemma select_default_length ns block_id :
  dict.keys ns ≠ [] →
  length (select_nodes_for_block ns block_id None) =
  Z.to_nat (REPLICATION_FACTOR `min` len (dict.keys ns)).
Proof.
  intros Hne. pose proof (select_nodes_length ns block_id None Hne) as Hlen.
  simpl in Hlen. unfold len in Hlen at 1. clear Hne. lia.
Qed.

Lemma copies_positive (ns : dict.t StorageVirtualNode.t) :
  dict.keys ns ≠ [] → 0 < REPLICATION_FACTOR `min` len (dict.keys ns).
Proof.
  intros Hne. destruct (dict.keys ns); [done|].
  unfold len, REPLICATION_FACTOR. simpl. lia.
Qed.

Lemma filter_members_length {A} `{EqDecision A} (l s : list A) :
  NoDup l → NoDup s → (∀ x, x ∈ s → x ∈ l) →
  length (filter (λ x, x ∈ s) l) = length s.
Proof.
  intros Hl Hs Hsub. apply Permutation_length, NoDup_Permutation; [|done|].
  - by apply NoDup_filter.
  - intros x. rewrite list_elem_of_filter. split; [tauto|]. auto.
Qed.

Lemma bind_length_const {A B} (f : A → list B) (l : list A) m :
  (∀ x, x ∈ l → length (f x) = m) → length (l ≫= f) = (length l * m)%nat.
Proof.
  induction l as [|x l IH]; intros Hf; [done|].
  rewrite bind_cons, length_app, IH, Hf; [simpl; lia|left|].
  intros y Hy. apply Hf. by right.
Qed.

(** After the loop, the bytes retrievable under the block names of the
    file are the planned copies and nothing else. *)
Lemma distributed_copies `{!VirtualDiskManagerLaws}
    file blocks_data st st' node_id block_id :
  dict.wf (nodes st) →
  Forall (λ block, block.1 ≠ []) blocks_data →
  no_stored_copy st file →
  distribute_loop file 0 blocks_data st = (Committed, st') →
  retrieve_block st' node_id (File.file_id file) block_id =
  planned_copy (nodes st) 0 blocks_data node_id block_id.
Proof.
  intros Hwf Hdata Hstore Hloop.
  rewrite (distribute_loop_retrieve file 0 blocks_data st st');
    [|done|done|intros; apply Hstore|done].
  case_decide as Hle; [done|]. rewrite Hstore. unfold planned_copy.
  by rewrite decide_False.
Qed.

(** Every row of the file has its block's bytes behind it. *)
Lemma planned_row_intact (rows : list FileBlock.t) file ns blocks_data st r :
  forget_path <$> rows = planned_rows file ns 0 blocks_data →
  Forall (λ block, block.2 = md5 block.1) blocks_data →
  (∀ node_id block_id,
     retrieve_block st node_id (File.file_id file) block_id =
     planned_copy ns 0 blocks_data node_id block_id) →
  r ∈ rows →
  ∃ data,
    blocks_data !! Z.to_nat (FileBlock.block_id r) = Some (data, FileBlock.checksum r)
    ∧ 0 ≤ FileBlock.block_id r
    ∧ retrieve_block st (FileBlock.node_id r) (File.file_id file)
        (FileBlock.block_id r) = Some data
    ∧ md5 data = FileBlock.checksum r
    ∧ FileBlock.block_size r = len data.
Proof.
  intros Hplan Hsums Hcopy Hr.
  destruct (planned_row_block _ _ _ _ _ Hplan Hr)
    as (j & [d c] & Hj & Hid & _ & Hin & Hsize & Hsum).
  simpl in Hsize, Hsum. exists d. rewrite Hcopy, Hid, Nat2Z.id, Hsum.
  split_and!; [done|lia| |  |done].
  - apply planned_copy_Some. rewrite Nat2Z.id. split_and!; [lia|eauto|done].
  - rewrite Forall_lookup in Hsums. symmetry. exact (Hsums _ _ Hj).
Qed.

(** C4. Replication count and spread: after a successful
    [distribute_file_blocks] of a file that has no row and no stored bytes
    yet, with [B] blocks, replication factor [REPLICATION_FACTOR] and [n]
    nodes in the registry, the file has [B * min(REPLICATION_FACTOR, n)]
    rows and as many physical copies; bytes are retrievable under a node and
    a block index exactly where a row of the file says so, they are the
    bytes of that block, of the size and with the digest the row records;
    and the rows of one block index sit on pairwise distinct nodes. *)
Theorem replication_count_and_spread `{!VirtualDiskManagerLaws}
    st file_contents file st' :
  dict.wf (nodes st) →
  rows_of (db st) file = [] →
  no_stored_copy st file →
  distribute_file_blocks st file_contents file = (Returns true, st') →
  let blocks_data := split_file_into_blocks file_contents in
  let B := len blocks_data in
  let copies := REPLICATION_FACTOR `min` len (dict.keys (nodes st)) in
  len (rows_of (db st') file) = B * copies
  ∧ len (stored_copies st' file B) = B * copies
  ∧ (∀ node_id block_id,
       is_Some (retrieve_block st' node_id (File.file_id file) block_id) ↔
       ∃ r, r ∈ rows_of (db st') file
            ∧ FileBlock.node_id r = node_id ∧ FileBlock.block_id r = block_id)
  ∧ (∀ r, r ∈ rows_of (db st') file →
       ∃ data,
         blocks_data !! Z.to_nat (FileBlock.block_id r) = Some (data, FileBlock.checksum r)
         ∧ 0 ≤ FileBlock.block_id r
         ∧ retrieve_block st' (FileBlock.node_id r) (File.file_id file)
             (FileBlock.block_id r) = Some data
         ∧ md5 data = FileBlock.checksum r
         ∧ FileBlock.block_size r = len data)
  ∧ (∀ block_id,
       NoDup (FileBlock.node_id <$>
                filter (λ r, FileBlock.block_id r = block_id) (rows_of (db st') file))).
Proof.
  intros Hwf Hrows Hstore Hdist. cbv zeta.
  destruct (distribute_rows _ _ _ _ Hrows Hdist) as (Hne & Hkeys & Hst' & Hplan).
  clear Hdist.
  pose proof (split_file_nonempty file_contents) as Hdata.
  pose proof (split_file_checksums file_contents) as Hsums.
  generalize dependent (split_file_into_blocks file_contents).
  intros blocks_data Hst' Hplan Hdata Hsums.
  set (B := len blocks_data).
  set (copies := REPLICATION_FACTOR `min` len (dict.keys (nodes st))).
  assert (∀ node_id block_id,
            retrieve_block st' node_id (File.file_id file) block_id =
            planned_copy (nodes st) 0 blocks_data node_id block_id) as Hcopy.
  { intros node_id block_id. by apply distributed_copies. }
  pose proof (copies_positive (nodes st) Hne) as Hpos. fold copies in Hpos.
  split_and!.
  - unfold len at 1. rewrite <- (length_fmap forget_path), Hplan.
    fold (len (planned_rows file (nodes st) 0 blocks_data)).
    by rewrite planned_rows_length.
  - unfold stored_copies, len at 1.
    rewrite (bind_length_const _ _ (Z.to_nat copies)).
    { rewrite length_seqZ. unfold B, len. lia. }
    intros i Hi. apply elem_of_seqZ in Hi. rewrite length_fmap, Hkeys.
    rewrite (filter_ext_in _ (λ k, k ∈ select_nodes_for_block (nodes st) i None)).
    + rewrite filter_members_length;
        [|done|by apply select_nodes_NoDup|by apply select_nodes_elem].
      by apply select_default_length.
    + intros k _. rewrite Hcopy. unfold is_Some.
      destruct (lookup_lt_is_Some_2 blocks_data (Z.to_nat i)) as [[d c] Hd].
      { unfold B, len in Hi. lia. }
      split.
      * intros [data Hd']. by apply planned_copy_Some in Hd' as (_ & _ & Hin).
      * intros Hin. exists d. apply planned_copy_Some. split_and!; [lia|eauto|done].
  - intros node_id block_id. rewrite Hcopy. split.
    + intros [data (Hle & [c Hc] & Hin)%planned_copy_Some].
      destruct (block_rows_node file block_id data c _ _ Hin) as (r0 & Hr0 & Hnode & Hid).
      assert (r0 ∈ forget_path <$> rows_of (db st') file) as Hplanned.
      { rewrite Hplan. apply elem_of_planned_rows.
        exists (Z.to_nat block_id), (data, c). split; [done|].
        by rewrite Z.add_0_l, Z2Nat.id by done. }
      apply list_elem_of_fmap in Hplanned as (r & -> & Hr). by exists r.
    + intros (r & Hr & <- & <-).
      destruct (planned_row_block _ _ _ _ _ Hplan Hr)
        as (j & [d c] & Hj & Hid & _ & Hin & _).
      exists d. apply planned_copy_Some. rewrite Hid, Nat2Z.id.
      split_and!; [lia|eauto|done].
  - intros r Hr.
    by apply (planned_row_intact (rows_of (db st') file) file (nodes st) blocks_data st').
  - intros block_id.
    assert (FileBlock.node_id <$>
              filter (λ r, FileBlock.block_id r = block_id) (rows_of (db st') file) =
            FileBlock.node_id <$>
              filter (λ r, FileBlock.block_id r = block_id)
                (forget_path <$> rows_of (db st') file)) as ->.
    { rewrite filter_fmap, <- list_fmap_compose. done. }
    rewrite Hplan. by apply planned_rows_spread.
Qed.

(** ** Reconstruction of one block *)

Section OneBlock.
Variables (st : state) (file : File.t) (block_id : Z).

Local Abbreviation fetch r :=
  (retrieve_block st (FileBlock.node_id r) (File.file_id file) block_id).

Lemma try_replicas_source replicas block_data :
  try_replicas st file block_id replicas block_data = block_data
  ∨ ∃ r, r ∈ replicas ∧ try_replicas st file block_id replicas block_data = fetch r.
Proof.
  revert block_data. induction replicas as [|r replicas IH]; intros block_data.
  { by left. }
  right. simpl. destruct (truthy (fetch r)) eqn:Ht.
  - exists r. split; [left|done].
  - destruct (IH (fetch r)) as [Heq|(r' & Hin & Heq)].
    + exists r. split; [left|done].
    + exists r'. split; [by right|done].
Qed.

Lemma try_replicas_truthy replicas block_data r :
  r ∈ replicas → truthy (fetch r) = true →
  truthy (try_replicas st file block_id replicas block_data) = true.
Proof.
  revert block_data. induction replicas as [|r0 replicas IH]; intros block_data Hin Hr.
  { by apply elem_of_nil in Hin. }
  simpl. destruct (truthy (fetch r0)) eqn:Ht; [done|].
  apply elem_of_cons in Hin as [->|Hin]; [congruence|]. by apply IH.
Qed.

(** The checksum loop answers the bytes of the first accepted replica. *)
Lemma find_valid_replica_first before r after data :
  (∀ r0 data0, r0 ∈ before → ¬ accepted st file block_id r0 data0) →
  accepted st file block_id r data →
  find_valid_replica st file block_id (before ++ r :: after) = Some data.
Proof.
  intros Hbefore (Hfetch & Hdata & Hsum).
  induction before as [|r0 before IH]; simpl.
  - rewrite Hfetch, truthy_Some by done. by rewrite decide_True.
  - assert (find_valid_replica st file block_id (before ++ r :: after) = Some data) as Hrest.
    { apply IH. intros r1 d1 Hin. apply Hbefore. by right. }
    destruct (fetch r0) as [[|b d0]|] eqn:Hr0; simpl; [done| |done].
    case_decide as Hsum0; [|done].
    exfalso. apply (Hbefore r0 (b :: d0)); [left|]. done.
Qed.

Lemma find_valid_replica_none replicas :
  (∀ r data, r ∈ replicas → fetch r = Some data → md5 data ≠ FileBlock.checksum r) →
  find_valid_replica st file block_id replicas = None.
Proof.
  induction replicas as [|r replicas IH]; intros Hnone; [done|]. simpl.
  assert (find_valid_replica st file block_id replicas = None) as Hrest.
  { apply IH. intros r' d Hin. apply Hnone. by right. }
  destruct (fetch r) as [[|b d]|] eqn:Hr; simpl; [done| |done].
  rewrite decide_False; [done|]. apply (Hnone r); [left|done].
Qed.

Lemma find_valid_replica_accepts replicas data :
  find_valid_replica st file block_id replicas = Some data →
  ∃ r, r ∈ replicas ∧ accepted st file block_id r data.
Proof.
  induction replicas as [|r replicas IH]; [done|]. simpl.
  destruct (fetch r) as [[|b d]|] eqn:Hr; simpl.
  - intros (r' & Hin & Hacc)%IH. exists r'. split; [by right|done].
  - case_decide as Hsum.
    + intros [= <-]. exists r. split; [left|]. by split_and!.
    + intros (r' & Hin & Hacc)%IH. exists r'. split; [by right|done].
  - intros (r' & Hin & Hacc)%IH. exists r'. split; [by right|done].
Qed.

End OneBlock.

Lemma split_first_accepted st file block_id replicas :
  (∃ r data, r ∈ replicas ∧ accepted st file block_id r data) →
  ∃ before r after data,
    replicas = before ++ r :: after
    ∧ (∀ r0 data0, r0 ∈ before → ¬ accepted st file block_id r0 data0)
    ∧ accepted st file block_id r data.
Proof.
  induction replicas as [|r0 replicas IH]; intros (r & data & Hin & Hacc).
  { by apply elem_of_nil in Hin. }
  destruct (retrieve_block st (FileBlock.node_id r0) (File.file_id file) block_id)
    as [d0|] eqn:Hr0.
  - destruct (decide (d0 ≠ [] ∧ md5 d0 = FileBlock.checksum r0)) as [[Hd Hs]|Hno].
    + exists [], r0, replicas, d0. split; [done|]. split.
      * intros ? ? ?%elem_of_nil. done.
      * by split_and!.
    + apply elem_of_cons in Hin as [->|Hin].
      { destruct Hacc as (Hf & Hd & Hs). rewrite Hr0 in Hf. injection Hf as ->.
        exfalso. by apply Hno. }
      destruct IH as (before & r1 & after & d1 & -> & Hbefore & Hacc1); [eauto|].
      exists (r0 :: before), r1, after, d1. split; [done|]. split; [|done].
      intros r2 d2 [->|Hin2]%elem_of_cons; [|by apply Hbefore].
      intros (Hf & Hd & Hs). rewrite Hr0 in Hf. injection Hf as ->. by apply Hno.
  - apply elem_of_cons in Hin as [->|Hin].
    { destruct Hacc as (Hf & _). congruence. }
    destruct IH as (before & r1 & after & d1 & -> & Hbefore & Hacc1); [eauto|].
    exists (r0 :: before), r1, after, d1. split; [done|]. split; [|done].
    intros r2 d2 [->|Hin2]%elem_of_cons; [|by apply Hbefore].
    intros (Hf & _). congruence.
Qed.

Lemma truthy_true (o : option bytes) :
  truthy o = true → ∃ data, o = Some data ∧ data ≠ [].
Proof. destruct o as [[|b d]|]; [done| |done]. intros _. by exists (b :: d). Qed.

(** On a checksum mismatch of the bytes first obtained from the primary,
    the block is whatever the checksum loop over the replicas finds. *)
Lemma reconstruct_block_mismatch st file block data :
  retrieve_block st (FileBlock.node_id block) (File.file_id file)
    (FileBlock.block_id block) = Some data →
  md5 data ≠ FileBlock.checksum block →
  reconstruct_block st file block =
  find_valid_replica st file (FileBlock.block_id block)
    (query_replicas (db st) file (FileBlock.block_id block)).
Proof.
  intros Hfetch Hsum. unfold reconstruct_block. rewrite Hfetch.
  by rewrite decide_True.
Qed.

Lemma reconstruct_block_recovers st file block data :
  data ≠ [] →
  (∀ r, r ∈ query_replicas (db st) file (FileBlock.block_id block) →
        FileBlock.checksum r = FileBlock.checksum block) →
  (∀ r d, r ∈ block :: query_replicas (db st) file (FileBlock.block_id block) →
          retrieve_block st (FileBlock.node_id r) (File.file_id file)
            (FileBlock.block_id block) = Some d →
          md5 d = FileBlock.checksum block → d = data) →
  (∃ r d, r ∈ block :: query_replicas (db st) file (FileBlock.block_id block)
          ∧ retrieve_block st (FileBlock.node_id r) (File.file_id file)
              (FileBlock.block_id block) = Some d
          ∧ md5 d = FileBlock.checksum block) →
  reconstruct_block st file block = Some data.
Proof.
  intros Hdata Hsums Hdetect (r & d & Hin & Hfetch & Hsum).
  set (replicas := query_replicas (db st) file (FileBlock.block_id block)) in *.
  assert (d = data) as -> by by apply (Hdetect r).
  assert (r ∈ replicas →
          find_valid_replica st file (FileBlock.block_id block) replicas = Some data)
    as Hfind.
  { intros Hr.
    destruct (split_first_accepted st file (FileBlock.block_id block) replicas)
      as (before & r1 & after & d1 & Hsplit & Hbefore & Hacc).
    { exists r, data. split; [done|]. split_and!; [done..|].
      by rewrite Hsums. }
    rewrite Hsplit, (find_valid_replica_first _ _ _ _ _ _ d1) by done.
    destruct Hacc as (Hf1 & _ & Hs1). f_equal. apply (Hdetect r1); [|done|].
    - right. rewrite Hsplit. apply elem_of_app. right. left.
    - rewrite Hs1. apply Hsums. rewrite Hsplit. apply elem_of_app. right. left. }
  unfold reconstruct_block. fold replicas.
  destruct (retrieve_block st (FileBlock.node_id block) _ _) as [d0|] eqn:Hprimary.
  - case_decide as Hmis.
    + apply Hfind. apply elem_of_cons in Hin as [->|Hin]; [|done].
      rewrite Hprimary in Hfetch. injection Hfetch as ->. done.
    + f_equal. apply (Hdetect block); [left|done|].
      destruct (decide (md5 d0 = FileBlock.checksum block)); [done|tauto].
  - apply elem_of_cons in Hin as [->|Hin]; [congruence|].
    pose proof (try_replicas_truthy st file (FileBlock.block_id block) replicas None r Hin)
      as Htruthy.
    rewrite Hfetch, truthy_Some in Htruthy by done. specialize (Htruthy eq_refl).
    apply truthy_true in Htruthy as (d1 & Htry & Hd1). rewrite Htry.
    case_decide as Hmis; [by apply Hfind|].
    f_equal.
    destruct (try_replicas_source st file (FileBlock.block_id block) replicas None)
      as [Hnone|(r1 & Hr1 & Hsrc)]; [congruence|].
    apply (Hdetect r1); [by right|congruence|].
    destruct (decide (md5 d1 = FileBlock.checksum block)); [done|tauto].
Qed.

Lemma reconstruct_block_fails st file block :
  (∀ r, r ∈ query_replicas (db st) file (FileBlock.block_id block) →
        FileBlock.checksum r = FileBlock.checksum block) →
  (∀ r d, r ∈ block :: query_replicas (db st) file (FileBlock.block_id block) →
          retrieve_block st (FileBlock.node_id r) (File.file_id file)
            (FileBlock.block_id block) = Some d →
          md5 d ≠ FileBlock.checksum block) →
  reconstruct_block st file block = None.
Proof.
  intros Hsums Hnone.
  set (replicas := query_replicas (db st) file (FileBlock.block_id block)) in *.
  assert (find_valid_replica st file (FileBlock.block_id block) replicas = None) as Hfind.
  { apply find_valid_replica_none. intros r d Hr Hfetch. rewrite Hsums by done.
    apply (Hnone r); [by right|done]. }
  unfold reconstruct_block. fold replicas.
  destruct (retrieve_block st (FileBlock.node_id block) _ _) as [d0|] eqn:Hprimary.
  - rewrite decide_True; [done|]. apply (Hnone block); [left|done].
  - destruct (try_replicas st file _ replicas None) as [d1|] eqn:Htry; [|done].
    rewrite decide_True; [done|].
    destruct (try_replicas_source st file (FileBlock.block_id block) replicas None)
      as [Heq|(r1 & Hr1 & Hsrc)]; [congruence|].
    apply (Hnone r1); [by right|congruence].
Qed.

(** ** Reconstruction of a file *)

Lemma reconstruct_loop_all st file blocks (blocks_data : list (bytes * string)) output :
  length blocks = length blocks_data →
  (∀ j block, blocks !! j = Some block →
     ∃ b, blocks_data !! j = Some b ∧ reconstruct_block st file block = Some b.1) →
  reconstruct_loop st file blocks output = (true, output ++ concat blocks_data.*1).
Proof.
  revert blocks_data output.
  induction blocks as [|block blocks IH]; intros [|b blocks_data] output Hlen Hall;
    try done.
  { by rewrite app_nil_r. }
  simpl. destruct (Hall 0%nat block eq_refl) as (b' & [= <-] & ->).
  rewrite IH with (blocks_data := blocks_data).
  - by rewrite <- app_assoc.
  - simpl in Hlen. lia.
  - intros j block' Hj. apply (Hall (S j)). done.
Qed.

Lemma reconstruct_loop_fails st file blocks output block :
  block ∈ blocks → reconstruct_block st file block = None →
  (reconstruct_loop st file blocks output).1 = false.
Proof.
  revert output. induction blocks as [|b blocks IH]; intros output Hin Hnone.
  { by apply elem_of_nil in Hin. }
  simpl. destruct (reconstruct_block st file b) as [d|] eqn:Hb; [|done].
  apply elem_of_cons in Hin as [->|Hin]; [congruence|]. by apply IH.
Qed.

Lemma order_by_block_id_sorted first_id (rows : list FileBlock.t) :
  (∀ j r, rows !! j = Some r → FileBlock.block_id r = first_id + Z.of_nat j) →
  order_by_block_id rows = rows.
Proof.
  revert first_id. induction rows as [|r rows IH]; intros first_id Hids; [done|].
  simpl. rewrite (IH (first_id + 1)).
  - destruct rows as [|r' rows]; [done|]. simpl.
    rewrite decide_True; [done|].
    rewrite (Hids 0%nat r eq_refl), (Hids 1%nat r' eq_refl). lia.
  - intros j r' Hj. rewrite (Hids (S j) r' Hj). lia.
Qed.

Lemma query_primaries_rows_of rows file :
  query_primaries rows file =
  order_by_block_id (filter (λ r, FileBlock.is_replica r = false) (rows_of rows file)).
Proof.
  unfold query_primaries, rows_of. f_equal.
  rewrite list_filter_filter. apply list_filter_iff. intros r. tauto.
Qed.

Lemma elem_of_query_replicas rows file block_id r :
  r ∈ query_replicas rows file block_id ↔
  r ∈ rows_of rows file ∧ FileBlock.block_id r = block_id ∧ FileBlock.is_replica r = true.
Proof. unfold query_replicas, rows_of. rewrite !list_elem_of_filter. tauto. Qed.

Lemma planned_primaries file ns first_id blocks_data :
  dict.keys ns ≠ [] →
  FileBlock.block_id <$>
    filter (λ r, FileBlock.is_replica r = false) (planned_rows file ns first_id blocks_data) =
  seqZ first_id (len blocks_data).
Proof.
  intros Hne. revert first_id.
  induction blocks_data as [|[data checksum] blocks_data IH]; intros first_id; [done|].
  simpl. rewrite filter_app, fmap_app, IH.
  pose proof (select_default_nonempty ns first_id Hne) as Hsel.
  destruct (select_nodes_for_block ns first_id None) as [|primary replicas]; [done|].
  unfold block_rows. rewrite filter_cons_True by done.
  rewrite (filter_none _ (_ <$> replicas)).
  2:{ apply Forall_forall. intros r (k & -> & _)%list_elem_of_fmap. done. }
  pose proof (len_nonneg blocks_data) as Hlen.
  rewrite len_cons, (seqZ_cons first_id) by (clear -Hlen; lia).
  simpl. do 2 f_equal; clear; lia.
Qed.

(** The primaries of a distributed file, as [reconstruct_file] reads them:
    one per block, in block order. *)
Lemma primaries_of_distributed (rows : list FileBlock.t) file ns blocks_data :
  dict.keys ns ≠ [] →
  forget_path <$> rows_of rows file = planned_rows file ns 0 blocks_data →
  query_primaries rows file = filter (λ r, FileBlock.is_replica r = false) (rows_of rows file)
  ∧ length (query_primaries rows file) = length blocks_data
  ∧ ∀ j r, query_primaries rows file !! j = Some r → FileBlock.block_id r = Z.of_nat j.
Proof.
  intros Hne Hplan.
  set (primaries := filter (λ r, FileBlock.is_replica r = false) (rows_of rows file)).
  assert (FileBlock.block_id <$> primaries = seqZ 0 (len blocks_data)) as Hids.
  { rewrite <- (planned_primaries file ns 0 blocks_data Hne), <- Hplan.
    rewrite filter_fmap, <- list_fmap_compose. done. }
  assert (∀ j r, primaries !! j = Some r → FileBlock.block_id r = Z.of_nat j) as Hlookup.
  { intros j r Hj.
    assert ((FileBlock.block_id <$> primaries) !! j = Some (FileBlock.block_id r)) as Hj'.
    { by rewrite list_lookup_fmap, Hj. }
    rewrite Hids in Hj'. apply lookup_seqZ in Hj' as [-> _]. lia. }
  assert (query_primaries rows file = primaries) as Hsorted.
  { rewrite query_primaries_rows_of. apply (order_by_block_id_sorted 0).
    intros j r Hj. rewrite (Hlookup j r Hj). lia. }
  rewrite Hsorted. split_and!; [done| |done].
  rewrite <- (length_fmap FileBlock.block_id), Hids, length_seqZ. unfold len. lia.
Qed.

(** ** Reconstruction of a distributed file *)

Section Distributed.
Variables (st : state) (file : File.t) (ns : dict.t StorageVirtualNode.t)
  (blocks_data : list (bytes * string)).
Hypothesis Hnodes : dict.keys ns ≠ [].
Hypothesis Hplan :
  forget_path <$> rows_of (db st) file = planned_rows file ns 0 blocks_data.

Lemma distributed_row r j b :
  r ∈ rows_of (db st) file → FileBlock.block_id r = Z.of_nat j →
  blocks_data !! j = Some b →
  FileBlock.checksum r = b.2.
Proof.
  intros Hr Hid Hb.
  destruct (planned_row_block _ _ _ _ _ Hplan Hr) as (j' & b' & Hb' & Hid' & _ & _ & _ & Hsum).
  assert (j' = j) as -> by lia. congruence.
Qed.

Lemma distributed_primary j primary :
  query_primaries (db st) file !! j = Some primary →
  primary ∈ rows_of (db st) file ∧ FileBlock.block_id primary = Z.of_nat j
  ∧ FileBlock.is_replica primary = false.
Proof.
  intros Hj.
  destruct (primaries_of_distributed _ _ _ _ Hnodes Hplan) as (Hq & _ & Hids).
  split_and!; [| by apply Hids |].
  - apply list_elem_of_lookup_2 in Hj. rewrite Hq in Hj.
    by apply list_elem_of_filter in Hj as [_ Hj].
  - apply list_elem_of_lookup_2 in Hj. rewrite Hq in Hj.
    by apply list_elem_of_filter in Hj as [Hj _].
Qed.

(** A row of block [j] is the primary of block [j] or one of its replicas. *)
Lemma distributed_candidate j primary r :
  query_primaries (db st) file !! j = Some primary →
  r ∈ rows_of (db st) file → FileBlock.block_id r = Z.of_nat j →
  r ∈ primary :: query_replicas (db st) file (FileBlock.block_id primary).
Proof.
  intros Hj Hr Hid.
  destruct (distributed_primary j primary Hj) as (_ & Hpid & _).
  destruct (FileBlock.is_replica r) eqn:Hrep.
  - right. apply elem_of_query_replicas. split_and!; [done|congruence|done].
  - destruct (primaries_of_distributed _ _ _ _ Hnodes Hplan) as (Hq & _ & Hids).
    assert (r ∈ query_primaries (db st) file) as Hin.
    { rewrite Hq. by apply list_elem_of_filter. }
    apply list_elem_of_lookup in Hin as [j' Hj'].
    pose proof (Hids _ _ Hj') as Hid'.
    assert (j' = j) as -> by lia.
    assert (r = primary) as -> by congruence. left.
Qed.

Lemma distributed_replica_checksum j primary r :
  query_primaries (db st) file !! j = Some primary →
  r ∈ query_replicas (db st) file (FileBlock.block_id primary) →
  FileBlock.checksum r = FileBlock.checksum primary.
Proof.
  intros Hj (Hr & Hid & _)%elem_of_query_replicas.
  destruct (distributed_primary j primary Hj) as (Hp & Hpid & _).
  destruct (planned_row_block _ _ _ _ _ Hplan Hp) as (j' & b & Hb & Hid' & _ & _ & _ & Hsum).
  rewrite Hsum. apply (distributed_row r j'); [done|congruence|done].
Qed.

Lemma distributed_block_recovers j primary b :
  Forall (λ block, block.1 ≠ []) blocks_data →
  corruption_detectable st file blocks_data →
  query_primaries (db st) file !! j = Some primary →
  blocks_data !! j = Some b →
  (∃ r, r ∈ rows_of (db st) file ∧ FileBlock.block_id r = Z.of_nat j
        ∧ valid_copy st file r) →
  reconstruct_block st file primary = Some b.1.
Proof.
  intros Hdata Hdetect Hj Hb (r & Hr & Hid & d & Hfetch & Hsum).
  destruct (distributed_primary j primary Hj) as (Hp & Hpid & _).
  pose proof (distributed_row primary j b Hp Hpid Hb) as Hpsum.
  apply reconstruct_block_recovers.
  - rewrite Forall_lookup in Hdata. apply (Hdata j b Hb).
  - intros r' Hr'. by apply (distributed_replica_checksum j).
  - intros r' d' Hr' Hfetch' Hsum'.
    assert (r' ∈ rows_of (db st) file ∧ FileBlock.block_id r' = Z.of_nat j
            ∧ FileBlock.checksum r' = FileBlock.checksum primary) as (Hr'' & Hid' & Hs').
    { apply elem_of_cons in Hr' as [->|Hr']; [done|].
      pose proof (distributed_replica_checksum j primary r' Hj Hr').
      apply elem_of_query_replicas in Hr' as (? & ? & _).
      split_and!; [done|congruence|done]. }
    apply (Hdetect r' d' b); [done| | |].
    + by rewrite Hid', <- Hpid.
    + congruence.
    + by rewrite Hid', Nat2Z.id.
  - exists r, d. split_and!.
    + by apply (distributed_candidate j).
    + by rewrite Hpid, <- Hid.
    + rewrite Hsum, Hpsum. by apply (distributed_row r j).
Qed.

Lemma distributed_block_fails j primary :
  query_primaries (db st) file !! j = Some primary →
  (∀ r, r ∈ rows_of (db st) file → FileBlock.block_id r = Z.of_nat j →
        ¬ valid_copy st file r) →
  reconstruct_block st file primary = None.
Proof.
  intros Hj Hnone.
  destruct (distributed_primary j primary Hj) as (Hp & Hpid & _).
  apply reconstruct_block_fails.
  - intros r' Hr'. by apply (distributed_replica_checksum j).
  - intros r' d' Hr' Hfetch' Hsum'.
    assert (r' ∈ rows_of (db st) file ∧ FileBlock.block_id r' = Z.of_nat j
            ∧ FileBlock.checksum r' = FileBlock.checksum primary) as (Hr'' & Hid' & Hs').
    { apply elem_of_cons in Hr' as [->|Hr']; [done|].
      pose proof (distributed_replica_checksum j primary r' Hj Hr').
      apply elem_of_query_replicas in Hr' as (? & ? & _).
      split_and!; [done|congruence|done]. }
    apply (Hnone r' Hr'' Hid'). exists d'. split; [|congruence].
    by rewrite Hid', <- Hpid.
Qed.

Lemma reconstruct_distributed :
  blocks_data ≠ [] →
  Forall (λ block, block.1 ≠ []) blocks_data →
  corruption_detectable st file blocks_data →
  (∀ i, 0 ≤ i < len blocks_data →
     ∃ r, r ∈ rows_of (db st) file ∧ FileBlock.block_id r = i ∧ valid_copy st file r) →
  reconstruct_file st file = (true, Some (concat blocks_data.*1)).
Proof.
  intros Hblocks Hdata Hdetect Hvalid.
  destruct (primaries_of_distributed _ _ _ _ Hnodes Hplan) as (_ & Hlen & _).
  assert (reconstruct_loop st file (query_primaries (db st) file) [] =
          (true, concat blocks_data.*1)) as Hloop.
  { apply (reconstruct_loop_all st file _ blocks_data []); [done|].
    intros j primary Hj.
    destruct (lookup_lt_is_Some_2 blocks_data j) as [b Hb].
    { rewrite <- Hlen. by apply lookup_lt_Some in Hj. }
    exists b. split; [done|]. apply (distributed_block_recovers j); [done..|].
    apply Hvalid. apply lookup_lt_Some in Hb. unfold len. lia. }
  unfold reconstruct_file. rewrite Hloop.
  destruct (query_primaries (db st) file); [|done].
  destruct blocks_data; done.
Qed.

Lemma reconstruct_distributed_fails i :
  0 ≤ i < len blocks_data →
  (∀ r, r ∈ rows_of (db st) file → FileBlock.block_id r = i → ¬ valid_copy st file r) →
  (reconstruct_file st file).1 = false.
Proof.
  intros Hi Hnone.
  destruct (primaries_of_distributed _ _ _ _ Hnodes Hplan) as (_ & Hlen & _).
  destruct (lookup_lt_is_Some_2 (query_primaries (db st) file) (Z.to_nat i))
    as [primary Hj].
  { rewrite Hlen. unfold len in Hi. lia. }
  assert (reconstruct_block st file primary = None) as Hblock.
  { apply (distributed_block_fails (Z.to_nat i)); [done|].
    intros r Hr Hid. apply Hnone; [done|lia]. }
  unfold reconstruct_file.
  pose proof (reconstruct_loop_fails st file _ [] primary
                (list_elem_of_lookup_2 _ _ _ Hj) Hblock) as Hloop.
  destruct (query_primaries (db st) file); [done|].
  by destruct (reconstruct_loop _ _ _ _).
Qed.

End Distributed.

(** C1. Round trip: when [distribute_file_blocks] has succeeded on a file
    that had no block row before, and afterwards (whatever happened to the
    stored bytes, the rows being those the distribution left) every block
    index still has a row, primary or replica, whose retrieved bytes hash to
    the row's checksum, and such bytes are the block's own (corruption is
    detectable), then [reconstruct_file] answers [True] and the output file
    holds exactly the bytes of the input. For a zero-length input
    [distribute_file_blocks] answers [False]. *)
Theorem round_trip st file_contents file :
  (∀ st1 st2,
     rows_of (db st) file = [] →
     distribute_file_blocks st file_contents file = (Returns true, st1) →
     db st2 = db st1 →
     corruption_detectable st2 file (split_file_into_blocks file_contents) →
     (∀ i, 0 ≤ i < len (split_file_into_blocks file_contents) →
        ∃ r, r ∈ rows_of (db st2) file ∧ FileBlock.block_id r = i
             ∧ valid_copy st2 file r) →
     reconstruct_file st2 file = (true, Some file_contents))
  ∧ distribute_file_blocks st [] file = (Returns false, st).
Proof.
  split; [|done].
  intros st1 st2 Hrows Hdist Hdb Hdetect Hvalid.
  destruct (distribute_rows _ _ _ _ Hrows Hdist) as (Hne & _ & _ & Hplan).
  rewrite <- Hdb in Hplan.
  assert (split_file_into_blocks file_contents ≠ []) as Hblocks.
  { intros Hnil. apply split_file_nil_iff in Hnil as ->. done. }
  pose proof (split_file_nonempty file_contents) as Hdata.
  pose proof (split_file_concat file_contents) as Hconcat.
  generalize dependent (split_file_into_blocks file_contents).
  intros blocks_data Hdetect Hvalid Hplan Hblocks Hdata Hconcat.
  rewrite <- Hconcat. by apply (reconstruct_distributed st2 file (nodes st)).
Qed.

(** Right after a distribution, with nothing lost or altered, the file
    is read back as it was written, whatever the digest function. *)
Lemma round_trip_intact `{!VirtualDiskManagerLaws} st file_contents file st1 :
  dict.wf (nodes st) →
  rows_of (db st) file = [] →
  no_stored_copy st file →
  distribute_file_blocks st file_contents file = (Returns true, st1) →
  reconstruct_file st1 file = (true, Some file_contents).
Proof.
  intros Hwf Hrows Hstore Hdist.
  destruct (distribute_rows _ _ _ _ Hrows Hdist) as (Hne & _ & Hst1 & Hplan).
  assert (split_file_into_blocks file_contents ≠ []) as Hblocks.
  { intros Hnil. apply split_file_nil_iff in Hnil as ->. done. }
  clear Hdist.
  pose proof (split_file_nonempty file_contents) as Hdata.
  pose proof (split_file_checksums file_contents) as Hsums.
  pose proof (split_file_concat file_contents) as Hconcat.
  generalize dependent (split_file_into_blocks file_contents).
  intros blocks_data Hst1 Hplan Hblocks Hdata Hsums Hconcat.
  assert (∀ r, r ∈ rows_of (db st1) file →
            ∃ data,
              blocks_data !! Z.to_nat (FileBlock.block_id r)
                = Some (data, FileBlock.checksum r)
              ∧ 0 ≤ FileBlock.block_id r
              ∧ retrieve_block st1 (FileBlock.node_id r) (File.file_id file)
                  (FileBlock.block_id r) = Some data
              ∧ md5 data = FileBlock.checksum r
              ∧ FileBlock.block_size r = len data) as Hintact.
  { intros r Hr.
    apply (planned_row_intact (rows_of (db st1) file) file (nodes st) blocks_data st1);
      try done.
    intros node_id block_id. by apply distributed_copies. }
  rewrite <- Hconcat. apply (reconstruct_distributed st1 file (nodes st)); try done.
  - intros r data block Hr Hfetch _ Hblock.
    destruct (Hintact r Hr) as (d & Hd & _ & Hfetch' & _).
    rewrite Hd in Hblock. injection Hblock as <-. simpl. congruence.
  - intros i Hi.
    destruct (primaries_of_distributed _ _ _ _ Hne Hplan) as (_ & Hlen & _).
    destruct (lookup_lt_is_Some_2 (query_primaries (db st1) file) (Z.to_nat i))
      as [primary Hj].
    { rewrite Hlen. unfold len in Hi. lia. }
    destruct (distributed_primary st1 file (nodes st) blocks_data Hne Hplan _ _ Hj)
      as (Hp & Hpid & _).
    exists primary. split_and!; [done|lia|].
    destruct (Hintact primary Hp) as (d & _ & _ & Hfetch & Hsum & _).
    by exists d.
Qed.

(** C7. Checksum fallback: for a file stored by a successful
    [distribute_file_blocks] (it had no row before), whatever happened to the
    stored bytes since: (1) if corruption is detectable and every block index
    still has a row with checksum-valid bytes, then for a primary whose
    retrieved bytes fail the checksum comparison, the block is rebuilt from
    the first replica of that block, in the order of the replica rows, whose
    retrieved bytes match the replica row's own checksum, these bytes are
    the block's original bytes, and [reconstruct_file] answers [True] with
    the original bytes of the file in the output; (2) if for some block
    index no row, primary or replica, has checksum-valid bytes,
    [reconstruct_file] answers [False]. *)
Theorem checksum_fallback st file_contents file st1 st2 :
  rows_of (db st) file = [] →
  distribute_file_blocks st file_contents file = (Returns true, st1) →
  db st2 = db st1 →
  (corruption_detectable st2 file (split_file_into_blocks file_contents) →
   (∀ i, 0 ≤ i < len (split_file_into_blocks file_contents) →
      ∃ r, r ∈ rows_of (db st2) file ∧ FileBlock.block_id r = i
           ∧ valid_copy st2 file r) →
   (∀ primary data,
      primary ∈ query_primaries (db st2) file →
      retrieve_block st2 (FileBlock.node_id primary) (File.file_id file)
        (FileBlock.block_id primary) = Some data →
      md5 data ≠ FileBlock.checksum primary →
      ∃ before replica after replica_data,
        query_replicas (db st2) file (FileBlock.block_id primary) =
          before ++ replica :: after
        ∧ (∀ r, r ∈ before → ¬ valid_copy st2 file r)
        ∧ retrieve_block st2 (FileBlock.node_id replica) (File.file_id file)
            (FileBlock.block_id primary) = Some replica_data
        ∧ md5 replica_data = FileBlock.checksum replica
        ∧ reconstruct_block st2 file primary = Some replica_data
        ∧ split_file_into_blocks file_contents !! Z.to_nat (FileBlock.block_id primary)
          = Some (replica_data, FileBlock.checksum primary))
   ∧ reconstruct_file st2 file = (true, Some file_contents))
  ∧ ((∃ i, 0 ≤ i < len (split_file_into_blocks file_contents)
           ∧ ∀ r, r ∈ rows_of (db st2) file → FileBlock.block_id r = i →
                  ¬ valid_copy st2 file r) →
     (reconstruct_file st2 file).1 = false).
Proof.
  intros Hrows Hdist Hdb.
  destruct (distribute_rows _ _ _ _ Hrows Hdist) as (Hne & _ & _ & Hplan).
  rewrite <- Hdb in Hplan.
  assert (split_file_into_blocks file_contents ≠ []) as Hblocks.
  { intros Hnil. apply split_file_nil_iff in Hnil as ->. done. }
  pose proof (split_file_nonempty file_contents) as Hdata.
  pose proof (split_file_concat file_contents) as Hconcat.
  generalize dependent (split_file_into_blocks file_contents).
  intros blocks_data Hplan Hblocks Hdata Hconcat.
  split.
  - intros Hdetect Hvalid. split.
    2:{ rewrite <- Hconcat. by apply (reconstruct_distributed st2 file (nodes st)). }
    intros primary data Hprimary Hfetch Hmismatch.
    apply list_elem_of_lookup in Hprimary as [j Hj].
    destruct (distributed_primary st2 file (nodes st) blocks_data Hne Hplan j primary Hj)
      as (Hp & Hpid & _).
    destruct (lookup_lt_is_Some_2 blocks_data j) as [[d c] Hb].
    { destruct (primaries_of_distributed _ _ _ _ Hne Hplan) as (_ & <- & _).
      by apply lookup_lt_Some in Hj. }
    assert (reconstruct_block st2 file primary = Some d) as Hblock.
    { apply (distributed_block_recovers st2 file (nodes st) blocks_data Hne Hplan
               j primary (d, c)); [done..|].
      apply Hvalid. apply lookup_lt_Some in Hb. unfold len. lia. }
    pose proof Hblock as Hfind.
    rewrite (reconstruct_block_mismatch _ _ _ _ Hfetch Hmismatch) in Hfind.
    destruct (split_first_accepted st2 file (FileBlock.block_id primary)
                (query_replicas (db st2) file (FileBlock.block_id primary)))
      as (before & replica & after & d' & Hsplit & Hbefore & Hacc).
    { apply find_valid_replica_accepts in Hfind as (r & Hr & Hracc). eauto. }
    assert (d' = d) as ->.
    { rewrite Hsplit, (find_valid_replica_first _ _ _ _ _ _ d') in Hfind by done.
      congruence. }
    destruct Hacc as (Hrfetch & _ & Hrsum).
    exists before, replica, after, d. split_and!; [done| |done|done|done|].
    + intros r Hr (d0 & Hfetch0 & Hsum0).
      assert (r ∈ query_replicas (db st2) file (FileBlock.block_id primary)) as Hrq.
      { rewrite Hsplit. apply elem_of_app. by left. }
      pose proof Hrq as (Hrows' & Hrid & _)%elem_of_query_replicas.
      assert (d0 = d) as ->.
      { apply (Hdetect r d0 (d, c)); [done..|]. by rewrite Hrid, Hpid, Nat2Z.id. }
      apply (Hbefore r d Hr). split_and!; [by rewrite <- Hrid|..|done].
      rewrite Forall_lookup in Hdata. apply (Hdata j (d, c) Hb).
    + rewrite Hpid, Nat2Z.id, Hb.
      by rewrite (distributed_row st2 file (nodes st) blocks_data Hplan
                    primary j (d, c) Hp Hpid Hb).
  - intros (i & Hi & Hnone).
    by apply (reconstruct_distributed_fails st2 file (nodes st) blocks_data Hne Hplan i).
Qed.

End Properties.

(** * Further properties of the storage core *)

Section Coverage.
Context `{Hashlib} `{VirtualDiskManager}.

(** Every [return False] of [distribute_file_blocks] is taken before the
    first write. *)
Lemma distribute_exit_unchanged st file_contents file :
  (distribute_file_blocks_exit st file_contents file).1 ≠ Committed →
  (distribute_file_blocks_exit st file_contents file).1 ≠ StoreBlockRaised →
  (distribute_file_blocks_exit st file_contents file).2 = st.
Proof.
  unfold distribute_file_blocks_exit.
  generalize (split_file_into_blocks file_contents). intros blocks_data.
  case_decide; [done|]. case_decide; [done|].
  destruct (decide (dict.keys (nodes st) = [])) as [Hnil|Hne].
  - destruct blocks_data as [|[data checksum] blocks_data]; [done|].
    simpl. unfold select_nodes_for_block. rewrite Hnil. done.
  - by destruct (distribute_loop_exit file 0 blocks_data st Hne) as [-> | ->].
Qed.

(** X1. All or nothing: whenever [distribute_file_blocks] answers [False],
    through whichever of its [return False], the state it leaves is the
    state it found: no block row, no stored byte and no counter has
    changed. *)
Theorem distribute_failure_leaves_state st file_contents file :
  (distribute_file_blocks st file_contents file).1 = Returns false →
  (distribute_file_blocks st file_contents file).2 = st.
Proof.
  unfold distribute_file_blocks.
  pose proof (distribute_exit_unchanged st file_contents file) as Hexit.
  destruct (distribute_file_blocks_exit st file_contents file) as [exit st'].
  simpl in *. intros Hfalse. apply Hexit; intros ->; done.
Qed.

(** What decides the answer: the precheck alone. *)
Lemma distribute_answer st file_contents file :
  ((distribute_file_blocks st file_contents file).1 = Returns false ↔
   file_contents = []
   ∨ len file_contents * REPLICATION_FACTOR > available_storage (nodes st))
  ∧ ((distribute_file_blocks st file_contents file).1 = Returns true →
     file_contents ≠ []
     ∧ len file_contents * REPLICATION_FACTOR ≤ available_storage (nodes st))
  ∧ (directories_exist st →
     file_contents ≠ [] →
     len file_contents * REPLICATION_FACTOR ≤ available_storage (nodes st) →
     (distribute_file_blocks st file_contents file).1 = Returns true).
Proof.
  unfold distribute_file_blocks, distribute_file_blocks_exit.
  rewrite <- (total_size_needed_split file_contents).
  rewrite <- (split_file_nil_iff file_contents), <- len_zero_iff.
  pose proof (split_file_nonempty file_contents) as Hblocks.
  generalize dependent (split_file_into_blocks file_contents). intros blocks_data Hblocks.
  case_decide as Hlen; [simpl; split_and!; [split; auto|done|tauto]|].
  case_decide as Hfits.
  { simpl. split_and!; [split; auto|done|]. intros _ _ ?. lia. }
  assert (dict.keys (nodes st) ≠ []) as Hne.
  { intros Hnil. destruct (nodes st) as [|kv ns] eqn:Hns; [|done].
    rewrite available_storage_nil in Hfits.
    destruct blocks_data as [|[data checksum] blocks_data]; [done|].
    rewrite total_size_needed_cons in Hfits.
    assert (0 ≤ total_size_needed blocks_data).
    { unfold total_size_needed, REPLICATION_FACTOR. rewrite sum_block_sizes.
      pose proof (len_nonneg (concat blocks_data.*1)). lia. }
    apply Forall_cons in Hblocks as [Hdata _]. simpl in Hdata.
    destruct data; [done|]. unfold len, REPLICATION_FACTOR in *. simpl in *. lia. }
  split_and!.
  - destruct (distribute_loop_exit file 0 blocks_data st Hne) as [Hexit|Hexit];
      destruct (distribute_loop _ _ _ _) as [exit st']; simpl in *; subst exit; simpl;
      (split; [done|intros [?|?]; [done|lia]]).
  - intros _. split; [done|lia].
  - intros Hdirs _ _.
    by destruct (distribute_loop_committed file 0 blocks_data st Hne Hdirs) as (st' & -> & _).
Qed.

(** X2. [distribute_file_blocks] answers [False] exactly when the file is
    empty or its length times [REPLICATION_FACTOR] exceeds the free storage
    summed over the nodes. With the directory of every registered node in
    place it answers [True] in every other case, and only then. *)
Theorem distribute_succeeds_iff st file_contents file :
  ((distribute_file_blocks st file_contents file).1 = Returns false ↔
   file_contents = []
   ∨ len file_contents * REPLICATION_FACTOR > available_storage (nodes st))
  ∧ (directories_exist st →
     (distribute_file_blocks st file_contents file).1 = Returns true ↔
     file_contents ≠ []
     ∧ len file_contents * REPLICATION_FACTOR ≤ available_storage (nodes st)).
Proof.
  destruct (distribute_answer st file_contents file) as (Hfalse & Htrue & Hdirs).
  split; [done|]. intros Hexist. split; [done|]. intros [? ?]. by apply Hdirs.
Qed.

Lemma set_used_storage_id (f : Z → Z) node :
  f (StorageVirtualNode.used_storage node) = StorageVirtualNode.used_storage node →
  StorageVirtualNode.set_used_storage f node = node.
Proof. destruct node. unfold StorageVirtualNode.set_used_storage. simpl. by intros ->. Qed.

Lemma set_used_storage_compose (f g : Z → Z) node :
  StorageVirtualNode.set_used_storage g (StorageVirtualNode.set_used_storage f node) =
  StorageVirtualNode.set_used_storage (λ used, g (f used)) node.
Proof. done. Qed.

Lemma set_used_storage_ext (f g : Z → Z) node :
  f (StorageVirtualNode.used_storage node) = g (StorageVirtualNode.used_storage node) →
  StorageVirtualNode.set_used_storage f node = StorageVirtualNode.set_used_storage g node.
Proof. unfold StorageVirtualNode.set_used_storage. by intros ->. Qed.

Lemma credit_nil ns : credit [] ns = ns.
Proof.
  unfold credit. rewrite <- (list_fmap_id ns) at 2. apply list_fmap_ext.
  intros i [k node] _. simpl. f_equal. apply set_used_storage_id.
  unfold assigned_bytes. simpl. unfold sum. simpl. lia.
Qed.

Lemma credit_app rows rows' ns : credit rows' (credit rows ns) = credit (rows ++ rows') ns.
Proof.
  unfold credit. rewrite <- list_fmap_compose. apply list_fmap_ext.
  intros i [k node] _. simpl. f_equal. rewrite set_used_storage_compose.
  apply set_used_storage_ext. rewrite assigned_bytes_app. lia.
Qed.

Lemma update_credit x r k ns :
  FileBlock.node_id r = k → FileBlock.block_size r = x →
  dict.update (StorageVirtualNode.set_used_storage (λ used, used + x)) k ns = credit [r] ns.
Proof.
  intros Hk Hx. unfold dict.update, credit. apply list_fmap_ext.
  intros i [k' node] _. simpl. rewrite assigned_bytes_cons.
  change (assigned_bytes [] k') with 0. rewrite Hk, Hx.
  destruct (decide (k' = k)) as [->|Hne].
  - rewrite decide_True by done. f_equal. apply set_used_storage_ext. lia.
  - rewrite decide_False by done. f_equal. symmetry. apply set_used_storage_id. lia.
Qed.

Lemma keys_credit rows ns : dict.keys (credit rows ns) = dict.keys ns.
Proof.
  unfold dict.keys, credit. rewrite <- list_fmap_compose. by apply list_fmap_ext.
Qed.

Lemma store_block_location st data node_id file_id block_id path :
  (store_block st data node_id file_id block_id).1 = Returns path →
  path = VDisk node_id (block_identifier file_id block_id)
  ∨ path = BlockFile node_id (block_filename file_id block_id).
Proof.
  unfold store_block. destruct (_ : bool * state) as [[] ?]; simpl.
  - intros [= <-]. auto.
  - destruct (write_file _ _ _ _); [|done]. intros [= <-]. auto.
Qed.

(** What one copy adds: one row of the file, credited to its node, or
    nothing when [store_block] raised. *)
Lemma place_copy_credit file block_id data checksum replica st node_id :
  ∃ new,
    db (place_copy file block_id data checksum replica st node_id).2 = db st ++ new
    ∧ nodes (place_copy file block_id data checksum replica st node_id).2 =
      credit new (nodes st)
    ∧ Forall (λ r, added_for file r ∧ FileBlock.block_size r = len data) new
    ∧ ((place_copy file block_id data checksum replica st node_id).1 = Returns () →
       FileBlock.node_id <$> new = [node_id]).
Proof.
  destruct (place_copy _ _ _ _ _ _ _) as [[[]|] st'] eqn:Hcopy; simpl.
  2:{ destruct (place_copy_raised _ _ _ _ _ _ _ _ Hcopy) as [-> ->].
      exists []. by rewrite app_nil_r, credit_nil. }
  destruct (place_copy_db _ _ _ _ _ _ _ _ Hcopy) as (path & Hpath & Hdb).
  eexists [_]. split; [exact Hdb|]. split.
  { rewrite (place_copy_nodes _ _ _ _ _ _ _ _ Hcopy). by apply update_credit. }
  split; [|done]. constructor; [|done].
  split; [|done]. split; [done|]. split; [apply len_nonneg|].
  unfold well_named. simpl.
  destruct (store_block_location _ _ _ _ _ _ Hpath) as [-> | ->]; auto.
Qed.

Lemma place_replicas_credit file block_id data checksum node_ids st :
  ∃ new,
    db (place_replicas file block_id data checksum st node_ids).2 = db st ++ new
    ∧ nodes (place_replicas file block_id data checksum st node_ids).2 =
      credit new (nodes st)
    ∧ Forall (λ r, added_for file r ∧ FileBlock.block_size r = len data) new
    ∧ ((place_replicas file block_id data checksum st node_ids).1 = Returns () →
       FileBlock.node_id <$> new = node_ids).
Proof.
  revert st. induction node_ids as [|k node_ids IH]; intros st.
  { exists []. by rewrite app_nil_r, credit_nil. }
  simpl.
  destruct (place_copy_credit file block_id data checksum true st k)
    as (new1 & Hdb & Hn & Hnew1 & Hnodes1).
  destruct (place_copy _ _ _ _ _ _ _) as [[[]|] st1]; simpl in *.
  2:{ exists new1. by split_and!. }
  destruct (IH st1) as (new & Hdb' & Hn' & Hnew & Hnodes).
  exists (new1 ++ new). rewrite Hdb', Hdb, Hn', Hn, credit_app, <- app_assoc.
  split_and!; [done|done|by apply Forall_app|].
  intros Hret. by rewrite fmap_app, Hnodes1, Hnodes.
Qed.

Lemma distribute_loop_credit file block_id blocks_data st :
  ∃ new,
    db (distribute_loop file block_id blocks_data st).2 = db st ++ new
    ∧ nodes (distribute_loop file block_id blocks_data st).2 = credit new (nodes st)
    ∧ Forall (λ r, added_for file r
                   ∧ ∃ block, block ∈ blocks_data
                              ∧ FileBlock.block_size r = len block.1) new.
Proof.
  revert block_id st.
  induction blocks_data as [|[data checksum] blocks_data IH]; intros block_id st.
  { exists []. by rewrite app_nil_r, credit_nil. }
  simpl. destruct (select_nodes_for_block _ _ _) as [|primary replicas].
  { exists []. by rewrite app_nil_r, credit_nil. }
  assert (∀ new : list FileBlock.t,
            Forall (λ r, added_for file r ∧ FileBlock.block_size r = len data) new →
            Forall (λ r, added_for file r
                         ∧ ∃ block, block ∈ (data, checksum) :: blocks_data
                                    ∧ FileBlock.block_size r = len block.1) new) as Hhere.
  { intros new Hnew. eapply Forall_impl; [exact Hnew|]. intros r' [Hr' Hsize'].
    split; [done|]. exists (data, checksum). split; [left|done]. }
  destruct (place_copy_credit file block_id data checksum false st primary)
    as (new0 & Hdb & Hn & Hnew0 & _).
  destruct (place_copy _ _ _ _ _ _ _) as [[[]|] st1]; simpl in *.
  2:{ exists new0. split_and!; [done..|]. by apply Hhere. }
  destruct (place_replicas_credit file block_id data checksum replicas st1)
    as (new1 & Hdb1 & Hn1 & Hnew1 & _).
  destruct (place_replicas _ _ _ _ _ _) as [[[]|] st2]; simpl in *.
  2:{ exists (new0 ++ new1). rewrite Hdb1, Hdb, Hn1, Hn, credit_app, <- app_assoc.
      split_and!; [done..|]. apply Hhere. by apply Forall_app. }
  destruct (IH (block_id + 1) st2) as (new2 & Hdb2 & Hn2 & Hnew2).
  exists (new0 ++ new1 ++ new2).
  rewrite Hdb2, Hdb1, Hdb, Hn2, Hn1, Hn, !credit_app, <- !app_assoc.
  split; [done|]. split; [done|]. apply Forall_app. split; [by apply Hhere|].
  apply Forall_app. split; [by apply Hhere|].
  eapply Forall_impl; [exact Hnew2|]. intros r' [Hr' (block & Hin & Hsize')].
  split; [done|]. exists block. split; [by right|done].
Qed.

(** What a call adds: rows of the file, each of the size of a block of
    the file, and their bytes on the counters of their nodes. *)
Lemma distribute_adds st file_contents file :
  ∃ new,
    db (distribute_file_blocks st file_contents file).2 = db st ++ new
    ∧ Forall (λ r, added_for file r ∧ 0 < FileBlock.block_size r) new
    ∧ nodes (distribute_file_blocks st file_contents file).2 = credit new (nodes st).
Proof.
  unfold distribute_file_blocks, distribute_file_blocks_exit.
  pose proof (split_file_nonempty file_contents) as Hblocks.
  generalize dependent (split_file_into_blocks file_contents). intros blocks_data Hblocks.
  assert (∃ new : list FileBlock.t,
            db st = db st ++ new
            ∧ Forall (λ r, added_for file r ∧ 0 < FileBlock.block_size r) new
            ∧ nodes st = credit new (nodes st)) as Hsame.
  { exists []. by rewrite app_nil_r, credit_nil. }
  case_decide; [done|]. case_decide; [done|].
  destruct (distribute_loop_credit file 0 blocks_data st) as (new & Hdb & Hn & Hnew).
  destruct (distribute_loop _ _ _ _) as [exit st']. simpl in *. exists new.
  split; [done|]. split; [|done].
  eapply Forall_impl; [exact Hnew|]. intros r [Hr (block & Hin & ->)]. split; [done|].
  eapply Forall_forall in Hblocks; [|exact Hin].
  destruct (block.1); [done|]. unfold len. simpl. lia.
Qed.

Lemma distribute_adds_rows st file_contents file :
  ∃ new,
    db (distribute_file_blocks st file_contents file).2 = db st ++ new
    ∧ Forall (added_for file) new
    ∧ nodes (distribute_file_blocks st file_contents file).2 = credit new (nodes st).
Proof.
  destruct (distribute_adds st file_contents file) as (new & Hdb & Hnew & Hn).
  exists new. split; [done|]. split; [|done].
  eapply Forall_impl; [exact Hnew|]. by intros r [? _].
Qed.

(** X3. What a call of [distribute_file_blocks] adds: the rows of the
    table stay, in their order, in front of the new rows; every new row
    refers to the file, has a positive size and carries the name of its
    block; every node's [used_storage] has grown by the sizes of the new rows
    assigned to it, and nothing else of the registry has changed. *)
Theorem distribute_rows_and_counters st file_contents file :
  ∃ new,
    db (distribute_file_blocks st file_contents file).2 = db st ++ new
    ∧ Forall (λ r, FileBlock.file_id r = File.id file
                   ∧ 0 < FileBlock.block_size r
                   ∧ well_named file r) new
    ∧ nodes (distribute_file_blocks st file_contents file).2 = credit new (nodes st).
Proof.
  destruct (distribute_adds st file_contents file) as (new & Hdb & Hnew & Hn).
  exists new. split; [done|]. split; [|done].
  eapply Forall_impl; [exact Hnew|]. by intros r [(? & _ & ?) ?].
Qed.

(** ** Deleting *)

Lemma delete_block_update st block :
  nodes (delete_block st block) =
  dict.update
    (StorageVirtualNode.set_used_storage
       (λ used, 0 `max` (used - FileBlock.block_size block)))
    (FileBlock.node_id block) (nodes st).
Proof.
  rewrite delete_block_nodes. destruct (dict.mem _ _) eqn:Hmem; [done|].
  symmetry. apply update_absent. unfold dict.mem in Hmem.
  by apply bool_decide_eq_false in Hmem.
Qed.

Lemma debit_nil ns : debit [] ns = ns.
Proof.
  unfold debit. rewrite <- (list_fmap_id ns) at 2. apply list_fmap_ext.
  intros i [k node] _. simpl. f_equal. apply set_used_storage_id.
  unfold assigned_bytes. simpl. unfold sum. simpl. lia.
Qed.

(** While the counters cover the bytes of the rows walked, the floor at
    zero of [delete_file_blocks] is never reached. *)
Lemma delete_blocks_debit blocks st :
  (∀ r, r ∈ blocks → 0 ≤ FileBlock.block_size r) →
  (∀ k node, (k, node) ∈ nodes st →
     assigned_bytes blocks k ≤ StorageVirtualNode.used_storage node) →
  nodes (foldl delete_block st blocks) = debit blocks (nodes st).
Proof.
  revert st. induction blocks as [|b blocks IH]; intros st Hsz Hcover.
  { by rewrite debit_nil. }
  assert (0 ≤ FileBlock.block_size b) as Hb by (apply Hsz; left).
  assert (∀ k, 0 ≤ assigned_bytes blocks k) as Hrest.
  { intros k. apply assigned_bytes_nonneg. intros r Hr. apply Hsz. by right. }
  simpl. rewrite IH.
  - rewrite delete_block_update. unfold debit, dict.update.
    rewrite <- list_fmap_compose. apply list_fmap_ext.
    intros i [k node] Hi. simpl.
    apply list_elem_of_lookup_2 in Hi. pose proof (Hcover _ _ Hi) as Hk.
    rewrite assigned_bytes_cons in Hk |- *. pose proof (Hrest k).
    destruct (decide (k = FileBlock.node_id b)) as [->|Hne].
    + rewrite decide_True in Hk |- * by done. simpl. f_equal.
      rewrite set_used_storage_compose. apply set_used_storage_ext. lia.
    + rewrite (decide_False (P := FileBlock.node_id b = k)) in Hk |- * by congruence.
      simpl. f_equal; try (apply set_used_storage_ext; lia).
  - intros r Hr. apply Hsz. by right.
  - intros k node'. rewrite delete_block_update, elem_of_update.
    intros (node & Hin & ->). pose proof (Hcover _ _ Hin) as Hk.
    rewrite assigned_bytes_cons in Hk. pose proof (Hrest k).
    destruct (decide (k = FileBlock.node_id b)) as [->|Hne].
    + rewrite decide_True in Hk by done. simpl. lia.
    + rewrite (decide_False (P := FileBlock.node_id b = k)) in Hk by congruence. lia.
Qed.

Lemma debit_credit rows ns : debit rows (credit rows ns) = ns.
Proof.
  unfold debit, credit. rewrite <- list_fmap_compose.
  rewrite <- (list_fmap_id ns) at 2. apply list_fmap_ext.
  intros i [k node] _. simpl. f_equal. rewrite set_used_storage_compose.
  apply set_used_storage_id. lia.
Qed.


Lemma filter_app_file (rows new : list FileBlock.t) file :
  Forall (added_for file) new →
  rows_of rows file = [] →
  filter (λ r, FileBlock.file_id r = File.id file) (rows ++ new) = new
  ∧ filter (λ r, FileBlock.file_id r ≠ File.id file) (rows ++ new) = rows.
Proof.
  intros Hnew Hrows. rewrite !filter_app. unfold rows_of in Hrows. rewrite Hrows.
  rewrite (filter_all (λ r, FileBlock.file_id r = File.id file) new).
  2:{ eapply Forall_impl; [exact Hnew|]. by intros r [? _]. }
  rewrite (filter_none (λ r, FileBlock.file_id r ≠ File.id file) new).
  2:{ eapply Forall_impl; [exact Hnew|]. intros r [? _]. tauto. }
  rewrite app_nil_r. split; [done|].
  apply filter_all. apply Forall_forall. intros r Hr Hid.
  assert (r ∈ filter (λ r, FileBlock.file_id r = File.id file) rows) as Hin
    by by apply list_elem_of_filter.
  rewrite Hrows in Hin. by apply elem_of_nil in Hin.
Qed.

(** ** What a deletion leaves *)

Lemma delete_absent_file st file :
  rows_of (db st) file = [] → delete_file_blocks st file = (true, st).
Proof.
  intros Hrows. unfold delete_file_blocks. unfold rows_of in Hrows. rewrite Hrows. simpl.
  f_equal. destruct st as [ns flag disks fs rows]. unfold set_db. simpl in *. f_equal.
  apply filter_all. apply Forall_forall. intros r Hr Hid.
  assert (r ∈ filter (λ r, FileBlock.file_id r = File.id file) rows) as Hin
    by by apply list_elem_of_filter.
  rewrite Hrows in Hin. by apply elem_of_nil in Hin.
Qed.

Lemma delete_file_rows st file :
  db (delete_file_blocks st file).2 =
  filter (λ r, FileBlock.file_id r ≠ File.id file) (db st).
Proof. unfold delete_file_blocks. simpl. by rewrite delete_blocks_db. Qed.

Lemma rows_of_deleted st file : rows_of (db (delete_file_blocks st file).2) file = [].
Proof.
  rewrite delete_file_rows. unfold rows_of. rewrite list_filter_filter.
  apply filter_none. apply Forall_forall. tauto.
Qed.

(** X4. After [delete_file_blocks] no row of the file is left, a second
    [delete_file_blocks] changes nothing, and [reconstruct_file] answers
    [False] without opening the output. *)
Theorem delete_file_blocks_idempotent st file :
  rows_of (db (delete_file_blocks st file).2) file = []
  ∧ delete_file_blocks (delete_file_blocks st file).2 file =
    (true, (delete_file_blocks st file).2)
  ∧ reconstruct_file (delete_file_blocks st file).2 file = (false, None).
Proof.
  split_and!; [apply rows_of_deleted|apply delete_absent_file, rows_of_deleted|].
  unfold reconstruct_file. by rewrite query_primaries_rows_of, rows_of_deleted.
Qed.


(** ** The storage a distribution takes *)

Lemma total_capacity_credit rows ns : total_capacity (credit rows ns) = total_capacity ns.
Proof.
  unfold total_capacity, credit, dict.values. by rewrite <- !list_fmap_compose.
Qed.

Lemma place_replicas_takes file block_id data checksum node_ids st st' :
  dict.wf (nodes st) →
  (∀ k, k ∈ node_ids → k ∈ dict.keys (nodes st)) →
  place_replicas file block_id data checksum st node_ids = (Returns (), st') →
  available_storage (nodes st') = available_storage (nodes st) - len data * len node_ids.
Proof.
  revert st. induction node_ids as [|k node_ids IH]; intros st Hwf Hin.
  { intros [= <-]. unfold len. simpl. lia. }
  simpl. destruct (place_copy _ _ _ _ _ _ _) as [[[]|] st1] eqn:Hcopy; [|done].
  pose proof (place_copy_keys file block_id data checksum true st k) as Hkeys.
  rewrite Hcopy in Hkeys. simpl in Hkeys.
  intros Hcopies. rewrite (IH st1); [| |  |done].
  - rewrite (place_copy_nodes _ _ _ _ _ _ _ _ Hcopy), available_storage_update;
      [|done|apply Hin; left].
    rewrite len_cons. lia.
  - unfold dict.wf. by rewrite Hkeys.
  - intros k' Hk'. rewrite Hkeys. apply Hin. by right.
Qed.

Lemma distribute_loop_takes file block_id blocks_data st st' :
  dict.wf (nodes st) → dict.keys (nodes st) ≠ [] →
  distribute_loop file block_id blocks_data st = (Committed, st') →
  available_storage (nodes st') =
  available_storage (nodes st)
  - sum ((λ block, len block.1) <$> blocks_data)
    * (REPLICATION_FACTOR `min` len (dict.keys (nodes st))).
Proof.
  revert block_id st.
  induction blocks_data as [|[data checksum] blocks_data IH]; intros block_id st Hwf Hne.
  { intros [= <-]. unfold sum. simpl. lia. }
  change (sum (?f <$> (data, checksum) :: blocks_data))
    with (len data + sum (f <$> blocks_data)).
  simpl.
  pose proof (select_default_length (nodes st) block_id Hne) as Hlen.
  pose proof (copies_positive (nodes st) Hne) as Hpos.
  destruct (select_nodes_for_block _ _ _) as [|primary replicas] eqn:Hsel; [done|].
  assert (∀ k, k ∈ primary :: replicas → k ∈ dict.keys (nodes st)) as Hin.
  { intros k Hk. rewrite <- Hsel in Hk. by apply select_nodes_elem in Hk. }
  destruct (place_copy _ _ _ _ _ _ _) as [[[]|] st1] eqn:Hcopy; [|done].
  destruct (place_replicas _ _ _ _ _ _) as [[[]|] st2] eqn:Hcopies; [|done].
  pose proof (place_copy_keys file block_id data checksum false st primary) as Hkeys1.
  rewrite Hcopy in Hkeys1. simpl in Hkeys1.
  pose proof (place_replicas_keys file block_id data checksum replicas st1) as Hkeys2.
  rewrite Hcopies in Hkeys2. simpl in Hkeys2.
  assert (dict.keys (nodes st2) = dict.keys (nodes st)) as Hkeys by congruence.
  assert (available_storage (nodes st2) =
          available_storage (nodes st) - len data * len (primary :: replicas)) as Hav.
  { rewrite (place_replicas_takes _ _ _ _ _ _ _ ltac:(unfold dict.wf; by rewrite Hkeys1)
               ltac:(intros k Hk; rewrite Hkeys1; apply Hin; by right) Hcopies).
    rewrite (place_copy_nodes _ _ _ _ _ _ _ _ Hcopy), available_storage_update;
      [|done|apply Hin; left].
    rewrite len_cons. lia. }
  intros Hloop. rewrite (IH (block_id + 1) st2), Hav, Hkeys; [| | |done].
  - assert (len (primary :: replicas) = REPLICATION_FACTOR `min` len (dict.keys (nodes st)))
      as ->.
    { unfold len at 1. rewrite Hlen. clear -Hpos. lia. }
    clear. lia.
  - unfold dict.wf. by rewrite Hkeys.
  - by rewrite Hkeys.
Qed.

(** X5. A successful [distribute_file_blocks] on a registry without
    duplicate keys raises the [used_storage] summed over the nodes by the
    length of the file times the smaller of [REPLICATION_FACTOR] and the
    number of nodes; the total capacity and the node keys stay. *)
Theorem distribute_storage_taken st file_contents file st' :
  dict.wf (nodes st) →
  distribute_file_blocks st file_contents file = (Returns true, st') →
  total_used (nodes st') =
    total_used (nodes st)
    + len file_contents * (REPLICATION_FACTOR `min` len (dict.keys (nodes st)))
  ∧ total_capacity (nodes st') = total_capacity (nodes st)
  ∧ dict.keys (nodes st') = dict.keys (nodes st).
Proof.
  intros Hwf Hdist.
  destruct (distribute_adds_rows st file_contents file) as (new & _ & _ & Hn).
  rewrite Hdist in Hn. simpl in Hn.
  assert (total_capacity (nodes st') = total_capacity (nodes st)) as Hcap
    by by rewrite Hn, total_capacity_credit.
  assert (dict.keys (nodes st') = dict.keys (nodes st)) as Hkeys
    by by rewrite Hn, keys_credit.
  split; [|done].
  revert Hdist. unfold distribute_file_blocks, distribute_file_blocks_exit.
  pose proof (sum_block_sizes (split_file_into_blocks file_contents)) as Hsum.
  rewrite split_file_concat in Hsum. rewrite <- Hsum. clear Hsum.
  pose proof (split_file_nonempty file_contents) as Hblocks.
  generalize dependent (split_file_into_blocks file_contents). intros blocks_data Hblocks.
  case_decide as Hlen; [done|]. case_decide as Hfits; [done|].
  destruct (decide (dict.keys (nodes st) = [])) as [Hnil|Hne].
  { destruct blocks_data as [|[data checksum] blocks_data]; [done|].
    simpl. unfold select_nodes_for_block. rewrite Hnil. done. }
  pose proof (distribute_loop_takes file 0 blocks_data st) as Hav.
  destruct (distribute_loop _ _ _ _) as [exit st1]. intros Hexit.
  assert (exit = Committed ∧ st1 = st') as [-> ->] by (by destruct exit; simplify_eq).
  specialize (Hav st' Hwf Hne eq_refl).
  rewrite !available_storage_balance, Hcap in Hav.
  clear -Hav. lia.
Qed.



(** ** Block names *)

Lemma string_app_cons a (s1 s2 : string) : String a s1 +:+ s2 = String a (s1 +:+ s2).
Proof. done. Qed.

Lemma string_app_nil_l (s : string) : EmptyString +:+ s = s.
Proof. done. Qed.

Lemma string_app_assoc (s1 s2 s3 : string) : (s1 +:+ s2) +:+ s3 = s1 +:+ s2 +:+ s3.
Proof. induction s1 as [|a s1 IH]; [done|]. by rewrite !string_app_cons, IH. Qed.

Lemma underscore_free_app (s1 s2 : string) :
  underscore_free (s1 +:+ s2) ↔ underscore_free s1 ∧ underscore_free s2.
Proof.
  induction s1 as [|a s1 IH].
  - rewrite string_app_nil_l. simpl. tauto.
  - rewrite string_app_cons. simpl. rewrite IH. tauto.
Qed.

Lemma pretty_N_go_underscore_free x s :
  underscore_free s → underscore_free (pretty_N_go x s).
Proof.
  revert s. induction (N.lt_wf_0 x) as [x _ IH]; intros s Hs.
  assert (x = 0 ∨ 0 < x)%N as [->|Hx] by lia.
  - by rewrite pretty_N_go_0.
  - rewrite pretty_N_go_step by done. apply IH.
    + by apply N.div_lt.
    + split; [|done]. unfold pretty_N_char. by repeat case_match.
Qed.

(** The decimal rendering of an integer has no underscore. *)
Lemma pretty_Z_underscore_free (z : Z) : underscore_free (pretty z).
Proof.
  assert (∀ p : positive, underscore_free (pretty p)) as Hpos.
  { intros p. unfold pretty, pretty_positive, pretty, pretty_N.
    case_decide; [done|]. by apply pretty_N_go_underscore_free. }
  destruct z as [|p|p]; unfold pretty, pretty_Z.
  - done.
  - apply Hpos.
  - apply underscore_free_app. split; [done|apply Hpos].
Qed.

(** A name is split in one way only at its last underscore. *)
Lemma split_at_last_underscore (s1 s2 d1 d2 : string) :
  underscore_free d1 → underscore_free d2 →
  s1 +:+ "_" +:+ d1 = s2 +:+ "_" +:+ d2 → s1 = s2 ∧ d1 = d2.
Proof.
  intros Hd1 Hd2. revert s2.
  induction s1 as [|a s1 IH]; intros [|b s2] Heq;
    rewrite ?string_app_cons, ?string_app_nil_l in Heq.
  - by injection Heq as ->.
  - injection Heq as <- ->. exfalso.
    apply underscore_free_app in Hd1 as [_ [Hd1 _]]. done.
  - injection Heq as -> <-. exfalso.
    apply underscore_free_app in Hd2 as [_ [Hd2 _]]. done.
  - injection Heq as -> Heq. apply IH in Heq as [-> ->]. done.
Qed.

Lemma block_identifier_inj2 file_id file_id' i j :
  block_identifier file_id i = block_identifier file_id' j → file_id = file_id' ∧ i = j.
Proof.
  unfold block_identifier.
  change ("_block_" +:+ pretty i) with ("_block" +:+ "_" +:+ pretty i).
  change ("_block_" +:+ pretty j) with ("_block" +:+ "_" +:+ pretty j).
  rewrite <- !(string_app_assoc _ "_block"). intros Heq.
  apply split_at_last_underscore in Heq as [Hf Hp];
    [|apply pretty_Z_underscore_free..].
  apply string_app_inv_tail in Hf. by apply (inj pretty) in Hp.
Qed.

Lemma block_filename_inj2 file_id file_id' i j :
  block_filename file_id i = block_filename file_id' j → file_id = file_id' ∧ i = j.
Proof.
  unfold block_filename.
  change ("_block_" +:+ pretty i +:+ ".dat")
    with ("_block" +:+ "_" +:+ pretty i +:+ ".dat").
  change ("_block_" +:+ pretty j +:+ ".dat")
    with ("_block" +:+ "_" +:+ pretty j +:+ ".dat").
  rewrite <- !(string_app_assoc _ "_block"). intros Heq.
  assert (∀ z : Z, underscore_free (pretty z +:+ ".dat")) as Hdat.
  { intros z. apply underscore_free_app. split; [apply pretty_Z_underscore_free|].
    simpl. by repeat split. }
  apply split_at_last_underscore in Heq as [Hf Hp]; [|apply Hdat..].
  apply string_app_inv_tail in Hf. apply string_app_inv_tail in Hp.
  by apply (inj pretty) in Hp.
Qed.

(** X6. Block names are unambiguous: two blocks have the same key on a
    virtual disk, or the same name of a block file, only if they have the
    same [file_id] and the same [block_id]; the name of the block file is the
    key followed by [.dat]. *)
Theorem block_names_unambiguous file_id file_id' block_id block_id' :
  (block_identifier file_id block_id = block_identifier file_id' block_id'
   ↔ file_id = file_id' ∧ block_id = block_id')
  ∧ (block_filename file_id block_id = block_filename file_id' block_id'
     ↔ file_id = file_id' ∧ block_id = block_id')
  ∧ block_filename file_id block_id = block_identifier file_id block_id +:+ ".dat".
Proof.
  split_and!.
  - split; [apply block_identifier_inj2|by intros [-> ->]].
  - split; [apply block_filename_inj2|by intros [-> ->]].
  - unfold block_filename, block_identifier. by rewrite !string_app_assoc.
Qed.


(** ** Storing and retrieving one block *)

(** X7. A non-empty block is read back as it was stored: when
    [store_block] returns (it raises only where the block goes to a file and
    the directory of the node is missing) and the virtual disk of the node
    held no bytes under the key of the block (or the virtual disks are off),
    [retrieve_block] after [store_block] answers the stored bytes, whether
    the disk took them or the block file did. *)
Theorem store_then_retrieve `{!VirtualDiskManagerLaws}
    st data node_id file_id block_id path :
  data ≠ [] →
  truthy (if use_virtual_disk st then
            retrieve_block_from_disk (vdisk_manager st) node_id
              (block_identifier file_id block_id)
          else None) = false →
  (store_block st data node_id file_id block_id).1 = Returns path →
  retrieve_block (store_block st data node_id file_id block_id).2
    node_id file_id block_id = Some data.
Proof.
  intros Hdata Hdisk. unfold store_block, retrieve_block.
  destruct (use_virtual_disk st) eqn:Hflag; simpl.
  - destruct (store_block_in_disk _ _ _ _) as [[] d] eqn:Hstore; simpl.
    + rewrite Hflag, (retrieve_stored _ _ _ _ _ Hstore). by rewrite truthy_Some.
    + destruct (write_file _ _ _ _) as [fs|] eqn:Hwrite; [|done]. simpl.
      rewrite Hflag, (retrieve_rejected _ _ _ _ _ Hstore), Hdisk. intros _.
      by eapply read_write_same.
  - destruct (write_file _ _ _ _) as [fs|] eqn:Hwrite; [|done]. simpl.
    rewrite Hflag. simpl. intros _. by eapply read_write_same.
Qed.

Lemma store_block_retrieve_frame `{!VirtualDiskManagerLaws}
    st data node_id file_id block_id node_id' file_id' block_id' :
  (node_id', file_id', block_id') ≠ (node_id, file_id, block_id) →
  retrieve_block (store_block st data node_id file_id block_id).2
    node_id' file_id' block_id' =
  retrieve_block st node_id' file_id' block_id'.
Proof.
  intros Hne.
  assert ((node_id', block_identifier file_id' block_id')
          ≠ (node_id, block_identifier file_id block_id)) as Hkey.
  { intros [= -> Hk]. apply block_identifier_inj2 in Hk as [-> ->]. done. }
  assert ((node_id', block_filename file_id' block_id')
          ≠ (node_id, block_filename file_id block_id)) as Hname.
  { intros [= -> Hk]. apply block_filename_inj2 in Hk as [-> ->]. done. }
  unfold store_block, retrieve_block.
  destruct (use_virtual_disk st) eqn:Hflag; simpl.
  - destruct (store_block_in_disk _ _ _ _) as [[] d] eqn:Hstore; simpl.
    + by rewrite Hflag, (retrieve_other _ _ _ _ _ _ _ _ Hstore Hkey).
    + destruct (write_file _ _ _ _) as [fs|] eqn:Hwrite; simpl;
        rewrite Hflag, (retrieve_other _ _ _ _ _ _ _ _ Hstore Hkey); [|done].
      by rewrite (read_write_other _ _ _ _ _ _ _ Hwrite).
  - destruct (write_file _ _ _ _) as [fs|] eqn:Hwrite; simpl; rewrite Hflag; [|done].
    simpl. by rewrite (read_write_other _ _ _ _ _ _ _ Hwrite).
Qed.

(** X8. [store_block] touches one block only, whether it returns or
    raises: the registry, the rows and the flag stay, and [retrieve_block]
    answers as before for every other node, file or block index. *)
Theorem store_block_frame `{!VirtualDiskManagerLaws}
    st data node_id file_id block_id :
  let st' := (store_block st data node_id file_id block_id).2 in
  nodes st' = nodes st ∧ db st' = db st ∧ use_virtual_disk st' = use_virtual_disk st
  ∧ ∀ node_id' file_id' block_id',
      (node_id', file_id', block_id') ≠ (node_id, file_id, block_id) →
      retrieve_block st' node_id' file_id' block_id' =
      retrieve_block st node_id' file_id' block_id'.
Proof.
  cbv zeta. split_and!.
  - apply store_block_nodes.
  - apply store_block_db.
  - apply store_block_flag.
  - intros. by apply store_block_retrieve_frame.
Qed.

(** ** A distribution leaves the other files alone *)

Lemma place_copy_other_file `{!VirtualDiskManagerLaws}
    file block_id data checksum replica st node_id node_id' file_id' i :
  file_id' ≠ File.file_id file →
  retrieve_block (place_copy file block_id data checksum replica st node_id).2
    node_id' file_id' i =
  retrieve_block st node_id' file_id' i.
Proof.
  intros Hne. rewrite place_copy_retrieve. apply store_block_retrieve_frame. congruence.
Qed.

Lemma place_replicas_other_file `{!VirtualDiskManagerLaws}
    file block_id data checksum node_ids st node_id' file_id' i :
  file_id' ≠ File.file_id file →
  retrieve_block (place_replicas file block_id data checksum st node_ids).2
    node_id' file_id' i =
  retrieve_block st node_id' file_id' i.
Proof.
  intros Hne. revert st. induction node_ids as [|k node_ids IH]; intros st; [done|].
  simpl.
  pose proof (place_copy_other_file file block_id data checksum true st k
                node_id' file_id' i Hne) as Hcopy.
  destruct (place_copy _ _ _ _ _ _ _) as [[[]|] st1]; simpl in *; [|done].
  by rewrite IH.
Qed.

Lemma distribute_loop_other_file `{!VirtualDiskManagerLaws}
    file block_id blocks_data st node_id' file_id' i :
  file_id' ≠ File.file_id file →
  retrieve_block (distribute_loop file block_id blocks_data st).2 node_id' file_id' i =
  retrieve_block st node_id' file_id' i.
Proof.
  intros Hne. revert block_id st.
  induction blocks_data as [|[data checksum] blocks_data IH]; intros block_id st; [done|].
  simpl. destruct (select_nodes_for_block _ _ _) as [|primary replicas]; [done|].
  pose proof (place_copy_other_file file block_id data checksum false st primary
                node_id' file_id' i Hne) as Hcopy.
  destruct (place_copy _ _ _ _ _ _ _) as [[[]|] st1]; simpl in *; [|done].
  pose proof (place_replicas_other_file file block_id data checksum replicas st1
                node_id' file_id' i Hne) as Hcopies.
  destruct (place_replicas _ _ _ _ _ _) as [[[]|] st2]; simpl in *; [|congruence].
  rewrite IH. congruence.
Qed.

Lemma distribute_other_file `{!VirtualDiskManagerLaws}
    st file_contents file node_id' file_id' i :
  file_id' ≠ File.file_id file →
  retrieve_block (distribute_file_blocks st file_contents file).2 node_id' file_id' i =
  retrieve_block st node_id' file_id' i.
Proof.
  intros Hne. unfold distribute_file_blocks, distribute_file_blocks_exit.
  generalize (split_file_into_blocks file_contents). intros blocks_data.
  case_decide; [done|]. case_decide; [done|].
  pose proof (distribute_loop_other_file file 0 blocks_data st node_id' file_id' i Hne).
  by destruct (distribute_loop _ _ _ _).
Qed.

(** [reconstruct_file] reads the rows of the file and the bytes stored
    under the names of its blocks, and nothing else. *)
Lemma query_replicas_rows_of rows file block_id :
  query_replicas rows file block_id =
  filter (λ r, FileBlock.block_id r = block_id ∧ FileBlock.is_replica r = true)
    (rows_of rows file).
Proof.
  unfold query_replicas, rows_of. rewrite list_filter_filter.
  apply filter_ext_in. intros r _. tauto.
Qed.

Lemma reconstruct_block_ext st1 st2 file block :
  rows_of (db st1) file = rows_of (db st2) file →
  (∀ node_id i, retrieve_block st1 node_id (File.file_id file) i =
                retrieve_block st2 node_id (File.file_id file) i) →
  reconstruct_block st1 file block = reconstruct_block st2 file block.
Proof.
  intros Hrows Hget. unfold reconstruct_block.
  rewrite !query_replicas_rows_of, Hrows, Hget.
  generalize (filter (λ r, FileBlock.block_id r = FileBlock.block_id block
                          ∧ FileBlock.is_replica r = true) (rows_of (db st2) file)).
  intros replicas.
  assert (∀ block_data, try_replicas st1 file (FileBlock.block_id block) replicas block_data
                        = try_replicas st2 file (FileBlock.block_id block) replicas block_data)
    as Htry.
  { induction replicas as [|r replicas IH]; intros block_data; [done|].
    simpl. rewrite Hget. by rewrite IH. }
  assert (find_valid_replica st1 file (FileBlock.block_id block) replicas
          = find_valid_replica st2 file (FileBlock.block_id block) replicas) as Hfind.
  { clear Htry. induction replicas as [|r replicas IH]; [done|]. simpl.
    by rewrite Hget, IH. }
  by rewrite Htry, Hfind.
Qed.

Lemma reconstruct_file_ext st1 st2 file :
  rows_of (db st1) file = rows_of (db st2) file →
  (∀ node_id i, retrieve_block st1 node_id (File.file_id file) i =
                retrieve_block st2 node_id (File.file_id file) i) →
  reconstruct_file st1 file = reconstruct_file st2 file.
Proof.
  intros Hrows Hget. unfold reconstruct_file.
  rewrite !query_primaries_rows_of, Hrows.
  generalize (order_by_block_id
                (filter (λ r, FileBlock.is_replica r = false) (rows_of (db st2) file))).
  intros blocks.
  assert (∀ output, reconstruct_loop st1 file blocks output
                    = reconstruct_loop st2 file blocks output) as ->; [|done].
  induction blocks as [|b blocks IH]; intros output; [done|].
  simpl. rewrite (reconstruct_block_ext st1 st2) by done.
  destruct (reconstruct_block st2 file b); [apply IH|done].
Qed.


Lemma rows_of_app rows rows' file :
  rows_of (rows ++ rows') file = rows_of rows file ++ rows_of rows' file.
Proof. unfold rows_of. apply filter_app. Qed.

Lemma rows_of_added file other (new : list FileBlock.t) :
  File.id other ≠ File.id file → Forall (added_for file) new → rows_of new other = [].
Proof.
  intros Hid Hnew. apply filter_none. eapply Forall_impl; [exact Hnew|].
  intros r [Hr _]. congruence.
Qed.

Lemma distribute_other_files `{!VirtualDiskManagerLaws}
    st file_contents file other :
  File.id other ≠ File.id file →
  File.file_id other ≠ File.file_id file →
  rows_of (db (distribute_file_blocks st file_contents file).2) other = rows_of (db st) other
  ∧ (∀ node_id block_id,
       retrieve_block (distribute_file_blocks st file_contents file).2
         node_id (File.file_id other) block_id =
       retrieve_block st node_id (File.file_id other) block_id)
  ∧ reconstruct_file (distribute_file_blocks st file_contents file).2 other =
    reconstruct_file st other.
Proof.
  intros Hid Hname.
  destruct (distribute_adds_rows st file_contents file) as (new & Hdb & Hnew & _).
  assert (rows_of (db (distribute_file_blocks st file_contents file).2) other
          = rows_of (db st) other) as Hrows.
  { rewrite Hdb, rows_of_app, (rows_of_added file other new Hid Hnew). apply app_nil_r. }
  assert (∀ node_id block_id,
            retrieve_block (distribute_file_blocks st file_contents file).2
              node_id (File.file_id other) block_id =
            retrieve_block st node_id (File.file_id other) block_id) as Hget.
  { intros. by apply distribute_other_file. }
  split; [done|]. split; [done|]. by apply reconstruct_file_ext.
Qed.

(** X9. Distributing a file leaves a file with another key and another
    UUID alone: its rows, the bytes retrieved for its blocks and the answer
    of [reconstruct_file] for it are as before. *)
Theorem distribute_keeps_other_files `{!VirtualDiskManagerLaws}
    st file_contents file other :
  File.id other ≠ File.id file →
  File.file_id other ≠ File.file_id file →
  rows_of (db (distribute_file_blocks st file_contents file).2) other = rows_of (db st) other
  ∧ (∀ node_id block_id,
       retrieve_block (distribute_file_blocks st file_contents file).2
         node_id (File.file_id other) block_id =
       retrieve_block st node_id (File.file_id other) block_id)
  ∧ reconstruct_file (distribute_file_blocks st file_contents file).2 other =
    reconstruct_file st other.
Proof. apply distribute_other_files. Qed.

(** ** What a deletion reclaims *)

Lemma read_file_remove path fs node_id filename :
  read_file (remove_data_path path fs) node_id filename =
  if decide (path = Some (BlockFile node_id filename)) then None
  else read_file fs node_id filename.
Proof.
  unfold read_file, remove_data_path.
  destruct path as [[n k|n f]|]; [by rewrite decide_False| |by rewrite decide_False].
  destruct (decide (n = node_id)) as [->|Hn].
  - rewrite lookup_alter_eq. destruct (fs !! node_id) as [dir|]; simpl.
    + destruct (decide (f = filename)) as [->|Hf].
      * rewrite decide_True by done. apply lookup_delete_eq.
      * rewrite decide_False by congruence. by apply lookup_delete_ne.
    + by case_decide.
  - rewrite lookup_alter_ne by done. rewrite decide_False by congruence. done.
Qed.

Lemma is_Some_remove path (fs : gmap string (gmap string bytes)) node_id :
  is_Some (remove_data_path path fs !! node_id) ↔ is_Some (fs !! node_id).
Proof.
  unfold remove_data_path. destruct path as [[n k|n f]|]; [done| |done].
  destruct (decide (n = node_id)) as [->|Hn].
  - rewrite lookup_alter_eq. apply fmap_is_Some.
  - by rewrite lookup_alter_ne.
Qed.

Lemma delete_blocks_storage st blocks :
  vdisk_manager (foldl delete_block st blocks) = vdisk_manager st
  ∧ use_virtual_disk (foldl delete_block st blocks) = use_virtual_disk st
  ∧ blocks_dir (foldl delete_block st blocks) =
    foldl (λ fs block, remove_data_path (FileBlock.data_path block) fs)
      (blocks_dir st) blocks.
Proof.
  revert st. induction blocks as [|b blocks IH]; intros st; [done|].
  simpl. destruct (IH (delete_block st b)) as (-> & -> & ->).
  unfold delete_block. by destruct (dict.mem _ _).
Qed.

Lemma read_file_removes (blocks : list FileBlock.t) fs node_id filename :
  read_file (foldl (λ fs block, remove_data_path (FileBlock.data_path block) fs) fs blocks)
    node_id filename =
  if decide (Some (BlockFile node_id filename) ∈ FileBlock.data_path <$> blocks) then None
  else read_file fs node_id filename.
Proof.
  revert fs. induction blocks as [|b blocks IH]; intros fs.
  { cbn [foldl]. rewrite fmap_nil, decide_False; [done|]. apply not_elem_of_nil. }
  cbn [foldl]. rewrite IH, read_file_remove, fmap_cons.
  destruct (decide (Some (BlockFile node_id filename) ∈ FileBlock.data_path <$> blocks))
    as [Hin|Hout].
  - rewrite decide_True; [done|]. by right.
  - destruct (decide (FileBlock.data_path b = Some (BlockFile node_id filename)))
      as [Hb|Hb].
    + rewrite decide_True; [done|]. rewrite Hb. left.
    + rewrite decide_False; [done|]. intros Hin.
      apply elem_of_cons in Hin as [Heq|Hin]; [congruence|done].
Qed.

Lemma is_Some_removes (blocks : list FileBlock.t) (fs : gmap string (gmap string bytes))
    node_id :
  is_Some (foldl (λ fs block, remove_data_path (FileBlock.data_path block) fs) fs blocks
             !! node_id)
  ↔ is_Some (fs !! node_id).
Proof.
  revert fs. induction blocks as [|b blocks IH]; intros fs; [done|].
  simpl. by rewrite IH, is_Some_remove.
Qed.

Lemma delete_reclaims_block_files_aux st file :
  vdisk_manager (delete_file_blocks st file).2 = vdisk_manager st
  ∧ use_virtual_disk (delete_file_blocks st file).2 = use_virtual_disk st
  ∧ (∀ node_id filename,
       read_file (blocks_dir (delete_file_blocks st file).2) node_id filename =
       if decide (Some (BlockFile node_id filename)
                  ∈ FileBlock.data_path <$> rows_of (db st) file)
       then None
       else read_file (blocks_dir st) node_id filename).
Proof.
  unfold delete_file_blocks. simpl.
  destruct (delete_blocks_storage st (filter (λ r, FileBlock.file_id r = File.id file) (db st)))
    as (Hdisk & Hflag & Hfs).
  split_and!; [done|done|]. intros. rewrite Hfs. apply read_file_removes.
Qed.

(** X10. What [delete_file_blocks] reclaims: the block files named by the
    [data_path] of the rows of the file are gone, every other file and every
    directory under [blocks_dir] is as before, and the virtual disks are not
    touched, so that a block held by a virtual disk is retrieved after the
    deletion as before it. *)
Theorem delete_reclaims_block_files st file :
  vdisk_manager (delete_file_blocks st file).2 = vdisk_manager st
  ∧ use_virtual_disk (delete_file_blocks st file).2 = use_virtual_disk st
  ∧ (∀ node_id filename,
       read_file (blocks_dir (delete_file_blocks st file).2) node_id filename =
       if decide (Some (BlockFile node_id filename)
                  ∈ FileBlock.data_path <$> rows_of (db st) file)
       then None
       else read_file (blocks_dir st) node_id filename)
  ∧ (∀ node_id,
       is_Some (blocks_dir (delete_file_blocks st file).2 !! node_id)
       ↔ is_Some (blocks_dir st !! node_id))
  ∧ (∀ node_id file_id block_id,
       use_virtual_disk st = true →
       truthy (retrieve_block_from_disk (vdisk_manager st) node_id
                 (block_identifier file_id block_id)) = true →
       retrieve_block (delete_file_blocks st file).2 node_id file_id block_id =
       retrieve_block st node_id file_id block_id).
Proof.
  unfold delete_file_blocks. simpl.
  destruct (delete_blocks_storage st (filter (λ r, FileBlock.file_id r = File.id file) (db st)))
    as (Hdisk & Hflag & Hfs).
  split_and!; [done|done|..].
  - intros. rewrite Hfs. apply read_file_removes.
  - intros. rewrite Hfs. apply is_Some_removes.
  - intros node_id file_id block_id Hon Hheld. unfold retrieve_block. simpl.
    by rewrite Hflag, Hdisk, Hon, Hheld.
Qed.

(** ** A deletion leaves the other files alone *)

Lemma delete_other_file st file node_id file_id' block_id :
  paths_named st file → file_id' ≠ File.file_id file →
  retrieve_block (delete_file_blocks st file).2 node_id file_id' block_id =
  retrieve_block st node_id file_id' block_id.
Proof.
  intros Hpaths Hname.
  destruct (delete_reclaims_block_files_aux st file) as (Hdisk & Hflag & Hread).
  unfold retrieve_block. rewrite Hflag, Hdisk, Hread, decide_False; [done|].
  intros Hin. apply list_elem_of_fmap in Hin as (r & Hpath & Hr).
  destruct (Hpaths r Hr) as [Hv|Hf]; [congruence|].
  rewrite Hf in Hpath. injection Hpath as _ Heq.
  apply block_filename_inj2 in Heq as [? _]. done.
Qed.

Lemma rows_of_filter_other rows file other :
  File.id other ≠ File.id file →
  rows_of (filter (λ r, FileBlock.file_id r ≠ File.id file) rows) other = rows_of rows other.
Proof.
  intros Hid. unfold rows_of. rewrite list_filter_filter.
  apply filter_ext_in. intros r _. split; [tauto|]. intros Hr. split; [done|congruence].
Qed.

Lemma delete_other_files st file other :
  paths_named st file →
  File.id other ≠ File.id file →
  File.file_id other ≠ File.file_id file →
  rows_of (db (delete_file_blocks st file).2) other = rows_of (db st) other
  ∧ (∀ node_id block_id,
       retrieve_block (delete_file_blocks st file).2 node_id (File.file_id other) block_id =
       retrieve_block st node_id (File.file_id other) block_id)
  ∧ reconstruct_file (delete_file_blocks st file).2 other = reconstruct_file st other.
Proof.
  intros Hpaths Hid Hname.
  assert (rows_of (db (delete_file_blocks st file).2) other = rows_of (db st) other) as Hrows.
  { rewrite delete_file_rows. by apply rows_of_filter_other. }
  assert (∀ node_id block_id,
            retrieve_block (delete_file_blocks st file).2 node_id (File.file_id other) block_id =
            retrieve_block st node_id (File.file_id other) block_id) as Hget.
  { intros. by apply delete_other_file. }
  split; [done|]. split; [done|]. by apply reconstruct_file_ext.
Qed.

(** X11. Deleting a file whose rows carry the names of its own blocks
    leaves a file with another key and another UUID alone: its rows, the
    bytes retrieved for its blocks and the answer of [reconstruct_file] for
    it are as before. *)
Theorem delete_keeps_other_files st file other :
  paths_named st file →
  File.id other ≠ File.id file →
  File.file_id other ≠ File.file_id file →
  rows_of (db (delete_file_blocks st file).2) other = rows_of (db st) other
  ∧ (∀ node_id block_id,
       retrieve_block (delete_file_blocks st file).2 node_id (File.file_id other) block_id =
       retrieve_block st node_id (File.file_id other) block_id)
  ∧ reconstruct_file (delete_file_blocks st file).2 other = reconstruct_file st other.
Proof. apply delete_other_files. Qed.

(** The rows that a distribution adds carry the names of the blocks. *)
Lemma distribute_paths_named st file_contents file :
  paths_named st file → paths_named (distribute_file_blocks st file_contents file).2 file.
Proof.
  intros Hpaths r.
  destruct (distribute_adds_rows st file_contents file) as (new & -> & Hnew & _).
  rewrite rows_of_app, elem_of_app. intros [Hr|Hr]; [by apply Hpaths|].
  apply list_elem_of_filter in Hr as [_ Hr].
  by eapply Forall_forall in Hnew as (_ & _ & ?).
Qed.

(** ** Distributing and deleting with the virtual disks off *)

Lemma written_as_files_refl file st :
  use_virtual_disk st = false → written_as_files file st st [].
Proof.
  intros Hflag. split_and!; try done. by rewrite app_nil_r.
Qed.

Lemma written_as_files_trans file st st1 st2 new1 new2 :
  written_as_files file st st1 new1 → written_as_files file st1 st2 new2 →
  written_as_files file st st2 (new1 ++ new2).
Proof.
  intros (Hflag1 & Hdisk1 & Hkeys1 & Hdb1 & Hnew1 & Hread1 & Hdir1)
         (Hflag2 & Hdisk2 & Hkeys2 & Hdb2 & Hnew2 & Hread2 & Hdir2).
  split_and!.
  - done.
  - congruence.
  - congruence.
  - by rewrite Hdb2, Hdb1, app_assoc.
  - by apply Forall_app.
  - intros node_id filename Hout. rewrite fmap_app, elem_of_app in Hout.
    rewrite Hread2, Hread1; tauto.
  - intros node_id. by rewrite Hdir2, Hdir1.
Qed.

Lemma place_copy_written file block_id data checksum replica st node_id :
  use_virtual_disk st = false →
  ∃ new, written_as_files file st
           (place_copy file block_id data checksum replica st node_id).2 new.
Proof.
  intros Hflag.
  pose proof (λ k, place_copy_dirs file block_id data checksum replica st node_id k) as Hdirs.
  pose proof (place_copy_keys file block_id data checksum replica st node_id) as Hkeys.
  unfold place_copy, store_block in *. rewrite Hflag in *. simpl in *.
  destruct (write_file _ _ _ _) as [fs|] eqn:Hwrite; simpl in *.
  2:{ exists []. by apply written_as_files_refl. }
  eexists [_]. split_and!; try done.
  - by repeat constructor.
  - intros n f Hout. apply (read_write_other _ _ _ _ _ _ _ Hwrite).
    intros [= -> ->]. apply Hout. left.
Qed.

Lemma place_replicas_written file block_id data checksum node_ids st :
  use_virtual_disk st = false →
  ∃ new, written_as_files file st
           (place_replicas file block_id data checksum st node_ids).2 new.
Proof.
  revert st. induction node_ids as [|k node_ids IH]; intros st Hflag.
  { exists []. by apply written_as_files_refl. }
  simpl.
  destruct (place_copy_written file block_id data checksum true st k Hflag)
    as (new0 & Hstep).
  destruct (place_copy _ _ _ _ _ _ _) as [[[]|] st1]; simpl in *; [|by exists new0].
  destruct (IH st1) as (new & Hrest); [apply Hstep|].
  exists (new0 ++ new). by eapply written_as_files_trans.
Qed.

Lemma distribute_loop_written file block_id blocks_data st :
  use_virtual_disk st = false →
  ∃ new, written_as_files file st (distribute_loop file block_id blocks_data st).2 new.
Proof.
  revert block_id st.
  induction blocks_data as [|[data checksum] blocks_data IH]; intros block_id st Hflag.
  { exists []. by apply written_as_files_refl. }
  simpl. destruct (select_nodes_for_block _ _ _) as [|primary replicas] eqn:Hsel.
  { exists []. by apply written_as_files_refl. }
  destruct (place_copy_written file block_id data checksum false st primary Hflag)
    as (new0 & Hstep).
  destruct (place_copy _ _ _ _ _ _ _) as [[[]|] st1]; simpl in *; [|by exists new0].
  destruct (place_replicas_written file block_id data checksum replicas st1)
    as (new1 & Hstep1); [apply Hstep|].
  destruct (place_replicas _ _ _ _ _ _) as [[[]|] st2]; simpl in *.
  2:{ exists (new0 ++ new1). by eapply written_as_files_trans. }
  destruct (IH (block_id + 1) st2) as (new2 & Hstep2); [apply Hstep1|].
  exists ((new0 ++ new1) ++ new2).
  eapply written_as_files_trans; [|exact Hstep2].
  by eapply written_as_files_trans.
Qed.

Lemma distribute_written st file_contents file :
  use_virtual_disk st = false →
  ∃ new, written_as_files file st (distribute_file_blocks st file_contents file).2 new.
Proof.
  intros Hflag. unfold distribute_file_blocks, distribute_file_blocks_exit.
  generalize (split_file_into_blocks file_contents). intros blocks_data.
  pose proof (written_as_files_refl file st Hflag) as Hrefl.
  case_decide; [by exists []|]. case_decide; [by exists []|].
  destruct (distribute_loop_written file 0 blocks_data st Hflag) as (new & Hnew).
  destruct (distribute_loop _ _ _ _) as [exit st']. by exists new.
Qed.

Lemma distribute_then_delete_counters st file_contents file :
  rows_of (db st) file = [] →
  (∀ k node, (k, node) ∈ nodes st → 0 ≤ StorageVirtualNode.used_storage node) →
  nodes (delete_file_blocks (distribute_file_blocks st file_contents file).2 file).2 = nodes st
  ∧ db (delete_file_blocks (distribute_file_blocks st file_contents file).2 file).2 = db st.
Proof.
  intros Hfresh Hused.
  destruct (distribute_adds_rows st file_contents file) as (new & Hdb & Hnew & Hn).
  generalize dependent (distribute_file_blocks st file_contents file).2. intros st1 Hdb Hn.
  destruct (filter_app_file (db st) new file Hnew Hfresh) as [Hmine Hothers].
  unfold delete_file_blocks. simpl. rewrite delete_blocks_db, Hdb, Hmine, Hothers.
  split; [|done]. rewrite delete_blocks_debit.
  - by rewrite Hn, debit_credit.
  - intros r Hr. by eapply Forall_forall in Hnew as (_ & ? & _).
  - intros k node'. rewrite Hn. unfold credit. rewrite list_elem_of_fmap.
    intros ([k0 node] & [= -> ->] & Hin). simpl. pose proof (Hused _ _ Hin). lia.
Qed.

(** X12. [distribute_file_blocks] followed by [delete_file_blocks] restores
    the registry and the table: for a file without rows and counters that
    are not negative, every node and every row is as before the
    distribution. *)
Theorem distribute_then_delete_restores st file_contents file :
  rows_of (db st) file = [] →
  (∀ k node, (k, node) ∈ nodes st → 0 ≤ StorageVirtualNode.used_storage node) →
  nodes (delete_file_blocks (distribute_file_blocks st file_contents file).2 file).2 = nodes st
  ∧ db (delete_file_blocks (distribute_file_blocks st file_contents file).2 file).2 = db st.
Proof. apply distribute_then_delete_counters. Qed.

Lemma state_eq (st st' : state) :
  nodes st = nodes st' → use_virtual_disk st = use_virtual_disk st' →
  vdisk_manager st = vdisk_manager st' → blocks_dir st = blocks_dir st' →
  db st = db st' → st = st'.
Proof. destruct st, st'. simpl. by intros -> -> -> -> ->. Qed.

Lemma read_file_no_stored_copy st file node_id block_id :
  use_virtual_disk st = false → no_stored_copy st file →
  read_file (blocks_dir st) node_id (block_filename (File.file_id file) block_id) = None.
Proof.
  intros Hflag Hnone. specialize (Hnone node_id block_id).
  unfold retrieve_block in Hnone. by rewrite Hflag in Hnone.
Qed.

(** X13. With the virtual disks off, [distribute_file_blocks] followed by
    [delete_file_blocks] restores the whole state, block files included,
    whether the distribution returned or raised, when the file has no row
    and no stored block, and no counter is negative. *)
Theorem files_restored_after_delete st file_contents file :
  use_virtual_disk st = false →
  no_stored_copy st file →
  rows_of (db st) file = [] →
  (∀ k node, (k, node) ∈ nodes st → 0 ≤ StorageVirtualNode.used_storage node) →
  (delete_file_blocks (distribute_file_blocks st file_contents file).2 file).2 = st.
Proof.
  intros Hflag Hnone Hfresh Hused.
  destruct (distribute_then_delete_counters st file_contents file Hfresh Hused)
    as [Hnodes Hdb].
  destruct (distribute_written st file_contents file Hflag)
    as (new & Hflag1 & Hdisk1 & Hkeys1 & Hdb1 & Hnew & Hread1 & Hdir1).
  destruct (distribute_adds_rows st file_contents file) as (new' & Hdb1' & Hnew' & _).
  assert (new' = new) as -> by (rewrite Hdb1 in Hdb1'; by apply app_inv_head in Hdb1').
  destruct (filter_app_file (db st) new file Hnew' Hfresh) as [Hmine _].
  generalize dependent (distribute_file_blocks st file_contents file).2.
  intros st1 Hnodes Hdb Hflag1 Hdisk1 Hkeys1 Hdb1 Hread1 Hdir1 _.
  destruct (delete_reclaims_block_files_aux st1 file) as (Hdisk2 & Hflag2 & Hread2).
  unfold rows_of in Hread2. rewrite Hdb1, Hmine in Hread2.
  assert (∀ node_id filename,
            read_file (blocks_dir (delete_file_blocks st1 file).2) node_id filename =
            read_file (blocks_dir st) node_id filename) as Hread.
  { intros n f. rewrite Hread2. case_decide as Hin; [|by apply Hread1].
    apply list_elem_of_fmap in Hin as (r & Hpath & Hr).
    eapply Forall_forall in Hnew as Hnamed; [|exact Hr].
    rewrite Hnamed in Hpath. injection Hpath as -> ->.
    symmetry. by apply read_file_no_stored_copy. }
  assert (∀ node_id,
            is_Some (blocks_dir (delete_file_blocks st1 file).2 !! node_id) ↔
            is_Some (blocks_dir st !! node_id)) as Hdir.
  { intros n. unfold delete_file_blocks. simpl.
    destruct (delete_blocks_storage st1
                (filter (λ r, FileBlock.file_id r = File.id file) (db st1)))
      as (_ & _ & ->).
    by rewrite is_Some_removes, Hdir1. }
  apply state_eq; [done|congruence|congruence| |done].
  apply map_eq. intros n. specialize (Hdir n).
  destruct (blocks_dir (delete_file_blocks st1 file).2 !! n) as [dir'|] eqn:Hn';
    destruct (blocks_dir st !! n) as [dir|] eqn:Hn.
  - f_equal. apply map_eq. intros f. specialize (Hread n f).
    unfold read_file in Hread. by rewrite Hn', Hn in Hread.
  - destruct Hdir as [Hdir _]. by destruct Hdir.
  - destruct Hdir as [_ Hdir]. by destruct Hdir.
  - done.
Qed.

(** ** What a reconstruction writes *)

Lemma reconstruct_block_verified st file block data :
  reconstruct_block st file block = Some data → verified st file block data.
Proof.
  unfold reconstruct_block, verified.
  set (replicas := query_replicas (db st) file (FileBlock.block_id block)).
  assert (find_valid_replica st file (FileBlock.block_id block) replicas = Some data →
          ∃ r, r ∈ block :: replicas
               ∧ retrieve_block st (FileBlock.node_id r) (File.file_id file)
                   (FileBlock.block_id block) = Some data
               ∧ (md5 data = FileBlock.checksum block ∨ md5 data = FileBlock.checksum r))
    as Hfind.
  { intros (r & Hin & Hget & _ & Hsum)%find_valid_replica_accepts.
    exists r. split; [by right|]. split; [done|by right]. }
  destruct (retrieve_block st (FileBlock.node_id block) _ _) as [d0|] eqn:Hprimary.
  - case_decide as Hsum; [done|]. intros [= <-].
    exists block. split; [left|]. split; [done|]. by left.
  - destruct (try_replicas_source st file (FileBlock.block_id block) replicas None)
      as [->|(r & Hin & ->)]; [done|].
    destruct (retrieve_block st (FileBlock.node_id r) _ _) as [d1|] eqn:Hr; [|done].
    case_decide as Hsum; [done|]. intros [= <-].
    exists r. split; [by right|]. split; [done|]. by left.
Qed.

Lemma reconstruct_loop_outcome st file blocks output ok output' :
  reconstruct_loop st file blocks output = (ok, output') →
  if ok then
    ∃ datas, Forall2 (λ block data, reconstruct_block st file block = Some data) blocks datas
             ∧ output' = output ++ concat datas
  else
    ∃ good bad rest datas,
      blocks = good ++ bad :: rest
      ∧ Forall2 (λ block data, reconstruct_block st file block = Some data) good datas
      ∧ reconstruct_block st file bad = None
      ∧ output' = output ++ concat datas.
Proof.
  revert output. induction blocks as [|b blocks IH]; intros output; simpl.
  { intros [= <- <-]. exists []. split; [constructor|]. by rewrite app_nil_r. }
  destruct (reconstruct_block st file b) as [d|] eqn:Hb.
  - intros Hloop. apply IH in Hloop. destruct ok.
    + destruct Hloop as (datas & Hall & ->). exists (d :: datas).
      split; [by constructor|]. simpl. by rewrite app_assoc.
    + destruct Hloop as (good & bad & rest & datas & -> & Hall & Hbad & ->).
      exists (b :: good), bad, rest, (d :: datas).
      split; [done|]. split; [by constructor|]. split; [done|].
      simpl. by rewrite app_assoc.
  - intros [= <- <-]. exists [], b, blocks, [].
    split; [done|]. split; [constructor|]. split; [done|]. by rewrite app_nil_r.
Qed.

(** X14. Integrity: when [reconstruct_file] answers [True], there is at
    least one primary row and the output is the concatenation, in the order
    of the primary rows, of one block of bytes per primary row, each
    retrieved from the node of the primary row or of one of its replica rows
    and hashing to the checksum of the primary row or of the row whose node
    gave it. *)
Theorem reconstruct_integrity st file output :
  reconstruct_file st file = (true, output) →
  ∃ datas,
    output = Some (concat datas)
    ∧ Forall2 (verified st file) (query_primaries (db st) file) datas
    ∧ query_primaries (db st) file ≠ [].
Proof.
  unfold reconstruct_file.
  destruct (query_primaries (db st) file) as [|b blocks] eqn:Hblocks; [done|].
  destruct (reconstruct_loop st file (b :: blocks) []) as [ok output'] eqn:Hloop.
  intros [= -> <-]. apply reconstruct_loop_outcome in Hloop as (datas & Hall & ->).
  exists datas. split; [done|]. split; [|done].
  eapply Forall2_impl; [exact Hall|]. intros block data. apply reconstruct_block_verified.
Qed.

(** X15. When [reconstruct_file] answers [False], either the file has no
    primary row and the output was not opened, or the output holds the bytes
    of the blocks before the first block for which no bytes were accepted,
    and nothing of the blocks after it. *)
Theorem reconstruct_failure_output st file output :
  reconstruct_file st file = (false, output) →
  (query_primaries (db st) file = [] ∧ output = None)
  ∨ ∃ good bad rest datas,
      query_primaries (db st) file = good ++ bad :: rest
      ∧ Forall2 (λ block data, reconstruct_block st file block = Some data) good datas
      ∧ reconstruct_block st file bad = None
      ∧ output = Some (concat datas).
Proof.
  unfold reconstruct_file.
  destruct (query_primaries (db st) file) as [|b blocks] eqn:Hblocks.
  { intros [= <-]. by left. }
  destruct (reconstruct_loop st file (b :: blocks) []) as [ok output'] eqn:Hloop.
  intros [= -> <-]. right.
  apply reconstruct_loop_outcome in Hloop
    as (good & bad & rest & datas & Hsplit & Hall & Hbad & ->).
  by exists good, bad, rest, datas.
Qed.

(** ** The rotation of the placement *)

(** X16. The placement rotates: the selection for a block index is the
    selection for the index plus the number of nodes; the selection for the
    next index is the selection shifted by one position; every selected node
    is registered, and no node is selected twice when the registry has no
    duplicate key. *)
Theorem placement_rotates ns block_id num_replicas :
  let n := len (dict.keys ns) in
  let R := default REPLICATION_FACTOR num_replicas in
  select_nodes_for_block ns (block_id + n) num_replicas =
    select_nodes_for_block ns block_id num_replicas
  ∧ (∀ j, 0 ≤ j → j + 1 < R `min` n →
       select_nodes_for_block ns (block_id + 1) num_replicas !! Z.to_nat j =
       select_nodes_for_block ns block_id num_replicas !! Z.to_nat (j + 1))
  ∧ (∀ node_id, node_id ∈ select_nodes_for_block ns block_id num_replicas →
       node_id ∈ dict.keys ns)
  ∧ (dict.wf ns → NoDup (select_nodes_for_block ns block_id num_replicas)).
Proof.
  cbv zeta. split_and!.
  - unfold select_nodes_for_block. case_decide as Hn; [done|].
    apply list_fmap_ext. intros i x _. simpl.
    replace (block_id + len (dict.keys ns) + x)
      with (block_id + x + 1 * len (dict.keys ns)) by lia.
    by rewrite Z.mod_add.
  - intros j Hj Hlt. rewrite !select_nodes_lookup by lia.
    by replace (block_id + 1 + j) with (block_id + (j + 1)) by lia.
  - intros node_id. apply select_nodes_elem.
  - apply select_nodes_NoDup.
Qed.

(** ** The directories of the nodes *)

Lemma ensure_directories_lookup (node_ids : list string)
    (fs : gmap string (gmap string bytes)) k :
  foldl (λ fs node_id, if decide (is_Some (fs !! node_id)) then fs
                       else <[node_id := ∅]> fs) fs node_ids !! k =
  match fs !! k with
  | Some dir => Some dir
  | None => if decide (k ∈ node_ids) then Some ∅ else None
  end.
Proof.
  revert fs. induction node_ids as [|n node_ids IH]; intros fs.
  { cbn [foldl]. destruct (fs !! k); [done|]. case_decide as Hin; [|done].
    by apply elem_of_nil in Hin. }
  cbn [foldl]. rewrite IH. destruct (decide (is_Some (fs !! n))) as [Hn|Hn].
  - destruct (fs !! k) as [dir|] eqn:Hk; [done|].
    destruct (decide (k ∈ node_ids)) as [Hin|Hout].
    + rewrite decide_True; [done|by right].
    + rewrite decide_False; [done|]. intros Hin.
      apply elem_of_cons in Hin as [->|Hin]; [|done]. rewrite Hk in Hn. by destruct Hn.
  - destruct (decide (k = n)) as [->|Hne].
    + rewrite lookup_insert_eq.
      destruct (fs !! n) as [dir|] eqn:Hk; [by destruct Hn|].
      rewrite decide_True; [done|left].
    + rewrite lookup_insert_ne by done. destruct (fs !! k) as [dir|]; [done|].
      destruct (decide (k ∈ node_ids)) as [Hin|Hout].
      * rewrite decide_True; [done|by right].
      * rewrite decide_False; [done|]. intros Hin.
        apply elem_of_cons in Hin as [->|Hin]; done.
Qed.

Lemma ensure_directories_exist st : directories_exist (_ensure_blocks_directory st).
Proof.
  intros k Hk. unfold _ensure_blocks_directory. simpl in *.
  rewrite ensure_directories_lookup. destruct (blocks_dir st !! k); [done|].
  by rewrite decide_True.
Qed.

Lemma directories_exist_ensure st :
  directories_exist st → _ensure_blocks_directory st = st.
Proof.
  intros Hdirs. apply state_eq; try done.
  unfold _ensure_blocks_directory. simpl. apply map_eq. intros k.
  rewrite ensure_directories_lookup. destruct (blocks_dir st !! k) eqn:Hk; [done|].
  case_decide as Hin; [|done]. apply Hdirs in Hin. rewrite Hk in Hin. by destruct Hin.
Qed.

(** X17. [_ensure_blocks_directory] creates the missing directory of every
    registered node, empty, and nothing else: the directories that exist and
    the files in them stay, a second call changes nothing, and the registry,
    the rows and the virtual disks are not touched. *)
Theorem ensure_blocks_directory_creates st :
  directories_exist (_ensure_blocks_directory st)
  ∧ (∀ node_id,
       blocks_dir (_ensure_blocks_directory st) !! node_id =
       match blocks_dir st !! node_id with
       | Some dir => Some dir
       | None => if decide (node_id ∈ dict.keys (nodes st)) then Some ∅ else None
       end)
  ∧ (∀ node_id filename,
       read_file (blocks_dir (_ensure_blocks_directory st)) node_id filename =
       read_file (blocks_dir st) node_id filename)
  ∧ _ensure_blocks_directory (_ensure_blocks_directory st) = _ensure_blocks_directory st
  ∧ nodes (_ensure_blocks_directory st) = nodes st
  ∧ db (_ensure_blocks_directory st) = db st
  ∧ vdisk_manager (_ensure_blocks_directory st) = vdisk_manager st.
Proof.
  split_and!; try done.
  - apply ensure_directories_exist.
  - intros k. apply ensure_directories_lookup.
  - intros k f. unfold read_file, _ensure_blocks_directory. simpl.
    rewrite ensure_directories_lookup. destruct (blocks_dir st !! k); [done|].
    case_decide; [|done]. simpl. apply lookup_empty.
  - apply directories_exist_ensure, ensure_directories_exist.
Qed.

Lemma distribute_directories st file_contents file :
  directories_exist st → directories_exist (distribute_file_blocks st file_contents file).2.
Proof.
  intros Hdirs k.
  destruct (distribute_adds_rows st file_contents file) as (new & _ & _ & ->).
  rewrite keys_credit. intros Hk%Hdirs.
  unfold distribute_file_blocks, distribute_file_blocks_exit.
  generalize (split_file_into_blocks file_contents). intros blocks_data.
  case_decide; [done|]. case_decide; [done|].
  pose proof (distribute_loop_dirs file 0 blocks_data st k) as Hkeep.
  destruct (distribute_loop _ _ _ _). by apply Hkeep.
Qed.

Lemma delete_blocks_keys st blocks :
  dict.keys (nodes (foldl delete_block st blocks)) = dict.keys (nodes st).
Proof.
  revert st. induction blocks as [|b blocks IH]; intros st; [done|].
  simpl. by rewrite IH, delete_block_update, keys_update.
Qed.

Lemma delete_directories st file :
  directories_exist st → directories_exist (delete_file_blocks st file).2.
Proof.
  intros Hdirs k. unfold delete_file_blocks. simpl. rewrite delete_blocks_keys.
  intros Hk%Hdirs.
  destruct (delete_blocks_storage st (filter (λ r, FileBlock.file_id r = File.id file) (db st)))
    as (_ & _ & ->).
  by apply is_Some_removes.
Qed.

(** X18. After [_ensure_blocks_directory], every registered node keeps its
    directory through any sequence of [distribute_file_blocks] and
    [delete_file_blocks] calls, so that every node selected for a block has
    its directory and no call of [distribute_file_blocks] in the sequence or
    after it raises. *)
Theorem directories_kept st ops :
  directories_exist (run_operations (_ensure_blocks_directory st) ops)
  ∧ (∀ block_id node_id,
       node_id ∈ select_nodes_for_block
                   (nodes (run_operations (_ensure_blocks_directory st) ops)) block_id None →
       is_Some (blocks_dir (run_operations (_ensure_blocks_directory st) ops) !! node_id))
  ∧ (∀ file_contents file,
       ∃ ok, (distribute_file_blocks
                (run_operations (_ensure_blocks_directory st) ops) file_contents file).1
             = Returns ok).
Proof.
  assert (directories_exist (run_operations (_ensure_blocks_directory st) ops)) as Hdirs.
  { pose proof (ensure_directories_exist st) as Hdirs.
    generalize dependent (_ensure_blocks_directory st). clear st.
    induction ops as [|op ops IH]; intros st Hdirs; [done|].
    simpl. apply IH. destruct op as [file_contents file|file]; simpl.
    - by apply distribute_directories.
    - by apply delete_directories. }
  split_and!; [done| |].
  - intros block_id node_id Hin. by apply select_nodes_elem, Hdirs in Hin.
  - intros file_contents file. by apply distribute_returns.
Qed.

(** ** Extending a node *)

Lemma set_total_storage_used f node :
  StorageVirtualNode.used_storage (StorageVirtualNode.set_total_storage f node) =
  StorageVirtualNode.used_storage node.
Proof. done. Qed.

Lemma available_storage_extend x k ns :
  dict.wf ns → k ∈ dict.keys ns →
  available_storage
    (dict.update (StorageVirtualNode.set_total_storage (λ total, total + x)) k ns) =
  available_storage ns + x.
Proof.
  induction ns as [|[k0 node] ns IH]; intros Hwf Hin.
  { by apply elem_of_nil in Hin. }
  unfold dict.wf, dict.keys in Hwf, Hin. simpl in Hwf, Hin.
  apply NoDup_cons in Hwf as [Hk0 Hwf].
  change (dict.update ?f k ((k0, node) :: ns))
    with ((if decide (k0 = k) then (k0, f node) else (k0, node)) :: dict.update f k ns).
  destruct (decide (k0 = k)) as [->|Hne].
  - rewrite update_absent by done. rewrite !available_storage_cons. simpl. lia.
  - apply elem_of_cons in Hin as [?|Hin]; [congruence|].
    rewrite !available_storage_cons, IH by done. lia.
Qed.

(** X19. [extend_node] on a node that is not registered changes nothing;
    on a registered node it adds [additional_storage_gb] times 2^30 bytes to
    the free storage summed over the nodes (for a registry without duplicate
    keys) and leaves the node keys, the [used_storage] counters, consistent
    accounting, the rows, the virtual disks and the block files as they
    were. *)
Theorem extend_node_adds_capacity st node_id additional_storage_gb :
  (node_id ∉ dict.keys (nodes st) →
     extend_node st node_id additional_storage_gb = (ExtendNodeNotFound, st))
  ∧ (node_id ∈ dict.keys (nodes st) →
     ∃ st', extend_node st node_id additional_storage_gb = (NodeExtended, st')
       ∧ (dict.wf (nodes st) →
            available_storage (nodes st') =
            available_storage (nodes st) + additional_storage_gb * 1073741824)
       ∧ dict.keys (nodes st') = dict.keys (nodes st)
       ∧ StorageVirtualNode.used_storage <$> dict.values (nodes st') =
         StorageVirtualNode.used_storage <$> dict.values (nodes st)
       ∧ (accounting_consistent st → accounting_consistent st')
       ∧ db st' = db st
       ∧ vdisk_manager st' = vdisk_manager st
       ∧ blocks_dir st' = blocks_dir st).
Proof.
  unfold extend_node, dict.mem. split.
  - intros Hout. by rewrite bool_decide_eq_false_2.
  - intros Hin. rewrite bool_decide_eq_true_2 by done. eexists. split; [done|]. simpl.
    split_and!; try done.
    + intros Hwf. rewrite available_storage_extend by done. lia.
    + apply keys_update.
    + unfold dict.values, dict.update. rewrite <- !list_fmap_compose.
      apply list_fmap_ext. intros i [k node] _. simpl. by case_decide.
    + intros [Hsz Hacc]. split; [done|]. simpl. intros k node'.
      rewrite elem_of_update. intros (node & Hnode & ->).
      rewrite <- (Hacc _ _ Hnode). by case_decide.
Qed.

(** ** The refresh of the counters *)

Lemma refresh_nodes st :
  nodes (refresh_node_storage st) =
  (λ kv, (kv.1, StorageVirtualNode.set_used_storage
                  (λ _, assigned_bytes (db st) (StorageVirtualNode.node_id kv.2)) kv.2))
  <$> nodes st.
Proof. done. Qed.

Lemma refresh_consistent st :
  registry_keyed (nodes st) →
  (∀ r, r ∈ db st → 0 ≤ FileBlock.block_size r) →
  accounting_consistent (refresh_node_storage st).
Proof.
  intros Hkeyed Hsz. split; [done|]. intros k node'.
  rewrite refresh_nodes, list_elem_of_fmap. intros ([k0 node] & [= -> ->] & Hin).
  simpl. by rewrite (Hkeyed _ _ Hin).
Qed.

Lemma refresh_noop st :
  registry_keyed (nodes st) → accounting_consistent st → refresh_node_storage st = st.
Proof.
  intros Hkeyed [_ Hacc]. apply state_eq; try done.
  rewrite refresh_nodes. rewrite <- (list_fmap_id (nodes st)) at 2.
  apply list_fmap_ext. intros i [k node] Hi. simpl. f_equal.
  apply list_elem_of_lookup_2 in Hi.
  apply set_used_storage_id. rewrite (Hkeyed _ _ Hi). symmetry. by apply Hacc.
Qed.

(** X20. The refresh of the counters sets every node's [used_storage] to
    the sum of the sizes of the rows that carry the node's [node_id], and
    leaves the keys, the capacities, the rows and the stored bytes; a second
    refresh changes nothing; when every node is registered under its own
    [node_id] the refreshed state is consistent, and a consistent state is
    left as it is. *)
Theorem refresh_recounts st :
  (∀ k node, (k, node) ∈ nodes (refresh_node_storage st) →
     StorageVirtualNode.used_storage node =
     assigned_bytes (db st) (StorageVirtualNode.node_id node))
  ∧ dict.keys (nodes (refresh_node_storage st)) = dict.keys (nodes st)
  ∧ total_capacity (nodes (refresh_node_storage st)) = total_capacity (nodes st)
  ∧ db (refresh_node_storage st) = db st
  ∧ vdisk_manager (refresh_node_storage st) = vdisk_manager st
  ∧ blocks_dir (refresh_node_storage st) = blocks_dir st
  ∧ refresh_node_storage (refresh_node_storage st) = refresh_node_storage st
  ∧ (registry_keyed (nodes st) → (∀ r, r ∈ db st → 0 ≤ FileBlock.block_size r) →
     accounting_consistent (refresh_node_storage st))
  ∧ (registry_keyed (nodes st) → accounting_consistent st → refresh_node_storage st = st).
Proof.
  split_and!; try done.
  - intros k node'. rewrite refresh_nodes, list_elem_of_fmap.
    by intros ([k0 node] & [= -> ->] & Hin).
  - rewrite refresh_nodes. unfold dict.keys. rewrite <- list_fmap_compose.
    by apply list_fmap_ext.
  - rewrite refresh_nodes. unfold total_capacity, dict.values.
    by rewrite <- !list_fmap_compose.
  - apply state_eq; try done. rewrite !refresh_nodes, <- list_fmap_compose.
    apply list_fmap_ext. by intros i [k node] _.
  - apply refresh_consistent.
  - apply refresh_noop.
Qed.

(** ** Removing a node loses no block *)

Lemma assigned_bytes_elem rows r :
  (∀ r, r ∈ rows → 0 ≤ FileBlock.block_size r) → r ∈ rows →
  FileBlock.block_size r ≤ assigned_bytes rows (FileBlock.node_id r).
Proof.
  intros Hsz Hr. induction rows as [|r0 rows IH]; [by apply elem_of_nil in Hr|].
  rewrite assigned_bytes_cons.
  assert (0 ≤ FileBlock.block_size r0) by (apply Hsz; left).
  assert (0 ≤ assigned_bytes rows (FileBlock.node_id r)).
  { apply assigned_bytes_nonneg. intros r' Hr'. apply Hsz. by right. }
  apply elem_of_cons in Hr as [->|Hr].
  - rewrite decide_True by done. lia.
  - assert (FileBlock.block_size r ≤ assigned_bytes rows (FileBlock.node_id r)).
    { apply IH; [|done]. intros r' Hr'. apply Hsz. by right. }
    case_decide; lia.
Qed.

(** X21. In a consistent state [delete_node] refuses to remove a
    registered node to which a block row of positive size is assigned, and
    changes nothing. *)
Theorem delete_node_protects_blocks st r :
  accounting_consistent st →
  r ∈ db st → 0 < FileBlock.block_size r →
  FileBlock.node_id r ∈ dict.keys (nodes st) →
  delete_node st (FileBlock.node_id r) = (NodeNotEmpty, st).
Proof.
  intros [Hsz Hacc] Hr Hpos Hin. unfold delete_node.
  destruct (dict.get (nodes st) (FileBlock.node_id r)) as [node|] eqn:Hget.
  - apply get_Some_elem in Hget. pose proof (Hacc _ _ Hget) as Hused.
    pose proof (assigned_bytes_elem (db st) r Hsz Hr). rewrite decide_True; [done|lia].
  - exfalso. clear -Hget Hin. induction (nodes st) as [|[k v] ns IH].
    + by apply elem_of_nil in Hin.
    + simpl in Hget. case_decide; [done|].
      unfold dict.keys in Hin. simpl in Hin.
      apply elem_of_cons in Hin as [?|Hin]; [congruence|]. by apply IH.
Qed.

(** [reconstruct_file] asks only the nodes of the rows of the file. *)
Lemma reconstruct_block_ext_rows st1 st2 file block :
  rows_of (db st1) file = rows_of (db st2) file →
  block ∈ rows_of (db st2) file →
  (∀ r i, r ∈ rows_of (db st2) file →
     retrieve_block st1 (FileBlock.node_id r) (File.file_id file) i =
     retrieve_block st2 (FileBlock.node_id r) (File.file_id file) i) →
  reconstruct_block st1 file block = reconstruct_block st2 file block.
Proof.
  intros Hrows Hblock Hget. unfold reconstruct_block.
  rewrite !query_replicas_rows_of, Hrows, (Hget block) by done.
  assert (Forall (λ r, r ∈ rows_of (db st2) file)
            (filter (λ r, FileBlock.block_id r = FileBlock.block_id block
                          ∧ FileBlock.is_replica r = true) (rows_of (db st2) file)))
    as Hreplicas.
  { apply Forall_forall. intros r Hr. by apply list_elem_of_filter in Hr as [_ ?]. }
  revert Hreplicas.
  generalize (filter (λ r, FileBlock.block_id r = FileBlock.block_id block
                          ∧ FileBlock.is_replica r = true) (rows_of (db st2) file)).
  intros replicas Hreplicas.
  assert (find_valid_replica st1 file (FileBlock.block_id block) replicas
          = find_valid_replica st2 file (FileBlock.block_id block) replicas) as Hfind.
  { induction Hreplicas as [|r replicas Hr _ IH]; [done|]. simpl.
    by rewrite (Hget r), IH. }
  assert (∀ block_data, try_replicas st1 file (FileBlock.block_id block) replicas block_data
                        = try_replicas st2 file (FileBlock.block_id block) replicas block_data)
    as Htry.
  { clear Hfind. induction Hreplicas as [|r replicas Hr _ IH]; intros block_data; [done|].
    simpl. rewrite (Hget r) by done. by rewrite IH. }
  by rewrite Htry, Hfind.
Qed.

Lemma reconstruct_file_ext_rows st1 st2 file :
  rows_of (db st1) file = rows_of (db st2) file →
  (∀ r i, r ∈ rows_of (db st2) file →
     retrieve_block st1 (FileBlock.node_id r) (File.file_id file) i =
     retrieve_block st2 (FileBlock.node_id r) (File.file_id file) i) →
  reconstruct_file st1 file = reconstruct_file st2 file.
Proof.
  intros Hrows Hget. unfold reconstruct_file.
  rewrite !query_primaries_rows_of, Hrows.
  assert (Forall (λ r, r ∈ rows_of (db st2) file)
            (order_by_block_id
               (filter (λ r, FileBlock.is_replica r = false) (rows_of (db st2) file))))
    as Hblocks.
  { generalize (rows_of (db st2) file). intros rows. apply Forall_forall.
    assert (∀ (b : FileBlock.t) l x, x ∈ insert_by_block_id b l → x = b ∨ x ∈ l) as Hins.
    { intros b l x. induction l as [|y l IH]; simpl.
      - intros Hx%list_elem_of_singleton. by left.
      - case_decide.
        + intros [->|Hx]%elem_of_cons; [by left|by right].
        + intros [->|Hx]%elem_of_cons; [right; left|].
          destruct (IH Hx) as [->|?]; [by left|right; by right]. }
    induction rows as [|r rows IH]; intros x; [by intros ?%elem_of_nil|].
    rewrite filter_cons. case_decide.
    - unfold order_by_block_id. simpl. intros [->|Hx]%Hins; [left|right; by apply IH].
    - intros Hx. right. by apply IH. }
  revert Hblocks.
  generalize (order_by_block_id
                (filter (λ r, FileBlock.is_replica r = false) (rows_of (db st2) file))).
  intros blocks Hblocks.
  assert (∀ output, reconstruct_loop st1 file blocks output
                    = reconstruct_loop st2 file blocks output) as ->; [|done].
  induction Hblocks as [|b blocks Hb _ IH]; intros output; [done|].
  simpl. rewrite (reconstruct_block_ext_rows st1 st2) by done.
  destruct (reconstruct_block st2 file b); [apply IH|done].
Qed.

(** ** The position of each block in the file *)

Lemma split_loop_lookup n fuel (f : bytes) i :
  (0 < n)%nat → (length f < fuel)%nat →
  split_loop n fuel f !! i =
  if decide (i * n < length f)%nat
  then Some (take n (drop (i * n) f), md5 (take n (drop (i * n) f)))
  else None.
Proof.
  intros Hn. revert f i. induction fuel as [|fuel IH]; intros f i Hlen; [lia|].
  destruct (decide (f = [])) as [->|Hf].
  { rewrite split_loop_nil, lookup_nil. case_decide as Hi; [simpl in Hi; lia|done]. }
  rewrite split_loop_step by done.
  assert (0 < length f)%nat as Hpos by (destruct f; [done|simpl; lia]).
  destruct i as [|i].
  - rewrite decide_True by (simpl; lia). done.
  - rewrite lookup_cons. rewrite IH by (rewrite length_drop; lia).
    rewrite length_drop, drop_drop.
    replace (n + i * n)%nat with (S i * n)%nat by lia.
    destruct (decide (i * n < length f - n)%nat); [rewrite decide_True by lia|
                                                    rewrite decide_False by lia]; done.
Qed.

Lemma split_loop_length n fuel (f : bytes) :
  (0 < n)%nat → (length f < fuel)%nat →
  length (split_loop n fuel f) = ((length f + n - 1) / n)%nat.
Proof.
  intros Hn. revert f. induction fuel as [|fuel IH]; intros f Hlen; [lia|].
  destruct (decide (f = [])) as [->|Hf].
  { rewrite split_loop_nil. simpl. symmetry. apply Nat.div_small. lia. }
  rewrite split_loop_step by done.
  assert (0 < length f)%nat as Hpos by (destruct f; [done|simpl; lia]).
  simpl. rewrite IH by (rewrite length_drop; lia). rewrite length_drop.
  destruct (decide (n ≤ length f)%nat) as [Hle|Hgt].
  - replace (length f + n - 1)%nat with ((length f - n + n - 1) + 1 * n)%nat by lia.
    rewrite Nat.div_add by lia. lia.
  - replace (length f - n + n - 1)%nat with (n - 1)%nat by lia.
    rewrite (Nat.div_small (n - 1)) by lia.
    replace (length f + n - 1)%nat with ((length f - 1) + 1 * n)%nat by lia.
    rewrite Nat.div_add by lia. rewrite (Nat.div_small (length f - 1)) by lia. done.
Qed.

Lemma split_loop_positions n (f : bytes) :
  (0 < n)%nat →
  (∀ i : nat,
     split_loop n (S (length f)) f !! i =
     if decide (Z.of_nat i * Z.of_nat n < len f)
     then Some (take n (drop (i * n) f), md5 (take n (drop (i * n) f)))
     else None)
  ∧ len (split_loop n (S (length f)) f) = (len f + Z.of_nat n - 1) / Z.of_nat n.
Proof.
  intros Hn. unfold len. split.
  - intros i. rewrite split_loop_lookup by lia.
    destruct (decide (i * n < length f)%nat);
      [rewrite decide_True by lia|rewrite decide_False by lia]; done.
  - rewrite split_loop_length by lia.
    rewrite Nat2Z.inj_div. f_equal. lia.
Qed.

(** X22. Block [i] of [split_file_into_blocks] is the slice of the file
    that starts at byte [i * BLOCK_SIZE] and has at most [BLOCK_SIZE] bytes,
    with its MD5 digest; there is such a block exactly for the offsets
    within the file, so the number of blocks is the length of the file
    divided by [BLOCK_SIZE], rounded up. *)
Theorem block_positions (file_contents : bytes) :
  (∀ i : nat,
     split_file_into_blocks file_contents !! i =
     if decide (Z.of_nat i * 1048576 < len file_contents)
     then Some (take (Z.to_nat BLOCK_SIZE) (drop (i * Z.to_nat BLOCK_SIZE) file_contents),
                md5 (take (Z.to_nat BLOCK_SIZE)
                       (drop (i * Z.to_nat BLOCK_SIZE) file_contents)))
     else None)
  ∧ len (split_file_into_blocks file_contents) = (len file_contents + 1048576 - 1) / 1048576.
Proof.
  unfold split_file_into_blocks.
  pose proof (split_loop_positions (Z.to_nat BLOCK_SIZE) file_contents block_size_pos) as Hgen.
  rewrite !block_size_nat in Hgen. setoid_rewrite block_size_nat in Hgen. exact Hgen.
Qed.

End Coverage.

(** * Properties of the file routes *)

Section RouteCoverage.
Context `{Hashlib} `{VirtualDiskManager} `{Werkzeug}.

(** ** The file routes *)

Lemma distribute_failure_unchanged st file_contents file st' :
  distribute_file_blocks st file_contents file = (Returns false, st') → st' = st.
Proof.
  unfold distribute_file_blocks.
  pose proof (distribute_exit_unchanged st file_contents file) as Hexit.
  destruct (distribute_file_blocks_exit st file_contents file) as [exit st1].
  simpl in *. intros Hfalse.
  assert (st1 = st') as <- by (by destruct exit; simplify_eq).
  apply Hexit; intros ->; done.
Qed.

Lemma app_eq (a a' : app) :
  block_manager a = block_manager a' → files a = files a' →
  upload_folder a = upload_folder a' → a = a'.
Proof. destruct a, a'. simpl. by intros -> -> ->. Qed.

Lemma filter_new_row (rows : list FileRow.t) row :
  (∀ row', row' ∈ rows → File.id (FileRow.file row') ≠ File.id (FileRow.file row)) →
  filter (λ row', File.id (FileRow.file row') ≠ File.id (FileRow.file row)) (rows ++ [row])
  = rows.
Proof.
  intros Hfresh. rewrite filter_app.
  rewrite (filter_all _ rows) by by apply Forall_forall.
  rewrite (filter_none _ [row]); [apply app_nil_r|].
  constructor; [tauto|constructor].
Qed.

(** X23. An upload that is refused (no file, quota exceeded) or whose
    blocks [distribute_file_blocks] declines to store leaves no trace: when
    the key given to the new row was not in use and no file of
    [UPLOAD_FOLDER] had the UUID as its name, the block manager, the [File]
    table and [UPLOAD_FOLDER] are as before the request. The upload that ends
    in the handler of an exception does leave one, the new row of the [File]
    table without any block row; it does not occur when every registered
    node has its directory. *)
Theorem upload_failure_leaves_no_trace a user file uuid4 id :
  (∀ row, row ∈ files a → File.id (FileRow.file row) ≠ id) →
  upload_folder a !! uuid4 = None →
  ((upload_file a user file uuid4 id).1 ≠ FileUploaded →
   (upload_file a user file uuid4 id).1 ≠ UploadError →
   (upload_file a user file uuid4 id).2 = a)
  ∧ (directories_exist (block_manager a) →
     (upload_file a user file uuid4 id).1 ≠ UploadError)
  ∧ ((upload_file a user file uuid4 id).1 = UploadError →
     (∃ row, files (upload_file a user file uuid4 id).2 = files a ++ [row]
             ∧ FileRow.file row = File.mk id uuid4)
     ∧ db (block_manager (upload_file a user file uuid4 id).2) = db (block_manager a)
     ∧ upload_folder (upload_file a user file uuid4 id).2 = upload_folder a).
Proof.
  intros Hid Htemp. unfold upload_file.
  destruct file as [file|]; [|by split_and!]. case_decide; [by split_and!|].
  destruct (User.can_store_file _ _); [|by split_and!]. simpl.
  pose proof (distribute_returns (block_manager a) (FileStorage.stream file)
                (File.mk id uuid4)) as Hreturns.
  destruct (distribute_file_blocks _ _ _) as [[[]|] st] eqn:Hdist; simpl.
  - by split_and!.
  - apply distribute_failure_unchanged in Hdist as ->. split_and!; [|done|done].
    intros _ _. apply app_eq; simpl; [done| |by apply delete_insert_id].
    by apply (filter_new_row (files a) (FileRow.mk (File.mk id uuid4) _ _ _ _)).
  - split_and!; [done| |].
    + intros [ok Hok]%Hreturns. done.
    + intros _. split_and!; [by eexists|done|by apply delete_insert_id].
Qed.

Lemma refresh_retrieve st node_id file_id block_id :
  retrieve_block (refresh_node_storage st) node_id file_id block_id =
  retrieve_block st node_id file_id block_id.
Proof. done. Qed.

Lemma reconstruct_refreshed st file :
  reconstruct_file (refresh_node_storage st) file = reconstruct_file st file.
Proof. by apply reconstruct_file_ext. Qed.

Lemma query_file_new (rows : list FileRow.t) row :
  (∀ row', row' ∈ rows →
     File.file_id (FileRow.file row') ≠ File.file_id (FileRow.file row)) →
  query_file (rows ++ [row]) (File.file_id (FileRow.file row)) = Some row.
Proof.
  intros Hfresh. unfold query_file. rewrite filter_app.
  rewrite (filter_none _ rows) by by apply Forall_forall.
  by rewrite filter_cons_True.
Qed.

(** X24. What was uploaded is downloaded: after [upload_file] uploaded a
    file under a UUID that no row of the [File] table has, with a key that no
    block row refers to and no block stored under the UUID before,
    [download_file] by the same user sends the uploaded bytes under the
    secured file name. *)
Theorem upload_then_download `{!VirtualDiskManagerLaws} a user file uuid4 id a' :
  dict.wf (nodes (block_manager a)) →
  (∀ row, row ∈ files a → File.file_id (FileRow.file row) ≠ uuid4) →
  rows_of (db (block_manager a)) (File.mk id uuid4) = [] →
  no_stored_copy (block_manager a) (File.mk id uuid4) →
  upload_file a user (Some file) uuid4 id = (FileUploaded, a') →
  (download_file a' user uuid4).1
  = SendFile (FileStorage.stream file) (secure_filename (FileStorage.filename file)).
Proof.
  intros Hwf Huuid Hrows Hnone. unfold upload_file.
  case_decide; [done|]. destruct (User.can_store_file _ _); [|done]. simpl.
  destruct (distribute_file_blocks _ _ _) as [[[]|] st] eqn:Hdist; [|done..].
  intros [= <-]. unfold download_file. simpl.
  rewrite (query_file_new (files a) (FileRow.mk (File.mk id uuid4) _ _ _ _)) by done.
  simpl. rewrite decide_False by tauto.
  rewrite reconstruct_refreshed.
  by rewrite (round_trip_intact _ _ _ _ Hwf Hrows Hnone Hdist).
Qed.

(** X25. [delete_file] by its three outcomes. Deleted: the row that the
    UUID names belongs to the user, that row and the block rows of the file
    are gone while the other rows stay, every node's [used_storage] is the
    sum of the sizes of the remaining rows that carry its [node_id], and
    [reconstruct_file] for the file answers [False]. Not found, or denied
    because the file belongs to another user: nothing has changed. *)
Theorem delete_file_removes a user file_id :
  match (delete_file a user file_id).1 with
  | FileDeleted =>
      ∃ row,
        query_file (files a) file_id = Some row
        ∧ FileRow.user_id row = User.id user
        ∧ rows_of (db (block_manager (delete_file a user file_id).2)) (FileRow.file row) = []
        ∧ files (delete_file a user file_id).2 =
          filter (λ row', File.id (FileRow.file row') ≠ File.id (FileRow.file row)) (files a)
        ∧ db (block_manager (delete_file a user file_id).2) =
          filter (λ r, FileBlock.file_id r ≠ File.id (FileRow.file row))
            (db (block_manager a))
        ∧ (∀ k node, (k, node) ∈ nodes (block_manager (delete_file a user file_id).2) →
             StorageVirtualNode.used_storage node =
             assigned_bytes (db (block_manager (delete_file a user file_id).2))
               (StorageVirtualNode.node_id node))
        ∧ reconstruct_file (block_manager (delete_file a user file_id).2) (FileRow.file row)
          = (false, None)
  | DeleteNotFound =>
      query_file (files a) file_id = None ∧ (delete_file a user file_id).2 = a
  | DeleteDenied =>
      (∃ row, query_file (files a) file_id = Some row
              ∧ FileRow.user_id row ≠ User.id user)
      ∧ (delete_file a user file_id).2 = a
  end.
Proof.
  unfold delete_file. destruct (query_file (files a) file_id) as [row|]; [|done].
  case_decide as Howner; [simpl; by eauto|].
  cbn [fst snd]. unfold set_block_manager, set_files. cbn [block_manager files upload_folder].
  change (db (refresh_node_storage ?st)) with (db st).
  exists row. split; [done|]. split; [by destruct (decide (FileRow.user_id row = User.id user))|].
  split; [apply rows_of_deleted|]. split; [done|]. split; [apply delete_file_rows|].
  split.
  - intros k node'. rewrite refresh_nodes, list_elem_of_fmap.
    by intros ([k0 node] & [= -> ->] & Hin).
  - rewrite reconstruct_refreshed.
    unfold reconstruct_file. by rewrite query_primaries_rows_of, rows_of_deleted.
Qed.

(** X26. [download_file] sends a file only to the user it belongs to, under
    its stored name, and the bytes it sends are those that [reconstruct_file]
    checked block by block against the stored checksums; the block manager
    and the [File] table are as before, and the rebuilt file stays under
    [UPLOAD_FOLDER]. *)
Theorem download_sends_verified_bytes a user file_id content download_name :
  (download_file a user file_id).1 = SendFile content download_name →
  ∃ row datas,
    query_file (files a) file_id = Some row
    ∧ FileRow.user_id row = User.id user
    ∧ download_name = FileRow.filename row
    ∧ content = concat datas
    ∧ Forall2 (verified (block_manager a) (FileRow.file row))
        (query_primaries (db (block_manager a)) (FileRow.file row)) datas
    ∧ block_manager (download_file a user file_id).2 = block_manager a
    ∧ files (download_file a user file_id).2 = files a
    ∧ upload_folder (download_file a user file_id).2 !! ("download_" +:+ file_id)
      = Some content.
Proof.
  unfold download_file. destruct (query_file (files a) file_id) as [row|]; [|done].
  case_decide as Howner; [done|].
  destruct (reconstruct_file _ _) as [ok [output|]] eqn:Hrec; [|done].
  destruct ok; [|done]. simpl. intros [= <- <-].
  unfold reconstruct_file in Hrec.
  destruct (query_primaries _ _) as [|b blocks] eqn:Hblocks; [done|].
  destruct (reconstruct_loop _ _ (b :: blocks) []) as [ok output'] eqn:Hloop.
  injection Hrec as -> <-. apply reconstruct_loop_outcome in Hloop as (datas & Hall & ->).
  exists row, datas. split_and!; try done.
  - rewrite Hblocks. eapply Forall2_impl; [exact Hall|].
    intros block data. apply reconstruct_block_verified.
  - apply lookup_insert_eq.
Qed.

(** ** The tables through the requests *)

Lemma registry_keyed_update (f : StorageVirtualNode.t → StorageVirtualNode.t) k ns :
  (∀ node, StorageVirtualNode.node_id (f node) = StorageVirtualNode.node_id node) →
  registry_keyed ns → registry_keyed (dict.update f k ns).
Proof.
  intros Hf Hkeyed k' node'. rewrite elem_of_update. intros (node & Hin & ->).
  case_decide; [rewrite Hf|]; by apply Hkeyed.
Qed.

Lemma registry_keyed_fmap (f : string → StorageVirtualNode.t → StorageVirtualNode.t) ns :
  (∀ k node, StorageVirtualNode.node_id (f k node) = StorageVirtualNode.node_id node) →
  registry_keyed ns → registry_keyed ((λ kv, (kv.1, f kv.1 kv.2)) <$> ns).
Proof.
  intros Hf Hkeyed k' node'. rewrite list_elem_of_fmap.
  intros ([k node] & [= -> ->] & Hin). simpl. rewrite Hf. by apply Hkeyed.
Qed.

Lemma registry_keyed_delete_blocks st blocks :
  registry_keyed (nodes st) → registry_keyed (nodes (foldl delete_block st blocks)).
Proof.
  revert st. induction blocks as [|b blocks IH]; intros st Hkeyed; [done|].
  simpl. apply IH. rewrite delete_block_update. by apply registry_keyed_update.
Qed.

Lemma refresh_directories st :
  directories_exist st → directories_exist (refresh_node_storage st).
Proof.
  intros Hdirs k. rewrite refresh_nodes. unfold dict.keys.
  rewrite <- list_fmap_compose. apply Hdirs.
Qed.

Lemma refresh_accounting st :
  registry_keyed (nodes st) →
  registry_keyed (nodes (refresh_node_storage st))
  ∧ ∀ k node, (k, node) ∈ nodes (refresh_node_storage st) →
      StorageVirtualNode.used_storage node = assigned_bytes (db st) k.
Proof.
  intros Hkeyed. split.
  - rewrite refresh_nodes.
    by apply (registry_keyed_fmap
                (λ _ node, StorageVirtualNode.set_used_storage
                             (λ _, assigned_bytes (db st) (StorageVirtualNode.node_id node))
                             node)).
  - intros k node'. rewrite refresh_nodes, list_elem_of_fmap.
    intros ([k0 node] & [= -> ->] & Hin). simpl. by rewrite (Hkeyed _ _ Hin).
Qed.

Lemma table_keyed_new rows row :
  table_keyed rows →
  (∀ row', row' ∈ rows →
     File.id (FileRow.file row') ≠ File.id (FileRow.file row)
     ∧ File.file_id (FileRow.file row') ≠ File.file_id (FileRow.file row)) →
  table_keyed (rows ++ [row]).
Proof.
  intros Hkeyed Hfresh row1 row2.
  rewrite !elem_of_app, !list_elem_of_singleton.
  intros [Hin1| ->] [Hin2| ->] Hsame; [by apply Hkeyed| | |done].
  - destruct (Hfresh _ Hin1). destruct Hsame; done.
  - destruct (Hfresh _ Hin2). destruct Hsame; congruence.
Qed.

Lemma table_keyed_filter (P : FileRow.t → Prop) `{∀ row, Decision (P row)} rows :
  table_keyed rows → table_keyed (filter P rows).
Proof.
  intros Hkeyed row1 row2 [_ Hin1]%list_elem_of_filter [_ Hin2]%list_elem_of_filter.
  by apply Hkeyed.
Qed.

Lemma upload_file_wf a user file uuid4 id :
  app_wf a → fresh_key a uuid4 id → app_wf (upload_file a user file uuid4 id).2.
Proof.
  intros (Htable & Hkeyed & Hrows & Hacc & Hdirs) Hfresh. unfold upload_file.
  destruct file as [file|]; [|done]. case_decide; [done|].
  destruct (User.can_store_file _ _); [|done]. simpl.
  set (row := FileRow.mk (File.mk id uuid4) _ _ _ _).
  pose proof (distribute_returns (block_manager a) (FileStorage.stream file)
                (File.mk id uuid4) Hdirs) as [ok Hok].
  pose proof (distribute_directories (block_manager a) (FileStorage.stream file)
                (File.mk id uuid4) Hdirs) as Hdirs1.
  destruct (distribute_file_blocks _ _ _) as [[[]|] st] eqn:Hdist; simpl; [| |done].
  - destruct (distribute_adds (block_manager a) (FileStorage.stream file) (File.mk id uuid4))
      as (new & Hdb & Hnew & Hn).
    rewrite Hdist in Hdb, Hn. simpl in Hdb, Hn.
    assert (registry_keyed (nodes st)) as Hkeyed1.
    { rewrite Hn. unfold credit.
      by apply (registry_keyed_fmap
                  (λ k node, StorageVirtualNode.set_used_storage
                               (λ used, used + assigned_bytes new k) node)). }
    destruct (refresh_accounting st Hkeyed1) as [Hkeyed2 Hacc2].
    split_and!; simpl.
    + apply table_keyed_new; [done|]. intros row' Hrow'. by apply Hfresh.
    + done.
    + intros r. rewrite Hdb, elem_of_app. intros [Hr|Hr].
      * destruct (Hrows r Hr) as (Hpos & row' & Hrow' & Hid & Hnamed).
        split; [done|]. exists row'. split; [|done]. apply elem_of_app. by left.
      * eapply Forall_forall in Hnew as [(Hid & _ & Hnamed) Hpos]; [|exact Hr].
        split; [done|]. exists row. split; [|done].
        apply elem_of_app. right. by apply list_elem_of_singleton.
    + done.
    + by apply refresh_directories.
  - apply distribute_failure_unchanged in Hdist as ->.
    unfold app_wf. simpl.
    change (filter _ (files a ++ [row]))
      with (filter (λ row', File.id (FileRow.file row') ≠ File.id (FileRow.file row))
              (files a ++ [row])).
    rewrite (filter_new_row (files a) row) by (intros row' Hrow'; by apply Hfresh).
    done.
Qed.

Lemma delete_file_wf a user file_id : app_wf a → app_wf (delete_file a user file_id).2.
Proof.
  intros (Htable & Hkeyed & Hrows & Hacc & Hdirs). unfold delete_file.
  destruct (query_file (files a) file_id) as [row|]; [|done].
  case_decide; [done|].
  cbn [fst snd]. unfold set_block_manager, set_files. cbn [block_manager files upload_folder].
  assert (registry_keyed (nodes (delete_file_blocks (block_manager a) (FileRow.file row)).2))
    as Hkeyed1.
  { unfold delete_file_blocks. simpl. by apply registry_keyed_delete_blocks. }
  destruct (refresh_accounting _ Hkeyed1) as [Hkeyed2 Hacc2].
  unfold app_wf. cbn [block_manager files upload_folder].
  split_and!; [by apply table_keyed_filter|done| |done|].
  2:{ by apply refresh_directories, delete_directories. }
  intros r. change (db (refresh_node_storage ?st)) with (db st).
  rewrite delete_file_rows. intros [Hid Hr]%list_elem_of_filter.
  destruct (Hrows r Hr) as (Hpos & row' & Hrow' & Hid' & Hnamed).
  split; [done|]. exists row'. split; [|done].
  apply list_elem_of_filter. split; [congruence|done].
Qed.

Lemma extend_node_wf a node_id additional_storage_gb :
  app_wf a →
  app_wf (set_block_manager (λ st, (extend_node st node_id additional_storage_gb).2) a).
Proof.
  intros (Htable & Hkeyed & Hrows & Hacc & Hdirs). unfold set_block_manager, extend_node.
  destruct (dict.mem node_id (nodes (block_manager a))); [|by destruct a].
  split_and!; simpl; [done| |done| |].
  - by apply registry_keyed_update.
  - intros k node'. rewrite elem_of_update. intros (node & Hin & ->).
    rewrite <- (Hacc _ _ Hin). by case_decide.
  - intros k. simpl. rewrite keys_update. apply Hdirs.
Qed.

Lemma delete_node_elem st node_id k node' :
  (k, node') ∈ nodes (delete_node st node_id).2 →
  ∃ node, (k, node) ∈ nodes st
          ∧ StorageVirtualNode.node_id node' = StorageVirtualNode.node_id node
          ∧ StorageVirtualNode.used_storage node' = StorageVirtualNode.used_storage node.
Proof.
  unfold delete_node. destruct (dict.get _ _) as [node0|]; [|by eauto].
  case_decide; [by eauto|]. simpl. rewrite list_elem_of_fmap.
  intros ([k0 node] & [= -> ->] & Hin). apply list_elem_of_filter in Hin as [_ Hin].
  by exists node.
Qed.

Lemma delete_node_directories st node_id :
  directories_exist st → directories_exist (delete_node st node_id).2.
Proof.
  intros Hdirs k. unfold delete_node. destruct (dict.get _ _); [|apply Hdirs].
  case_decide; [apply Hdirs|]. simpl. unfold dict.keys.
  rewrite <- list_fmap_compose. intros ([k0 node] & -> & Hin)%list_elem_of_fmap.
  apply list_elem_of_filter in Hin as [Hne Hin]. simpl in *.
  rewrite lookup_delete_ne by done. apply Hdirs.
  apply list_elem_of_fmap. by exists (k0, node).
Qed.

Lemma delete_node_wf a node_id :
  app_wf a → app_wf (set_block_manager (λ st, (delete_node st node_id).2) a).
Proof.
  intros (Htable & Hkeyed & Hrows & Hacc & Hdirs).
  assert (db (delete_node (block_manager a) node_id).2 = db (block_manager a)) as Hdb.
  { unfold delete_node. destruct (dict.get _ _); [|done]. by case_decide. }
  split_and!; simpl; [done| |by rewrite Hdb| |].
  - intros k node' (node & Hin & -> & _)%delete_node_elem. by apply Hkeyed.
  - intros k node' (node & Hin & _ & ->)%delete_node_elem. rewrite Hdb. by apply Hacc.
  - by apply delete_node_directories.
Qed.

Lemma download_file_tables a user file_id :
  block_manager (download_file a user file_id).2 = block_manager a
  ∧ files (download_file a user file_id).2 = files a.
Proof.
  unfold download_file. destruct (query_file _ _); [|done]. case_decide; [done|].
  destruct (reconstruct_file _ _) as [ok [output|]]; [|done]. by destruct ok.
Qed.

Lemma serve_wf a req :
  app_wf a →
  match req with UploadFile _ _ uuid4 id => fresh_key a uuid4 id | _ => True end →
  app_wf (serve a req).
Proof.
  intros Hwf Hfresh. destruct req; simpl.
  - by apply upload_file_wf.
  - destruct (download_file_tables a user file_id) as [Hbm Hfiles].
    unfold app_wf. by rewrite Hbm, Hfiles.
  - by apply delete_file_wf.
  - done.
  - by apply extend_node_wf.
  - by apply delete_node_wf.
Qed.

Lemma fresh_uploads_app a reqs reqs' :
  fresh_uploads a (reqs ++ reqs') →
  fresh_uploads a reqs ∧ fresh_uploads (foldl serve a reqs) reqs'.
Proof.
  revert a. induction reqs as [|req reqs IH]; intros a; [done|].
  simpl. intros [Hreq Hrest]. apply IH in Hrest as [? ?]. done.
Qed.

(** With the directory of every registered node in place, an upload does
    not end in the handler of an exception. *)
Lemma upload_returns a user file uuid4 id :
  directories_exist (block_manager a) →
  (upload_file a user file uuid4 id).1 ≠ UploadError.
Proof.
  intros Hdirs. unfold upload_file.
  destruct file as [file|]; [|done]. case_decide; [done|].
  destruct (User.can_store_file _ _); [|done]. simpl.
  pose proof (distribute_returns (block_manager a) (FileStorage.stream file)
                (File.mk id uuid4) Hdirs) as [ok Hok].
  by destruct (distribute_file_blocks _ _ _) as [[[]|] st].
Qed.

Lemma serve_all_wf a reqs :
  app_wf a → fresh_uploads a reqs → app_wf (foldl serve a reqs).
Proof.
  revert a. induction reqs as [|req reqs IH]; intros a Hwf Hfresh; [done|].
  destruct Hfresh as [Hreq Hfresh]. simpl. apply IH; [|done]. by apply serve_wf.
Qed.

(** X27. The routes keep the tables in agreement: started in a state
    where the [File] table is keyed, every node is registered under its own
    [node_id] and has its directory, every block row has a positive size,
    belongs to a row of the [File] table and carries the name of a block of
    that file, and every counter is the sum of the sizes of the rows of its
    node, any sequence of uploads (each with a key and a UUID not in use),
    downloads, deletions, clean-ups, extensions and removals of nodes ends
    in such a state, and no upload of the sequence ends in the handler of an
    exception. *)
Theorem routes_keep_tables a reqs :
  app_wf a → fresh_uploads a reqs →
  app_wf (foldl serve a reqs)
  ∧ accounting_consistent (block_manager (foldl serve a reqs))
  ∧ ∀ served user file uuid4 id rest,
      reqs = served ++ UploadFile user file uuid4 id :: rest →
      (upload_file (foldl serve a served) user file uuid4 id).1 ≠ UploadError.
Proof.
  intros Hwf Hfresh. pose proof (serve_all_wf a reqs Hwf Hfresh) as Hwf'.
  split; [done|]. split.
  - destruct Hwf' as (_ & _ & Hrows & Hacc & _). split; [|done].
    intros r Hr. destruct (Hrows r Hr). lia.
  - intros served user file uuid4 id rest ->.
    apply fresh_uploads_app in Hfresh as [Hserved _].
    destruct (serve_all_wf a served Hwf Hserved) as (_ & _ & _ & _ & Hdirs).
    by apply upload_returns.
Qed.

(** ** An uploaded file stays downloadable *)

Lemma query_file_Some rows file_id row :
  query_file rows file_id = Some row →
  row ∈ rows ∧ File.file_id (FileRow.file row) = file_id.
Proof.
  unfold query_file. intros (rest & Hfilter)%head_Some.
  assert (row ∈ filter (λ row, File.file_id (FileRow.file row) = file_id) rows) as Hin
    by (rewrite Hfilter; left).
  apply list_elem_of_filter in Hin as [??]. done.
Qed.

Lemma query_file_keyed rows row :
  table_keyed rows → row ∈ rows →
  query_file rows (File.file_id (FileRow.file row)) = Some row.
Proof.
  intros Hkeyed Hrow.
  destruct (query_file rows (File.file_id (FileRow.file row))) as [row'|] eqn:Hq.
  - apply query_file_Some in Hq as [Hrow' Hid]. f_equal. apply Hkeyed; auto.
  - unfold query_file in Hq. apply head_None in Hq.
    assert (row ∈ filter (λ row', File.file_id (FileRow.file row')
                                  = File.file_id (FileRow.file row)) rows) as Hin
      by by apply list_elem_of_filter.
    rewrite Hq in Hin. by apply elem_of_nil in Hin.
Qed.

Lemma app_wf_paths_named a row :
  app_wf a → row ∈ files a → paths_named (block_manager a) (FileRow.file row).
Proof.
  intros (Htable & _ & Hrows & _ & _) Hrow r [Hid Hr]%list_elem_of_filter.
  destruct (Hrows r Hr) as (_ & row' & Hrow' & Hid' & Hnamed).
  assert (row' = row) as -> by (apply Htable; [done|done|left; congruence]). done.
Qed.

Lemma delete_node_retrieve st node_id node_id' file_id block_id :
  node_id' ≠ node_id →
  retrieve_block (delete_node st node_id).2 node_id' file_id block_id =
  retrieve_block st node_id' file_id block_id.
Proof.
  intros Hne. unfold delete_node. destruct (dict.get _ _); [|done].
  case_decide; [done|]. unfold retrieve_block, read_file. simpl.
  by rewrite lookup_delete_ne.
Qed.

(** In a state whose tables agree, a node that [delete_node] removes has no
    block row. *)
Lemma delete_node_has_no_row a node_id r :
  app_wf a → (delete_node (block_manager a) node_id).1 = NodeDeleted →
  r ∈ db (block_manager a) → FileBlock.node_id r ≠ node_id.
Proof.
  intros (_ & _ & Hrows & Hacc & _). unfold delete_node.
  destruct (dict.get _ _) as [node|] eqn:Hget; [|done].
  case_decide as Hused; [done|]. intros _ Hr <-.
  apply get_Some_elem in Hget. rewrite (Hacc _ _ Hget) in Hused.
  assert (FileBlock.block_size r ≤ assigned_bytes (db (block_manager a)) (FileBlock.node_id r)).
  { apply assigned_bytes_elem; [|done]. intros r' Hr'. destruct (Hrows r' Hr'). lia. }
  destruct (Hrows r Hr). lia.
Qed.

Lemma serve_keeps_file `{!VirtualDiskManagerLaws} a req row content :
  app_wf a → row ∈ files a →
  reconstruct_file (block_manager a) (FileRow.file row) = (true, Some content) →
  match req with
  | UploadFile _ _ uuid4 id => fresh_key a uuid4 id
  | DeleteFile user file_id =>
      file_id = File.file_id (FileRow.file row) → User.id user ≠ FileRow.user_id row
  | _ => True
  end →
  row ∈ files (serve a req)
  ∧ reconstruct_file (block_manager (serve a req)) (FileRow.file row) = (true, Some content).
Proof.
  intros Hwf Hrow Hintact Hreq. destruct req; simpl.
  - unfold upload_file. destruct file as [file|]; [|done]. case_decide; [done|].
    destruct (User.can_store_file _ _); [|done]. simpl.
    destruct (Hreq row Hrow) as [Hid Huuid].
    destruct (distribute_other_files (block_manager a) (FileStorage.stream file)
                (File.mk id uuid4) (FileRow.file row)) as (Hrows & Hget & Hsame); [done..|].
    destruct (distribute_file_blocks _ _ _) as [[[]|] st] eqn:Hdist; simpl in *.
    + split; [apply elem_of_app; by left|]. rewrite reconstruct_refreshed. congruence.
    + apply distribute_failure_unchanged in Hdist as ->. split; [|done].
      apply list_elem_of_filter. split; [done|]. apply elem_of_app. by left.
    + split; [apply elem_of_app; by left|]. rewrite <- Hintact.
      apply reconstruct_file_ext; [|exact Hget].
      destruct (distribute_adds_rows (block_manager a) (FileStorage.stream file)
                  (File.mk id uuid4)) as (new & Hdb & Hnew & _).
      rewrite Hdist in Hdb. done.
  - destruct (download_file_tables a user file_id) as [-> ->]. done.
  - unfold delete_file. destruct (query_file (files a) file_id) as [other|] eqn:Hq; [|done].
    case_decide as Howner; [done|]. apply query_file_Some in Hq as [Hother Hname].
    assert (File.id (FileRow.file row) ≠ File.id (FileRow.file other)
            ∧ File.file_id (FileRow.file row) ≠ File.file_id (FileRow.file other))
      as [Hid Huuid].
    { destruct Hwf as (Htable & _).
      assert (row ≠ other) as Hne.
      { intros ->. apply Hreq; [done|].
        by destruct (decide (FileRow.user_id other = User.id user)). }
      split; intros Hsame; apply Hne, Htable; auto. }
    cbn [fst snd]. unfold set_block_manager, set_files.
    cbn [block_manager files upload_folder]. split.
    + apply list_elem_of_filter. split; done.
    + rewrite reconstruct_refreshed.
      destruct (delete_other_files (block_manager a) (FileRow.file other) (FileRow.file row))
        as (_ & _ & ->); [by apply app_wf_paths_named|done|done|done].
  - done.
  - split; [done|]. simpl. unfold extend_node.
    destruct (dict.mem _ _); [|done]. simpl. rewrite <- Hintact.
    by apply reconstruct_file_ext.
  - split; [done|]. rewrite <- Hintact. simpl.
    destruct (delete_node (block_manager a) node_id) as [exit st'] eqn:Hdel.
    assert (db st' = db (block_manager a)) as Hdb.
    { revert Hdel. unfold delete_node. destruct (dict.get _ _); [|by intros [= _ <-]].
      case_decide; by intros [= _ <-]. }
    assert (exit ≠ NodeDeleted → st' = block_manager a) as Hsame.
    { revert Hdel. unfold delete_node. destruct (dict.get _ _); [|by intros [= _ <-]].
      case_decide; [by intros [= _ <-]|]. by intros [= <- _]. }
    destruct exit; [by rewrite Hsame..|].
    apply reconstruct_file_ext_rows; simpl; [by rewrite Hdb|].
    intros r i [_ Hr]%list_elem_of_filter.
    replace st' with (delete_node (block_manager a) node_id).2 by by rewrite Hdel.
    apply delete_node_retrieve.
    apply (delete_node_has_no_row a node_id r Hwf); [by rewrite Hdel|done].
Qed.

Lemma serve_all_keeps_file `{!VirtualDiskManagerLaws} a reqs row content :
  app_wf a → row ∈ files a →
  reconstruct_file (block_manager a) (FileRow.file row) = (true, Some content) →
  fresh_uploads a reqs → spares row reqs →
  app_wf (foldl serve a reqs)
  ∧ row ∈ files (foldl serve a reqs)
  ∧ reconstruct_file (block_manager (foldl serve a reqs)) (FileRow.file row)
    = (true, Some content).
Proof.
  revert a. induction reqs as [|req reqs IH]; intros a Hwf Hrow Hintact Hfresh Hspares;
    [done|].
  destruct Hfresh as [Hreq Hfresh]. simpl.
  assert (match req with
          | UploadFile _ _ uuid4 id => fresh_key a uuid4 id
          | DeleteFile user file_id =>
              file_id = File.file_id (FileRow.file row) →
              User.id user ≠ FileRow.user_id row
          | _ => True
          end) as Hreq'.
  { destruct req; try done. apply (Hspares user). left. }
  destruct (serve_keeps_file a req row content Hwf Hrow Hintact Hreq') as [Hrow' Hintact'].
  apply IH; [by apply serve_wf|done|done|done|].
  intros user file_id Hin. apply (Hspares user). by right.
Qed.

(** X28. An uploaded file stays downloadable: in a state whose tables
    agree and whose nodes have their directories, a file that
    [reconstruct_file] rebuilds is sent with the same bytes to its owner by
    [download_file] after any sequence of uploads (each with a key and a
    UUID not in use), downloads, deletions of files, clean-ups, extensions
    and removals of nodes, provided the owner did not ask to delete it. *)
Theorem uploaded_file_stays_downloadable `{!VirtualDiskManagerLaws}
    a row content reqs owner :
  app_wf a → row ∈ files a →
  reconstruct_file (block_manager a) (FileRow.file row) = (true, Some content) →
  fresh_uploads a reqs → spares row reqs →
  User.id owner = FileRow.user_id row →
  (download_file (foldl serve a reqs) owner (File.file_id (FileRow.file row))).1
  = SendFile content (FileRow.filename row).
Proof.
  intros Hwf Hrow Hintact Hfresh Hspares Howner.
  destruct (serve_all_keeps_file a reqs row content Hwf Hrow Hintact Hfresh Hspares)
    as ((Htable & _) & Hrow' & Hintact').
  unfold download_file. rewrite (query_file_keyed _ row Htable Hrow').
  rewrite decide_False by (intros Hne; by apply Hne).
  by rewrite Hintact'.
Qed.

End RouteCoverage.

(** * The sample virtual disks and the sample states *)

(** The virtual disks modelled from the design document keep the laws of
    the interface. *)
Global Instance spec_virtual_disks_laws : @VirtualDiskManagerLaws spec_virtual_disks.
Proof.
  split; simpl; unfold VirtualDisk.manager_store, VirtualDisk.manager_retrieve.
  - intros d node_id data key d' Hstore.
    destruct (d !! node_id) as [disk|] eqn:Hdisk; [|done].
    unfold VirtualDisk.store in Hstore. case_decide; [done|].
    injection Hstore as <-. rewrite lookup_insert_eq. simpl.
    unfold VirtualDisk.retrieve. simpl. apply lookup_insert_eq.
  - intros d node_id data key d' Hstore.
    destruct (d !! node_id) as [disk|] eqn:Hdisk;
      [|injection Hstore as <-; by rewrite Hdisk].
    unfold VirtualDisk.store in Hstore. case_decide; [|done].
    injection Hstore as <-. by rewrite lookup_insert_eq.
  - intros d node_id data key ok d' node_id' key' Hstore Hne.
    destruct (d !! node_id) as [disk|] eqn:Hdisk; [|by injection Hstore as _ <-].
    unfold VirtualDisk.store in Hstore.
    destruct (decide (node_id' = node_id)) as [->|Hnode].
    + case_decide; injection Hstore as _ <-; rewrite lookup_insert_eq, Hdisk; [done|].
      simpl. unfold VirtualDisk.retrieve. simpl.
      apply lookup_insert_ne. congruence.
    + case_decide; injection Hstore as _ <-; by rewrite lookup_insert_ne.
Qed.

(** The sample cluster starts with no stored bytes, distinct node ids and
    consistent counters. *)
Lemma two_nodes_no_stored_copy total1 total2 file :
  no_stored_copy (two_nodes total1 total2) file.
Proof.
  intros node_id block_id. unfold retrieve_block. simpl.
  unfold VirtualDisk.manager_retrieve, read_file.
  destruct (decide (node_id = "node1")) as [->|Hn1].
  - rewrite lookup_singleton_eq. simpl. unfold VirtualDisk.retrieve. simpl.
    rewrite lookup_empty. simpl. rewrite lookup_insert_eq. simpl. apply lookup_empty.
  - rewrite lookup_singleton_ne by done. simpl.
    rewrite lookup_insert_ne by done.
    destruct (decide (node_id = "node2")) as [->|Hn2].
    + rewrite lookup_singleton_eq. simpl. apply lookup_empty.
    + by rewrite lookup_singleton_ne by done.
Qed.

Lemma two_nodes_wf total1 total2 : dict.wf (nodes (two_nodes total1 total2)).
Proof.
  unfold dict.wf. simpl. apply NoDup_cons. split; [|apply NoDup_singleton].
  intros Hin. apply list_elem_of_singleton in Hin. discriminate.
Qed.

Lemma two_nodes_directories total1 total2 : directories_exist (two_nodes total1 total2).
Proof.
  intros k Hk. simpl in Hk.
  apply elem_of_cons in Hk as [->|Hk]; [by eexists|].
  apply elem_of_cons in Hk as [->|Hk]; [by eexists|].
  by apply elem_of_nil in Hk.
Qed.

Lemma two_nodes_consistent total1 total2 : accounting_consistent (two_nodes total1 total2).
Proof.
  split; simpl.
  - intros r Hr. by apply elem_of_nil in Hr.
  - intros k node Hin.
    apply elem_of_cons in Hin as [[= -> ->]|Hin]; [done|].
    apply elem_of_cons in Hin as [[= -> ->]|Hin]; [done|].
    by apply elem_of_nil in Hin.
Qed.

(** * The model on sample inputs *)

Example split_loop_three_blocks :
  (split_loop (H := sample_digest) 2 6
     [Byte.x61; Byte.x62; Byte.x63; Byte.x64; Byte.x65]).*1
  = [[Byte.x61; Byte.x62]; [Byte.x63; Byte.x64]; [Byte.x65]].
Proof. reflexivity. Qed.

(** An input of 1 MiB and one byte gives a full block and a block of one
    byte. *)
Example split_one_mebibyte_and_one_byte :
  (λ block : bytes * string, len block.1)
  <$> split_file_into_blocks (H := λ _, EmptyString)
        (replicate (Z.to_nat 1048577) Byte.x00)
  = [1048576; 1].
Proof. vm_compute. reflexivity. Qed.

Example select_even_block :
  select_nodes_for_block (nodes (two_nodes 1 1)) 0 None = ["node1"; "node2"].
Proof. reflexivity. Qed.

Example select_odd_block :
  select_nodes_for_block (nodes (two_nodes 1 1)) 1 None = ["node2"; "node1"].
Proof. reflexivity. Qed.

Example select_three_of_two :
  select_nodes_for_block (nodes (two_nodes 1 1)) 4 (Some 3) = ["node1"; "node2"].
Proof. reflexivity. Qed.

(** With [num_replicas=0] the selection is empty although nodes exist. *)
Example select_no_replica :
  select_nodes_for_block (nodes (two_nodes 1 1)) 0 (Some 0) = [].
Proof. reflexivity. Qed.

(** Four blocks of 2, 2, 2 and 1 bytes on two nodes: eight rows, and 7
    bytes accounted on each node. *)
Example four_blocks_on_two_nodes :
  let blocks_data :=
    [([Byte.x61; Byte.x62], "c0"); ([Byte.x63; Byte.x64], "c1");
     ([Byte.x65; Byte.x66], "c2"); ([Byte.x67], "c3")] in
  let st := (distribute_loop sample_file 0 blocks_data (two_nodes 100 100)).2 in
  length (db st) = 8%nat
  ∧ StorageVirtualNode.used_storage <$> dict.values (nodes st) = [7; 7]
  ∧ (FileBlock.node_id <$> query_primaries (db st) sample_file)
    = ["node1"; "node2"; "node1"; "node2"].
Proof. vm_compute. done. Qed.

(** The sample file is read back as written, and also after the primary's
    bytes were altered; not after the replica was lost as well. *)
Example sample_read_back :
  reconstruct_file (H := sample_digest) sample_stored sample_file
  = (true, Some sample_bytes).
Proof. vm_compute. reflexivity. Qed.

Example sample_read_back_corrupted :
  reconstruct_file (H := sample_digest) sample_corrupted sample_file
  = (true, Some sample_bytes).
Proof. vm_compute. reflexivity. Qed.

Example sample_read_back_lost :
  reconstruct_file (H := sample_digest) sample_lost sample_file = (false, Some []).
Proof. vm_compute. reflexivity. Qed.

(** The virtual disk of the 1-byte node rejects the 2-byte block, which
    goes to a block file instead; the node's counter is incremented all the
    same. *)
Example uneven_nodes_overfilled :
  StorageVirtualNode.used_storage
  <$> dict.values (nodes (distribute_file_blocks (H := sample_digest) uneven_nodes
                            sample_bytes sample_file).2)
  = [2; 2].
Proof. vm_compute. reflexivity. Qed.

(** With the directory of [node2] missing, the primary of the one block is
    stored on [node1] and the [open] for the replica raises: one row is in
    the session and 2 bytes are counted on [node1]. *)
Example distribute_without_directory :
  let result :=
    distribute_file_blocks (H := sample_digest) missing_directory sample_bytes sample_file in
  result.1 = FileNotFoundError
  ∧ StorageVirtualNode.used_storage <$> dict.values (nodes result.2) = [2; 0]
  ∧ length (db result.2) = 1%nat.
Proof. vm_compute. done. Qed.

(** The upload route then ends in its exception handler: the [File] row
    stays, the block row is rolled back, and the counter keeps the 2
    bytes. *)
Example upload_without_directory :
  let result :=
    upload_file (H := sample_digest) (H1 := sample_secure_filename)
      (App missing_directory [] ∅) sample_user (Some sample_upload) "f1" 1 in
  result.1 = UploadError
  ∧ files result.2 = [sample_row]
  ∧ db (block_manager result.2) = []
  ∧ StorageVirtualNode.used_storage <$> dict.values (nodes (block_manager result.2)) = [2; 0]
  ∧ upload_folder result.2 = ∅.
Proof. vm_compute. done. Qed.

Example delete_restores_usage :
  let st := (delete_file_blocks sample_stored sample_file).2 in
  StorageVirtualNode.used_storage <$> dict.values (nodes st) = [0; 0] ∧ db st = [].
Proof. vm_compute. done. Qed.

(** * The properties at the sample states *)

(** The distribution of the sample file succeeds and leaves
    [sample_stored]. *)
Lemma sample_distributed :
  distribute_file_blocks (H := sample_digest) (two_nodes 100 100) sample_bytes sample_file
  = (Returns true, sample_stored).
Proof. vm_compute. reflexivity. Qed.

(** The two rows of the sample file: the primary on [node1], the replica
    on [node2]. *)
Lemma sample_rows st :
  db st = db sample_stored →
  rows_of (db st) sample_file =
  [FileBlock.mk 0 1 "node1" 2 "27091" false None (Some (VDisk "node1" "f1_block_0"));
   FileBlock.mk 0 1 "node2" 2 "27091" true (Some 0)
     (Some (BlockFile "node2" "f1_block_0.dat"))].
Proof. intros ->. vm_compute. reflexivity. Qed.

Lemma sample_blocks :
  split_file_into_blocks (H := sample_digest) sample_bytes = [(sample_bytes, "27091")].
Proof. vm_compute. reflexivity. Qed.

(** In [sample_corrupted] the altered bytes of the primary do not hash to
    its checksum, and the replica's bytes are the block's. *)
Lemma sample_corrupted_detectable :
  corruption_detectable (H := sample_digest) sample_corrupted sample_file
    (split_file_into_blocks (H := sample_digest) sample_bytes).
Proof.
  intros r data block Hr Hfetch Hsum Hblock.
  rewrite sample_rows in Hr by reflexivity. rewrite sample_blocks in Hblock.
  apply elem_of_cons in Hr as [->|Hr].
  - vm_compute in Hfetch. injection Hfetch as <-. vm_compute in Hsum. discriminate.
  - apply list_elem_of_singleton in Hr as ->.
    vm_compute in Hfetch. injection Hfetch as <-.
    vm_compute in Hblock. injection Hblock as <-. reflexivity.
Qed.

(** In [sample_corrupted] the replica is a valid copy of the one block. *)
Lemma sample_corrupted_valid i :
  0 ≤ i < len (split_file_into_blocks (H := sample_digest) sample_bytes) →
  ∃ r, r ∈ rows_of (db sample_corrupted) sample_file ∧ FileBlock.block_id r = i
       ∧ valid_copy (H := sample_digest) sample_corrupted sample_file r.
Proof.
  rewrite sample_blocks. intros Hi. assert (i = 0) as -> by (unfold len in Hi; simpl in Hi; lia).
  exists (FileBlock.mk 0 1 "node2" 2 "27091" true (Some 0)
            (Some (BlockFile "node2" "f1_block_0.dat"))).
  split_and!.
  - rewrite sample_rows by reflexivity. right. left.
  - reflexivity.
  - exists sample_bytes. split; vm_compute; reflexivity.
Qed.

(** C2 at two nodes of 1 byte each and a 2-byte file: 4 bytes are needed,
    2 are free. *)
Lemma atomic_precheck_witness :
  total_size_needed (split_file_into_blocks (H := sample_digest) sample_bytes)
    > available_storage (nodes (two_nodes 1 1))
  ∧ distribute_file_blocks (H := sample_digest) (two_nodes 1 1) sample_bytes sample_file
    = (Returns false, two_nodes 1 1).
Proof.
  assert (total_size_needed (split_file_into_blocks (H := sample_digest) sample_bytes)
            > available_storage (nodes (two_nodes 1 1)))
    as Hneed by (vm_compute; reflexivity).
  split; [exact Hneed|].
  exact (atomic_precheck (H := sample_digest) (two_nodes 1 1) sample_bytes sample_file Hneed).
Defined.

(** C10 at two nodes of 100 bytes each, with their directories, and a
    2-byte file. *)
Lemma no_nodes_abort_unreachable_witness :
  sample_bytes ≠ []
  ∧ total_size_needed (split_file_into_blocks (H := sample_digest) sample_bytes)
      ≤ available_storage (nodes (two_nodes 100 100))
  ∧ directories_exist (two_nodes 100 100)
  ∧ distribute_file_blocks_exit (H := sample_digest) (two_nodes 100 100)
      sample_bytes sample_file = (Committed, sample_stored).
Proof.
  assert (sample_bytes ≠ []) as Hdata by discriminate.
  assert (total_size_needed (split_file_into_blocks (H := sample_digest) sample_bytes)
            ≤ available_storage (nodes (two_nodes 100 100))) as Hfits
    by (vm_compute; discriminate).
  split; [exact Hdata|]. split; [exact Hfits|].
  split; [exact (two_nodes_directories 100 100)|].
  destruct (no_nodes_abort_unreachable (H := sample_digest) (two_nodes 100 100)
              sample_bytes sample_file Hdata Hfits)
    as (_ & _ & _ & _ & Hreturns).
  destruct (Hreturns (two_nodes_directories 100 100)) as (st' & Hexit & Hdist & _).
  rewrite Hexit. f_equal. unfold sample_stored. rewrite Hdist. reflexivity.
Defined.

(** C5 at two nodes, block index 3 and the default replication factor:
    the second entry is the node at position [(3 + 1) mod 2]. *)
Lemma round_robin_placement_witness :
  1 ≤ len (dict.keys (nodes (two_nodes 1 1)))
  ∧ 0 ≤ 1 < default REPLICATION_FACTOR None `min` len (dict.keys (nodes (two_nodes 1 1)))
  ∧ select_nodes_for_block (nodes (two_nodes 1 1)) 3 None !! Z.to_nat 1
    = dict.keys (nodes (two_nodes 1 1)) !! Z.to_nat ((3 + 1) `mod` 2)
  ∧ select_nodes_for_block (nodes (two_nodes 1 1)) 3 None = ["node2"; "node1"].
Proof.
  assert (1 ≤ len (dict.keys (nodes (two_nodes 1 1)))) as Hn
    by (vm_compute; discriminate).
  assert (0 ≤ 1 < default REPLICATION_FACTOR None
                    `min` len (dict.keys (nodes (two_nodes 1 1)))) as Hj
    by (vm_compute; split; [discriminate|reflexivity]).
  split; [exact Hn|]. split; [exact Hj|]. split; [|reflexivity].
  destruct (round_robin_placement (nodes (two_nodes 1 1)) 3 None) as [Hsel _].
  destruct (Hsel Hn) as (_ & Hlookup & _). exact (proj1 (Hlookup 1 Hj)).
Defined.

(** C6 at two empty nodes: distribute, delete, distribute again. *)
Lemma usage_accounting_invariant_witness :
  accounting_consistent (two_nodes 100 100)
  ∧ accounting_consistent
      (run_operations (H := sample_digest) (two_nodes 100 100)
         [Distribute sample_bytes sample_file; Delete sample_file;
          Distribute sample_bytes sample_file]).
Proof.
  split; [apply two_nodes_consistent|].
  apply usage_accounting_invariant, two_nodes_consistent.
Defined.

(** C3 (amended) at a node of 1 byte next to a node of 100 bytes: after the
    2-byte file is distributed, 4 bytes are used of 101. *)
Lemma aggregate_capacity_witness :
  dict.wf (nodes uneven_nodes)
  ∧ distribute_file_blocks (H := sample_digest) uneven_nodes sample_bytes sample_file
    = (Returns true, (distribute_file_blocks (H := sample_digest) uneven_nodes sample_bytes sample_file).2)
  ∧ total_used (nodes (distribute_file_blocks (H := sample_digest) uneven_nodes
                         sample_bytes sample_file).2) ≤ 101.
Proof.
  assert (distribute_file_blocks (H := sample_digest) uneven_nodes sample_bytes sample_file
    = (Returns true, (distribute_file_blocks (H := sample_digest) uneven_nodes sample_bytes sample_file).2))
    as Hdist by (vm_compute; reflexivity).
  split; [apply two_nodes_wf|]. split; [exact Hdist|].
  exact (aggregate_capacity_after_distribute (H := sample_digest) uneven_nodes sample_bytes
           sample_file _ (two_nodes_wf 1 100) Hdist).
Defined.

(** C3 as stated fails: with a node of 1 byte next to a node of 100 bytes,
    both empty, the precheck for a 2-byte file passes (4 bytes needed, 101
    free), [distribute_file_blocks] answers [True], and [node1], the primary
    of block 0, ends with 2 bytes used of 1. *)
Lemma per_node_capacity_counterexample :
  within_capacity (nodes uneven_nodes)
  ∧ dict.wf (nodes uneven_nodes)
  ∧ accounting_consistent uneven_nodes
  ∧ (distribute_file_blocks (H := sample_digest) uneven_nodes sample_bytes sample_file).1 = Returns true
  ∧ ¬ within_capacity
        (nodes (distribute_file_blocks (H := sample_digest) uneven_nodes
                  sample_bytes sample_file).2).
Proof.
  split_and!.
  - intros k node Hin.
    apply elem_of_cons in Hin as [[= -> ->]|Hin]; [vm_compute; discriminate|].
    apply elem_of_cons in Hin as [[= -> ->]|Hin]; [vm_compute; discriminate|].
    by apply elem_of_nil in Hin.
  - apply two_nodes_wf.
  - apply two_nodes_consistent.
  - vm_compute. reflexivity.
  - intros Hwithin.
    specialize (Hwithin "node1" (StorageVirtualNode.mk "node1" 4 16 1000 1 2 ∅)).
    assert (2 ≤ 1) as Habsurd; [|lia].
    apply Hwithin. vm_compute. left.
Qed.

(** C1 at the sample file, read back after the primary's bytes were
    altered. *)
Lemma round_trip_witness :
  rows_of (db (two_nodes 100 100)) sample_file = []
  ∧ distribute_file_blocks (H := sample_digest) (two_nodes 100 100) sample_bytes sample_file
    = (Returns true, sample_stored)
  ∧ db sample_corrupted = db sample_stored
  ∧ corruption_detectable (H := sample_digest) sample_corrupted sample_file
      (split_file_into_blocks (H := sample_digest) sample_bytes)
  ∧ (∀ i, 0 ≤ i < len (split_file_into_blocks (H := sample_digest) sample_bytes) →
       ∃ r, r ∈ rows_of (db sample_corrupted) sample_file ∧ FileBlock.block_id r = i
            ∧ valid_copy (H := sample_digest) sample_corrupted sample_file r)
  ∧ reconstruct_file (H := sample_digest) sample_corrupted sample_file
    = (true, Some sample_bytes).
Proof.
  split; [reflexivity|]. split; [exact sample_distributed|]. split; [reflexivity|].
  split; [exact sample_corrupted_detectable|]. split; [exact sample_corrupted_valid|].
  exact (proj1 (round_trip (H := sample_digest) (two_nodes 100 100) sample_bytes sample_file)
           sample_stored sample_corrupted eq_refl sample_distributed eq_refl
           sample_corrupted_detectable sample_corrupted_valid).
Defined.

(** C7 at the sample file: with the primary's bytes altered the file is
    rebuilt from the replica; with the replica lost as well,
    [reconstruct_file] answers [False]. *)
Lemma checksum_fallback_witness :
  rows_of (db (two_nodes 100 100)) sample_file = []
  ∧ distribute_file_blocks (H := sample_digest) (two_nodes 100 100) sample_bytes sample_file
    = (Returns true, sample_stored)
  ∧ db sample_corrupted = db sample_stored
  ∧ db sample_lost = db sample_stored
  ∧ corruption_detectable (H := sample_digest) sample_corrupted sample_file
      (split_file_into_blocks (H := sample_digest) sample_bytes)
  ∧ (∀ i, 0 ≤ i < len (split_file_into_blocks (H := sample_digest) sample_bytes) →
       ∃ r, r ∈ rows_of (db sample_corrupted) sample_file ∧ FileBlock.block_id r = i
            ∧ valid_copy (H := sample_digest) sample_corrupted sample_file r)
  ∧ retrieve_block sample_corrupted "node1" "f1" 0 = Some [Byte.x00; Byte.x00]
  ∧ reconstruct_file (H := sample_digest) sample_corrupted sample_file
    = (true, Some sample_bytes)
  ∧ (reconstruct_file (H := sample_digest) sample_lost sample_file).1 = false.
Proof.
  split; [reflexivity|]. split; [exact sample_distributed|]. split; [reflexivity|].
  split; [reflexivity|].
  split; [exact sample_corrupted_detectable|]. split; [exact sample_corrupted_valid|].
  split; [vm_compute; reflexivity|]. split.
  - exact (proj2 (proj1 (checksum_fallback (H := sample_digest) (two_nodes 100 100)
                           sample_bytes sample_file sample_stored sample_corrupted
                           eq_refl sample_distributed eq_refl)
                    sample_corrupted_detectable sample_corrupted_valid)).
  - apply (proj2 (checksum_fallback (H := sample_digest) (two_nodes 100 100)
                    sample_bytes sample_file sample_stored sample_lost
                    eq_refl sample_distributed eq_refl)).
    exists 0. rewrite sample_blocks. split; [vm_compute; split; [discriminate|reflexivity]|].
    intros r Hr _ (data & Hfetch & Hsum).
    rewrite sample_rows in Hr by reflexivity.
    apply elem_of_cons in Hr as [->|Hr].
    + vm_compute in Hfetch. injection Hfetch as <-. vm_compute in Hsum. discriminate.
    + apply list_elem_of_singleton in Hr as ->. vm_compute in Hfetch. discriminate.
Defined.

(** C4 at the sample file: one block, two nodes, two rows and two
    copies. *)
Lemma replication_count_and_spread_witness :
  dict.wf (nodes (two_nodes 100 100))
  ∧ rows_of (db (two_nodes 100 100)) sample_file = []
  ∧ no_stored_copy (two_nodes 100 100) sample_file
  ∧ distribute_file_blocks (H := sample_digest) (two_nodes 100 100) sample_bytes sample_file
    = (Returns true, sample_stored)
  ∧ len (rows_of (db sample_stored) sample_file) = 1 * 2
  ∧ len (stored_copies sample_stored sample_file 1) = 1 * 2.
Proof.
  split; [apply two_nodes_wf|]. split; [reflexivity|].
  split; [apply two_nodes_no_stored_copy|]. split; [exact sample_distributed|].
  destruct (replication_count_and_spread (H := sample_digest) (two_nodes 100 100)
              sample_bytes sample_file sample_stored (two_nodes_wf 100 100) eq_refl
              (two_nodes_no_stored_copy 100 100 sample_file) sample_distributed)
    as (Hrows & Hcopies & _).
  split; [exact Hrows|exact Hcopies].
Defined.

(** C9: [node1] holding 2 bytes is not removed; [node1] empty is. *)
Lemma node_removal_guard_witness :
  dict.get (nodes sample_stored) "node1"
    = Some (StorageVirtualNode.mk "node1" 4 16 1000 100 2 ∅)
  ∧ delete_node sample_stored "node1" = (NodeNotEmpty, sample_stored)
  ∧ dict.get (nodes (two_nodes 100 100)) "node1" = Some (sample_node "node1" 100 0)
  ∧ (delete_node (two_nodes 100 100) "node1").1 = NodeDeleted.
Proof.
  assert (dict.get (nodes sample_stored) "node1"
          = Some (StorageVirtualNode.mk "node1" 4 16 1000 100 2 ∅)) as Hfull
    by (vm_compute; reflexivity).
  assert (dict.get (nodes (two_nodes 100 100)) "node1" = Some (sample_node "node1" 100 0))
    as Hempty by reflexivity.
  split; [exact Hfull|]. split.
  { apply (proj1 (node_removal_guard sample_stored "node1" _ Hfull)). reflexivity. }
  split; [exact Hempty|].
  destruct (proj2 (node_removal_guard (two_nodes 100 100) "node1" _ Hempty) eq_refl)
    as (st' & -> & _). reflexivity.
Defined.

(** * The further properties on the sample states *)

Lemma distribute_failure_leaves_state_witness :
  (distribute_file_blocks (H := sample_digest) (two_nodes 1 1) sample_bytes sample_file).1
    = Returns false
  ∧ (distribute_file_blocks (H := sample_digest) (two_nodes 1 1) sample_bytes sample_file).2
    = two_nodes 1 1.
Proof.
  split; [vm_compute; reflexivity|].
  apply (distribute_failure_leaves_state (H := sample_digest)). vm_compute. reflexivity.
Defined.

Lemma distribute_succeeds_iff_witness :
  directories_exist (two_nodes 100 100)
  ∧ (distribute_file_blocks (H := sample_digest) (two_nodes 100 100)
       sample_bytes sample_file).1 = Returns true
  ∧ (distribute_file_blocks (H := sample_digest) (two_nodes 1 1)
       sample_bytes sample_file).1 = Returns false.
Proof.
  split; [exact (two_nodes_directories 100 100)|]. split.
  - apply (proj2 (distribute_succeeds_iff (H := sample_digest) (two_nodes 100 100)
                    sample_bytes sample_file) (two_nodes_directories 100 100)).
    split; [discriminate|vm_compute; discriminate].
  - apply (proj1 (distribute_succeeds_iff (H := sample_digest) (two_nodes 1 1)
                    sample_bytes sample_file)).
    right. vm_compute. reflexivity.
Defined.

Lemma distribute_storage_taken_witness :
  dict.wf (nodes (two_nodes 100 100))
  ∧ total_used (nodes sample_stored) = 4.
Proof.
  split; [apply two_nodes_wf|].
  apply (distribute_storage_taken (H := sample_digest) (two_nodes 100 100)
           sample_bytes sample_file sample_stored).
  - apply two_nodes_wf.
  - apply sample_distributed.
Defined.

Lemma store_then_retrieve_witness :
  (store_block (two_nodes 100 100) sample_bytes "node1" "f1" 0).1
    = Returns (VDisk "node1" "f1_block_0")
  ∧ retrieve_block (store_block (two_nodes 100 100) sample_bytes "node1" "f1" 0).2
      "node1" "f1" 0 = Some sample_bytes
  ∧ (store_block (two_nodes 100 100) sample_bytes "node2" "f1" 0).1
    = Returns (BlockFile "node2" "f1_block_0.dat")
  ∧ retrieve_block (store_block (two_nodes 100 100) sample_bytes "node2" "f1" 0).2
      "node2" "f1" 0 = Some sample_bytes.
Proof.
  split; [vm_compute; reflexivity|]. split.
  - apply (store_then_retrieve (two_nodes 100 100) sample_bytes "node1" "f1" 0
             (VDisk "node1" "f1_block_0"));
      [discriminate|vm_compute; reflexivity|vm_compute; reflexivity].
  - split; [vm_compute; reflexivity|].
    apply (store_then_retrieve (two_nodes 100 100) sample_bytes "node2" "f1" 0
             (BlockFile "node2" "f1_block_0.dat"));
      [discriminate|vm_compute; reflexivity|vm_compute; reflexivity].
Defined.

Lemma store_block_frame_witness :
  retrieve_block (store_block sample_stored other_bytes "node1" "f2" 0).2 "node1" "f1" 0
  = retrieve_block sample_stored "node1" "f1" 0.
Proof.
  apply (store_block_frame sample_stored other_bytes "node1" "f2" 0). discriminate.
Defined.

Lemma distribute_keeps_other_files_witness :
  reconstruct_file (H := sample_digest) both_stored sample_file
  = reconstruct_file (H := sample_digest) sample_stored sample_file.
Proof.
  apply (distribute_keeps_other_files (H := sample_digest) sample_stored other_bytes
           other_file sample_file); discriminate.
Defined.

Lemma both_stored_paths_named : paths_named both_stored other_file.
Proof.
  apply (distribute_paths_named (H := sample_digest)). intros r Hr.
  assert (rows_of (db sample_stored) other_file = []) as Hnone by (vm_compute; reflexivity).
  rewrite Hnone in Hr. by apply elem_of_nil in Hr.
Qed.

Lemma delete_keeps_other_files_witness :
  paths_named both_stored other_file
  ∧ reconstruct_file (H := sample_digest) (delete_file_blocks both_stored other_file).2
      sample_file
    = reconstruct_file (H := sample_digest) both_stored sample_file.
Proof.
  split; [apply both_stored_paths_named|].
  apply (delete_keeps_other_files (H := sample_digest) both_stored other_file sample_file);
    [apply both_stored_paths_named|discriminate..].
Defined.

Lemma two_nodes_unused total1 total2 k node :
  (k, node) ∈ nodes (two_nodes total1 total2) → 0 ≤ StorageVirtualNode.used_storage node.
Proof.
  simpl. intros Hin.
  apply elem_of_cons in Hin as [[= -> ->]|Hin]; [done|].
  apply elem_of_cons in Hin as [[= -> ->]|Hin]; [done|].
  by apply elem_of_nil in Hin.
Qed.

Lemma distribute_then_delete_restores_witness :
  nodes (delete_file_blocks
           (distribute_file_blocks (H := sample_digest) (two_nodes 100 100)
              sample_bytes sample_file).2 sample_file).2
  = nodes (two_nodes 100 100).
Proof.
  apply (distribute_then_delete_restores (H := sample_digest) (two_nodes 100 100)
           sample_bytes sample_file); [reflexivity|apply two_nodes_unused].
Defined.

Lemma file_nodes_no_stored_copy file : no_stored_copy file_nodes file.
Proof.
  intros node_id block_id. unfold retrieve_block, read_file. simpl.
  destruct (decide (node_id = "node1")) as [->|Hn1].
  - rewrite lookup_insert_eq. simpl. apply lookup_empty.
  - rewrite lookup_insert_ne by done.
    destruct (decide (node_id = "node2")) as [->|Hn2].
    + rewrite lookup_singleton_eq. simpl. apply lookup_empty.
    + by rewrite lookup_singleton_ne by done.
Qed.

Lemma missing_directory_no_stored_copy file : no_stored_copy missing_directory file.
Proof.
  intros node_id block_id. unfold retrieve_block, read_file. simpl.
  destruct (decide (node_id = "node1")) as [->|Hn1].
  - rewrite lookup_singleton_eq. simpl. apply lookup_empty.
  - by rewrite lookup_singleton_ne by done.
Qed.

(** X13 where the distribution returns, and where it raises after the
    primary was stored. *)
Lemma files_restored_after_delete_witness :
  use_virtual_disk file_nodes = false
  ∧ (delete_file_blocks
       (distribute_file_blocks (H := sample_digest) file_nodes sample_bytes sample_file).2
       sample_file).2
    = file_nodes
  ∧ (distribute_file_blocks (H := sample_digest) missing_directory
       sample_bytes sample_file).1 = FileNotFoundError
  ∧ (delete_file_blocks
       (distribute_file_blocks (H := sample_digest) missing_directory
          sample_bytes sample_file).2
       sample_file).2
    = missing_directory.
Proof.
  split; [reflexivity|]. split.
  { apply (files_restored_after_delete (H := sample_digest) file_nodes
             sample_bytes sample_file).
    - reflexivity.
    - apply file_nodes_no_stored_copy.
    - reflexivity.
    - apply (two_nodes_unused 100 100). }
  split; [vm_compute; reflexivity|].
  apply (files_restored_after_delete (H := sample_digest) missing_directory
           sample_bytes sample_file).
  - reflexivity.
  - apply missing_directory_no_stored_copy.
  - reflexivity.
  - apply (two_nodes_unused 100 100).
Defined.

Lemma reconstruct_integrity_witness :
  ∃ datas,
    Some sample_bytes = Some (concat datas)
    ∧ Forall2 (verified (H := sample_digest) sample_stored sample_file)
        (query_primaries (db sample_stored) sample_file) datas
    ∧ query_primaries (db sample_stored) sample_file ≠ [].
Proof.
  apply (reconstruct_integrity (H := sample_digest) sample_stored sample_file).
  apply sample_read_back.
Defined.

Lemma reconstruct_failure_output_witness :
  (query_primaries (db sample_lost) sample_file = [] ∧ Some ([] : bytes) = None)
  ∨ ∃ good bad rest datas,
      query_primaries (db sample_lost) sample_file = good ++ bad :: rest
      ∧ Forall2 (λ block data,
                   reconstruct_block (H := sample_digest) sample_lost sample_file block
                   = Some data) good datas
      ∧ reconstruct_block (H := sample_digest) sample_lost sample_file bad = None
      ∧ Some ([] : bytes) = Some (concat datas).
Proof.
  apply (reconstruct_failure_output (H := sample_digest) sample_lost sample_file).
  apply sample_read_back_lost.
Defined.

Lemma sample_stored_consistent : accounting_consistent sample_stored.
Proof. apply (distribute_consistent (H := sample_digest)), two_nodes_consistent. Qed.

Lemma delete_node_protects_blocks_witness :
  delete_node sample_stored "node1" = (NodeNotEmpty, sample_stored).
Proof.
  apply (delete_node_protects_blocks sample_stored
           (FileBlock.mk 0 1 "node1" 2 "27091" false None (Some (VDisk "node1" "f1_block_0")))).
  - apply sample_stored_consistent.
  - assert (db sample_stored =
            [FileBlock.mk 0 1 "node1" 2 "27091" false None (Some (VDisk "node1" "f1_block_0"));
             FileBlock.mk 0 1 "node2" 2 "27091" true (Some 0)
               (Some (BlockFile "node2" "f1_block_0.dat"))]) as ->
      by (vm_compute; reflexivity).
    left.
  - reflexivity.
  - simpl. left.
Defined.

Lemma upload_failure_leaves_no_trace_witness :
  (upload_file (H := sample_digest) (H1 := sample_secure_filename)
     (empty_app 1) sample_user (Some sample_upload) "f1" 1).1 = StoreFailed
  ∧ (upload_file (H := sample_digest) (H1 := sample_secure_filename)
       (empty_app 1) sample_user (Some sample_upload) "f1" 1).2 = empty_app 1.
Proof.
  split; [vm_compute; reflexivity|].
  apply (upload_failure_leaves_no_trace (H := sample_digest) (H1 := sample_secure_filename)
           (empty_app 1) sample_user (Some sample_upload) "f1" 1).
  - intros row Hrow. by apply elem_of_nil in Hrow.
  - apply lookup_empty.
  - vm_compute. discriminate.
  - vm_compute. discriminate.
Defined.

Lemma sample_uploaded :
  upload_file (H := sample_digest) (H1 := sample_secure_filename)
    (empty_app 100) sample_user (Some sample_upload) "f1" 1 = (FileUploaded, sample_app).
Proof. vm_compute. reflexivity. Qed.

Lemma upload_then_download_witness :
  (download_file (H := sample_digest) sample_app sample_user "f1").1
  = SendFile sample_bytes "hi.txt".
Proof.
  apply (upload_then_download (H := sample_digest) (H1 := sample_secure_filename)
           (empty_app 100) sample_user sample_upload "f1" 1 sample_app).
  - apply two_nodes_wf.
  - intros row Hrow. by apply elem_of_nil in Hrow.
  - reflexivity.
  - apply two_nodes_no_stored_copy.
  - apply sample_uploaded.
Defined.

Lemma download_sends_verified_bytes_witness :
  ∃ row datas,
    query_file (files sample_app) "f1" = Some row
    ∧ FileRow.user_id row = User.id sample_user
    ∧ "hi.txt" = FileRow.filename row
    ∧ sample_bytes = concat datas
    ∧ Forall2 (verified (H := sample_digest) (block_manager sample_app) (FileRow.file row))
        (query_primaries (db (block_manager sample_app)) (FileRow.file row)) datas
    ∧ block_manager (download_file (H := sample_digest) sample_app sample_user "f1").2
      = block_manager sample_app
    ∧ files (download_file (H := sample_digest) sample_app sample_user "f1").2
      = files sample_app
    ∧ upload_folder (download_file (H := sample_digest) sample_app sample_user "f1").2
        !! ("download_" +:+ "f1") = Some sample_bytes.
Proof.
  apply (download_sends_verified_bytes (H := sample_digest) sample_app sample_user "f1"
           sample_bytes "hi.txt").
  vm_compute. reflexivity.
Defined.

Lemma empty_app_wf total : app_wf (empty_app total).
Proof.
  split_and!; simpl.
  - intros row1 row2 Hrow1. by apply elem_of_nil in Hrow1.
  - intros k node Hin.
    apply elem_of_cons in Hin as [[= -> ->]|Hin]; [done|].
    apply elem_of_cons in Hin as [[= -> ->]|Hin]; [done|].
    by apply elem_of_nil in Hin.
  - intros r Hr. by apply elem_of_nil in Hr.
  - apply two_nodes_consistent.
  - apply two_nodes_directories.
Qed.

Lemma empty_app_fresh total uuid4 id : fresh_key (empty_app total) uuid4 id.
Proof. intros row Hrow. by apply elem_of_nil in Hrow. Qed.

Lemma sample_app_wf : app_wf sample_app.
Proof.
  apply (upload_file_wf (H := sample_digest) (H1 := sample_secure_filename));
    [apply empty_app_wf|apply empty_app_fresh].
Qed.

Lemma sample_app_files : files sample_app = [sample_row].
Proof. vm_compute. reflexivity. Qed.

Lemma sample_requests_fresh :
  fresh_uploads (H := sample_digest) (H1 := sample_secure_filename) sample_app sample_requests.
Proof.
  split; [|by repeat split].
  intros row. rewrite sample_app_files. intros ->%list_elem_of_singleton. by split.
Qed.

Lemma routes_keep_tables_witness :
  app_wf (foldl (serve (H := sample_digest) (H1 := sample_secure_filename))
            sample_app sample_requests)
  ∧ accounting_consistent
      (block_manager (foldl (serve (H := sample_digest) (H1 := sample_secure_filename))
                        sample_app sample_requests)).
Proof.
  destruct (routes_keep_tables (H := sample_digest) (H1 := sample_secure_filename)
              sample_app sample_requests sample_app_wf sample_requests_fresh)
    as (Hwf & Hacc & _).
  split; [exact Hwf|exact Hacc].
Defined.

Lemma sample_requests_spare : spares sample_row sample_requests.
Proof.
  intros user file_id Hin Hid. unfold sample_requests in Hin.
  repeat (apply elem_of_cons in Hin as [Heq|Hin];
          [by (discriminate || (injection Heq as -> ->))|]).
  by apply elem_of_nil in Hin.
Qed.

Lemma uploaded_file_stays_downloadable_witness :
  (download_file (H := sample_digest)
     (foldl (serve (H := sample_digest) (H1 := sample_secure_filename))
        sample_app sample_requests)
     sample_user "f1").1
  = SendFile sample_bytes "hi.txt".
Proof.
  apply (uploaded_file_stays_downloadable (H := sample_digest) (H1 := sample_secure_filename)
           sample_app sample_row sample_bytes sample_requests sample_user).
  - apply sample_app_wf.
  - rewrite sample_app_files. left.
  - vm_compute. reflexivity.
  - apply sample_requests_fresh.
  - apply sample_requests_spare.
  - reflexivity.
Defined.
